(** * Elo analysis: a shallow embedding of
      [fastchat/serve/monitor/elo_analysis.py]

    Floating-point values are read as exact real numbers ([R]) where the
    code needs [exp], [log] or [sqrt], and as exact rationals ([Q]) where it
    only counts, multiplies and compares.  Python dictionaries are [gmap]s,
    data-frame columns and numpy arrays are lists, and a Python exception
    is the [Raise] branch of [result]. *)

From Stdlib Require Import Reals Lra Lia QArith Qabs.
From Stdlib Require Floats Uint63.
From stdpp Require Import gmap strings list fin_maps.

#[local] Set Warnings "-clear-no-such-hyp".

(** ** Exceptions and the error monad *)

Inductive exn : Type :=
  | UnexpectedVote (w : string)   (* raise Exception(f"unexpected vote {winner}") *)
  | NameError (name : string)     (* a global name that is not bound *)
  | KeyError (key : string)       (* dict or Series lookup of a missing key *)
  | IndexError                    (* array index out of range *)
  | ValueError                    (* numpy shape mismatch *)
  | ZeroDivisionError
  | AssertionError.

Inductive result (A : Type) : Type :=
  | Ok (a : A)
  | Raise (e : exn).
Arguments Ok {A} a.
Arguments Raise {A} e.

#[global] Instance result_ret : MRet result := λ A a, Ok a.

#[global] Instance result_bind : MBind result := λ A B k r,
  match r with
  | Ok a => k a
  | Raise e => Raise e
  end.

Definition raises {A} (r : result A) : Prop := ∃ e, r = Raise e.

(** ** Battles *)

(** A value of [conv_metadata]: an int, or a dict whose values are summed. *)
Inductive meta_value : Type :=
  | MInt (n : Z)
  | MDict (d : list (string * Z)).

(** One row of the battles data frame (the columns the analysis reads). *)
Record Battle : Type := mkBattle {
  model_a : string;
  model_b : string;
  winner : string;
  judge : string;
  conv_metadata : list (string * meta_value)
}.

Definition is_tie (w : string) : bool :=
  bool_decide (w = "tie") || bool_decide (w = "tie (bothbad)").

(** The four outcome tags the analysis knows. *)
Definition recognized (w : string) : bool :=
  bool_decide (w = "model_a") || bool_decide (w = "model_b") || is_tie w.

(** The competitors that appear in a battle list, on either side. *)
Definition competitors (battles : list Battle) : gset string :=
  list_to_set (battles ≫= λ b, [model_a b; model_b b]).

(** ** [compute_elo]: the online Elo update *)

Module Elo.
Section compute_elo.
Local Open Scope R_scope.

Variables K SCALE BASE INIT_RATING : R.

(** [rating[k]] on a [defaultdict(lambda: INIT_RATING)]: a missing key is
    inserted with the default before it is read. *)
Definition dd_get (rating : gmap string R) (k : string) : R * gmap string R :=
  match rating !! k with
  | Some v => (v, rating)
  | None => (INIT_RATING, <[k := INIT_RATING]> rating)
  end.

(** [rating[k] += d] *)
Definition dd_add (rating : gmap string R) (k : string) (d : R) : gmap string R :=
  let '(v, rating') := dd_get rating k in <[k := v + d]> rating'.

(** [BASE ** x] for a positive base. *)
Definition pow_base (x : R) : R := Rpower BASE x.

(** [1 / (1 + BASE ** ((r_other - r_self) / SCALE))], read on [BASE > 0]
    and [SCALE <> 0]: with a zero [SCALE] Python raises
    [ZeroDivisionError] here, before the tag of the battle is looked at. *)
Definition expected (r_self r_other : R) : R :=
  1 / (1 + pow_base ((r_other - r_self) / SCALE)).

Definition score_a (w : string) : result R :=
  if bool_decide (w = "model_a") then Ok 1
  else if bool_decide (w = "model_b") then Ok 0
  else if is_tie w then Ok (1 / 2)
  else Raise (UnexpectedVote w).

(** One iteration of the loop body. *)
Definition elo_step (rating : gmap string R) (b : Battle) : result (gmap string R) :=
  let '(ra, rating1) := dd_get rating (model_a b) in
  let '(rb, rating2) := dd_get rating1 (model_b b) in
  let ea := expected ra rb in
  let eb := expected rb ra in
  sa ← score_a (winner b);
  let rating3 := dd_add rating2 (model_a b) (K * (sa - ea)) in
  Ok (dd_add rating3 (model_b b) (K * (1 - sa - eb))).

Fixpoint elo_loop (rating : gmap string R) (battles : list Battle)
  : result (gmap string R) :=
  match battles with
  | [] => Ok rating
  | b :: rest => rating' ← elo_step rating b; elo_loop rating' rest
  end.

Definition compute_elo (battles : list Battle) : result (gmap string R) :=
  elo_loop ∅ battles.

(** Sum over the competitors of [f rating]. *)
Definition rating_sum (f : R → R) (rating : gmap string R) : R :=
  map_fold (λ _ v acc, f v + acc) 0 rating.

End compute_elo.
End Elo.


(** The same battle with the two sides exchanged. *)
Definition mirror_winner (w : string) : string :=
  if bool_decide (w = "model_a") then "model_b"
  else if bool_decide (w = "model_b") then "model_a"
  else w.

Definition mirror (b : Battle) : Battle :=
  mkBattle (model_b b) (model_a b) (mirror_winner (winner b)) (judge b)
           (conv_metadata b).

(** ** The matchup encoder: [preprocess_battles_to_arrays] *)

Module Encoder.

(** [pd.unique]: the distinct values in order of first appearance. *)
Fixpoint unique_from (seen : list string) (l : list string) : list string :=
  match l with
  | [] => []
  | x :: rest =>
      if bool_decide (x ∈ seen) then unique_from seen rest
      else x :: unique_from (x :: seen) rest
  end.

Definition pd_unique (l : list string) : list string := unique_from [] l.

(** [df[["model_a", "model_b"]].values.ravel()]: a1, b1, a2, b2, ... *)
Definition ravel_models (df : list Battle) : list string :=
  df ≫= λ b, [model_a b; model_b b].

(** [{model: idx for idx, model in enumerate(models)}] *)
Definition model_to_idx (models : list string) : gmap string nat :=
  list_to_map (zip models (seq 0 (length models))).

Definition dict_get (d : gmap string nat) (k : string) : result nat :=
  match d !! k with
  | Some i => Ok i
  | None => Raise (KeyError k)
  end.

(** A row of [schedule]: model_a id, model_b id, outcome id.  The array
    is int32; the ids are below the number of models and the outcome id
    is 0, 1 or 2, so no entry wraps. *)
Definition row : Type := nat * nat * nat.

(** [np.select([winner == "model_a", winner == "model_b"], [2, 0],
    default=1)] at one battle. *)
Definition outcome_id (w : string) : nat :=
  if bool_decide (w = "model_a") then 2
  else if bool_decide (w = "model_b") then 0
  else 1.

Definition schedule_row (idx : gmap string nat) (b : Battle) : result row :=
  a ← dict_get idx (model_a b);
  c ← dict_get idx (model_b b);
  Ok (a, c, outcome_id (winner b)).

Fixpoint schedule_rows (idx : gmap string nat) (df : list Battle)
  : result (list row) :=
  match df with
  | [] => Ok []
  | b :: rest =>
      r ← schedule_row idx b;
      rs ← schedule_rows idx rest;
      Ok (r :: rs)
  end.

(** Lexicographic order on rows, as [np.unique(..., axis=0)] sorts them. *)
Definition row_ltb (r1 r2 : row) : bool :=
  let '(a1, b1, o1) := r1 in
  let '(a2, b2, o2) := r2 in
  (a1 <? a2)%nat
  || ((a1 =? a2)%nat && ((b1 <? b2)%nat || ((b1 =? b2)%nat && (o1 <? o2)%nat))).

(** Insert one row into the sorted table of distinct rows and counts. *)
Fixpoint count_insert (r : row) (table : list (row * nat)) : list (row * nat) :=
  match table with
  | [] => [(r, 1%nat)]
  | (r', c) :: rest =>
      if bool_decide (r = r') then (r', S c) :: rest
      else if row_ltb r r' then (r, 1%nat) :: table
      else (r', c) :: count_insert r rest
  end.

(** [np.unique(schedule, return_counts=True, axis=0)]: the distinct rows
    in increasing order, each with the number of times it occurs. *)
Definition np_unique_counts (schedule : list row) : list (row * nat) :=
  foldr count_insert [] schedule.

(** The arrays handed to the fitter. *)
Record arrays : Type := mkArrays {
  matchups : list (nat * nat);
  outcomes : list R;
  weights : list R;
  models : list string
}.

Definition schedule_of (df : list Battle) : result (list row) :=
  schedule_rows (model_to_idx (pd_unique (ravel_models df))) df.

Definition preprocess_battles_to_arrays (df : list Battle) : result arrays :=
  let models := pd_unique (ravel_models df) in
  schedule ← schedule_of df;
  let matchups_outcomes := np_unique_counts schedule in
  Ok {| matchups := (λ rc, (rc.1.1.1, rc.1.1.2)) <$> matchups_outcomes;
        outcomes := (λ rc, INR rc.1.2 / 2)%R <$> matchups_outcomes;
        weights := (λ rc, INR rc.2) <$> matchups_outcomes;
        models := models |}.

(** Every battle as its own matchup with weight 1: the arrays before
    [np.unique] merges equal rows. *)
Definition individual_arrays (df : list Battle) : result arrays :=
  let models := pd_unique (ravel_models df) in
  schedule ← schedule_of df;
  Ok {| matchups := (λ r : row, (r.1.1, r.1.2)) <$> schedule;
        outcomes := (λ r : row, INR r.2 / 2)%R <$> schedule;
        weights := (λ _, 1%R) <$> schedule;
        models := models |}.

End Encoder.

(** [mapM] in the error monad: the first exception wins. *)
Fixpoint mapM {A B} (f : A → result B) (l : list A) : result (list B) :=
  match l with
  | [] => Ok []
  | x :: rest => y ← f x; ys ← mapM f rest; Ok (y :: ys)
  end.

(** ** The Bradley-Terry fitter *)

Module BT.
Import Encoder.
Local Open Scope R_scope.

(** [scipy.special.expit] *)
Definition sigmoid (x : R) : R := 1 / (1 + exp (- x)).

Definition Rsum (l : list R) : R := foldr Rplus 0 l.

(** [ratings[i]] for an index taken from [matchups]. *)
Definition rating_at (ratings : list R) (i : nat) : result R :=
  match ratings !! i with
  | Some v => Ok v
  | None => Raise IndexError
  end.

(** One row of [ratings[matchups]]. *)
Definition matchup_rating (ratings : list R) (m : nat * nat) : result (R * R) :=
  ra ← rating_at ratings m.1;
  rb ← rating_at ratings m.2;
  Ok (ra, rb).

Definition prob (alpha : R) (rr : R * R) : R := sigmoid (alpha * (rr.1 - rr.2)).

(** One summand of the loss. *)
Definition loss_term (p o w : R) : R :=
  (ln p * o + ln (1 - p) * (1 - o)) * w.

(** One entry of [matchups_grads]. *)
Definition grad_term (alpha p o w : R) : R := - alpha * (o - p) * w.

(** [model_grad[i] += v] *)
Definition add_at (model_grad : list R) (i : nat) (v : R) : list R :=
  alter (λ x, x + v) i model_grad.

(** [np.add.at(model_grad, matchups[:, [0, 1]], g[:, None] * [1.0, -1.0])]:
    row by row, first the model_a column, then the model_b column. *)
Definition add_at_rows (model_grad : list R) (ms : list (nat * nat)) (gs : list R)
  : list R :=
  foldl (λ acc mg, add_at (add_at acc mg.1.1 (mg.2 * 1)) mg.1.2 (mg.2 * -1))
        model_grad (zip ms gs).

(** numpy broadcasting of the one-dimensional [outcomes] or [weights]
    against the [n] matchups: an array of length [n] is taken as it is, an
    array of one element is repeated [n] times, and any other length
    raises [ValueError] (in an elementwise product, or in [np.add.at] when
    the longer array met a single matchup). *)
Definition broadcast (n : nat) (l : list R) : result (list R) :=
  if bool_decide (length l = n) then Ok l
  else match l with
       | [x] => Ok (replicate n x)
       | _ => Raise ValueError
       end.

(** [bt_loss_and_grad] on one-dimensional [outcomes] and [weights]. *)
Definition bt_loss_and_grad (ratings : list R) (ms : list (nat * nat))
    (os ws : list R) (alpha : R) : result (R * list R) :=
  matchup_ratings ← mapM (matchup_rating ratings) ms;
  os ← broadcast (length ms) os;
  ws ← broadcast (length ms) ws;
  let probs := prob alpha <$> matchup_ratings in
  let loss := - Rsum (zip_with (λ po w, loss_term po.1 po.2 w) (zip probs os) ws) in
  let matchups_grads :=
    zip_with (λ po w, grad_term alpha po.1 po.2 w) (zip probs os) ws in
  let model_grad := (λ _, 0) <$> ratings in
  Ok (loss, add_at_rows model_grad ms matchups_grads).

(** [scipy.optimize.minimize(..., jac=True, method="L-BFGS-B")] is outside
    the repository.  It is taken as a solver that sees the data only by
    evaluating the objective at points of its own choice: [lbfgs_point]
    is the next point to evaluate, [lbfgs_next] consumes the loss and
    gradient there and either goes on or stops with its estimate, and
    [max_eval] bounds the evaluations (when it is reached the current
    point is returned, with no error). *)
Section fit.
Context {opt_state : Type}.
Variable lbfgs_init : list R → R → opt_state.
Variable lbfgs_point : opt_state → list R.
Variable lbfgs_next : opt_state → R * list R → opt_state + list R.
Variable max_eval : nat.

Fixpoint lbfgs_loop (fuel : nat) (objective : list R → result (R * list R))
    (s : opt_state) : result (list R) :=
  match fuel with
  | O => Ok (lbfgs_point s)
  | S fuel' =>
      lg ← objective (lbfgs_point s);
      match lbfgs_next s lg with
      | inl s' => lbfgs_loop fuel' objective s'
      | inr x => Ok x
      end
  end.

Definition minimize (objective : list R → result (R * list R))
    (x0 : list R) (tol : R) : result (list R) :=
  lbfgs_loop max_eval objective (lbfgs_init x0 tol).

Definition fit_bt (ms : list (nat * nat)) (os ws : list R) (n_models : nat)
    (alpha tol : R) : result (list R) :=
  let initial_ratings := replicate n_models 0 in
  minimize (λ ratings, bt_loss_and_grad ratings ms os ws alpha)
           initial_ratings tol.
End fit.

(** [scale_and_offset] on a rating vector.  [models.index] is the first
    position of the baseline model. *)
Definition scale_and_offset (ratings : list R) (models : list string)
    (scale init_rating : R) (baseline_model : string) (baseline_rating : R)
  : result (list R) :=
  let scaled_ratings := (λ r, r * scale + init_rating) <$> ratings in
  match list_find (λ m, m = baseline_model) models with
  | Some (baseline_idx, _) =>
      anchor ← rating_at scaled_ratings baseline_idx;
      Ok ((λ s, s + (baseline_rating - anchor)) <$> scaled_ratings)
  | None => Ok scaled_ratings
  end.

(** On an ensemble (trial x competitor), [scaled[..., [baseline_idx]]] is
    the anchor's column: each trial is shifted by its own anchor. *)
Definition scale_and_offset_rows (ratings : list (list R)) (models : list string)
    (scale init_rating : R) (baseline_model : string) (baseline_rating : R)
  : result (list (list R)) :=
  mapM (λ row, scale_and_offset row models scale init_rating
                 baseline_model baseline_rating) ratings.

Definition default_baseline : string := "mixtral-8x7b-instruct-v0.1".

Section mle.
Context {opt_state : Type}.
Variable lbfgs_init : list R → R → opt_state.
Variable lbfgs_point : opt_state → list R.
Variable lbfgs_next : opt_state → R * list R → opt_state + list R.
Variable max_eval : nat.

(** [np.random.multinomial(n, pvals, size)]: [size] draws of counts. *)
Variable multinomial : nat → list R → nat → list (list nat).

Let fit := fit_bt lbfgs_init lbfgs_point lbfgs_next max_eval.

(** [compute_elo_mle_with_tie]; the Series is given as its (label,
    value) pairs, before [sort_values] reorders them. *)
Definition compute_elo_mle_with_tie (df : list Battle)
    (SCALE BASE INIT_RATING : R) (baseline_model : string)
    (baseline_rating : R) : result (list (string * R)) :=
  a ← preprocess_battles_to_arrays df;
  ratings ← fit (matchups a) (outcomes a) (weights a)
                (length (models a)) (ln BASE) (1 / 10 ^ 6);
  scaled ← scale_and_offset ratings (models a) SCALE INIT_RATING
             baseline_model baseline_rating;
  Ok (zip (models a) scaled).

(** One bootstrap trial: refit on the resampled weights. *)
Definition bootstrap_trial (a : arrays) (n_battles : nat) (BASE : R)
    (idxs : list nat) : result (list R) :=
  let boot_weights := (λ c, INR c / INR n_battles) <$> idxs in
  fit (matchups a) (outcomes a) boot_weights (length (models a))
      (ln BASE) (1 / 10 ^ 6).

(** [get_bootstrap_result_elo_mle_with_tie(df, num_round, ...)].
    The body never reads its parameter [df]: it reads the name
    [battles], which is not a local and so resolves to the module
    global of that name ([global_battles]; [None] when the module is
    imported and the name is unbound).  The result is the data frame's
    column labels and its rows, before the columns are reordered by
    median.  With no trial at all, [np.array(results)] is the empty
    vector, not a matrix: [scale_and_offset] cannot index the anchor in
    it, and a frame is built from it only for a single column. *)
Definition get_bootstrap_result_elo_mle_with_tie
    (global_battles : option (list Battle))
    (df : list Battle) (num_round : nat) (BASE SCALE INIT_RATING : R)
  : result (list string * list (list R)) :=
  battles ← match global_battles with
            | Some b => Ok b
            | None => Raise (NameError "battles")
            end;
  a ← preprocess_battles_to_arrays battles;
  let pvals := (λ w, w / Rsum (weights a)) <$> weights a in
  let idxs := multinomial (length battles) pvals num_round in
  results ← mapM (bootstrap_trial a (length battles) BASE) idxs;
  match results with
  | [] =>
      _ ← scale_and_offset [] (models a) SCALE INIT_RATING
            default_baseline 1114;
      if bool_decide (length (models a) = 1%nat) then Ok (models a, [])
      else Raise ValueError
  | _ =>
      scaled ← scale_and_offset_rows results (models a) SCALE INIT_RATING
                 default_baseline 1114;
      Ok (models a, scaled)
  end.
End mle.

End BT.

(** Closed forms used to state what the fitter computes. *)
Module BTSpec.
Import Encoder BT.
Local Open Scope R_scope.

(** Both indices of a matchup are positions of the rating vector. *)
Definition in_range (ratings : list R) (m : nat * nat) : Prop :=
  (m.1 < length ratings)%nat ∧ (m.2 < length ratings)%nat.

Definition ratings_of (ratings : list R) (m : nat * nat) : R * R :=
  (default 0 (ratings !! m.1), default 0 (ratings !! m.2)).

(** What one matchup with gradient entry [g] adds to [model_grad[k]]. *)
Definition contrib (k : nat) (mg : nat * nat * R) : R :=
  (if bool_decide (mg.1.1 = k) then mg.2 * 1 else 0)
  + (if bool_decide (mg.1.2 = k) then mg.2 * -1 else 0).

(** The objective of a fit, on arrays that may have failed to build. *)
Definition objective (a : result arrays) (alpha : R) (ratings : list R)
  : result (R * list R) :=
  a ← a; bt_loss_and_grad ratings (matchups a) (outcomes a) (weights a) alpha.

End BTSpec.

(** ** Ranks from the bootstrap quantiles (in [report_elo_analysis_results]) *)

Module Rank.

(** [series[k]] on a pandas Series of quantiles. *)
Definition series_get (s : gmap string Q) (k : string) : result Q :=
  match s !! k with
  | Some v => Ok v
  | None => Raise (KeyError k)
  end.

(** The inner loop over [enumerate(model_order)] from position [j] on:
    [if i == j: continue], and [ranking[model_a] += 1] when
    [model_rating_q025[model_b] > model_rating_q975[model_a]]. *)
Fixpoint rank_inner (q025 q975 : gmap string Q) (i : nat) (model_a : string)
    (j : nat) (rest : list string) (ranking : gmap string nat)
  : result (gmap string nat) :=
  match rest with
  | [] => Ok ranking
  | model_b :: rest' =>
      if bool_decide (i = j) then
        rank_inner q025 q975 i model_a (S j) rest' ranking
      else
        lo_b ← series_get q025 model_b;
        hi_a ← series_get q975 model_a;
        if Qlt_le_dec hi_a lo_b
        then rank_inner q025 q975 i model_a (S j) rest'
               (alter S model_a ranking)
        else rank_inner q025 q975 i model_a (S j) rest' ranking
  end.

(** The outer loop from position [i] on: [ranking[model_a] = 1], then the
    inner loop over the whole of [model_order]. *)
Fixpoint rank_outer (q025 q975 : gmap string Q) (model_order : list string)
    (i : nat) (todo : list string) (ranking : gmap string nat)
  : result (gmap string nat) :=
  match todo with
  | [] => Ok ranking
  | model_a :: todo' =>
      ranking' ← rank_inner q025 q975 i model_a 0 model_order
                   (<[model_a := 1%nat]> ranking);
      rank_outer q025 q975 model_order (S i) todo' ranking'
  end.

Definition compute_ranking (q025 q975 : gmap string Q)
    (model_order : list string) : result (gmap string nat) :=
  rank_outer q025 q975 model_order 0 model_order ∅.

(** Closed form: [b]'s lower bound strictly exceeds [a]'s upper bound. *)
Definition exceeds (q025 q975 : gmap string Q) (a b : string) : bool :=
  match q975 !! a, q025 !! b with
  | Some hi_a, Some lo_b => if Qlt_le_dec hi_a lo_b then true else false
  | _, _ => false
  end.

(** A competitor has both quantiles, in the right order. *)
Definition well_bracketed (q025 q975 : gmap string Q) (m : string) : Prop :=
  ∃ lo hi, q025 !! m = Some lo ∧ q975 !! m = Some hi ∧ (lo <= hi)%Q.

Fixpoint count_if {A} (p : A → bool) (l : list A) : nat :=
  match l with
  | [] => 0
  | x :: rest => (if p x then 1 else 0) + count_if p rest
  end.

(** One plus the number of competitors whose q025 exceeds [a]'s q975. *)
Definition rank_of (q025 q975 : gmap string Q) (model_order : list string)
    (a : string) : nat :=
  1 + count_if (exceeds q025 q975 a) model_order.

End Rank.

(** ** Floats that are rationals, infinities or NaN *)

Module XQ.

(** A float that is a rational number, an infinity or NaN: what numpy
    gives for a division by [0.0] and for the mean of an empty array.
    The style covariates are read this way. *)
Inductive xq : Type :=
  | Fin (q : Q)
  | PInf
  | NInf
  | NaN.

Definition xmul_inf (positive_inf : bool) (q : Q) : xq :=
  if Qeq_bool q 0 then NaN
  else if Qle_bool 0 q then (if positive_inf then PInf else NInf)
  else (if positive_inf then NInf else PInf).

Definition xmul (x y : xq) : xq :=
  match x, y with
  | NaN, _ | _, NaN => NaN
  | Fin a, Fin b => Fin (a * b)
  | PInf, Fin q | Fin q, PInf => xmul_inf true q
  | NInf, Fin q | Fin q, NInf => xmul_inf false q
  | PInf, PInf | NInf, NInf => PInf
  | PInf, NInf | NInf, PInf => NInf
  end.

(** [-x], [x + y], [x - y] and [x / y], as IEEE arithmetic has them. *)
Definition xneg (x : xq) : xq :=
  match x with
  | Fin q => Fin (- q)
  | PInf => NInf
  | NInf => PInf
  | NaN => NaN
  end.

Definition xadd (x y : xq) : xq :=
  match x, y with
  | NaN, _ | _, NaN => NaN
  | Fin a, Fin b => Fin (a + b)
  | PInf, NInf | NInf, PInf => NaN
  | PInf, _ | _, PInf => PInf
  | NInf, _ | _, NInf => NInf
  end.

Definition xsub (x y : xq) : xq := xadd x (xneg y).

(** The sign of an infinity divided by the finite [q]; a zero divisor is
    the positive zero. *)
Definition xdiv_inf (positive_inf : bool) (q : Q) : xq :=
  if Qle_bool 0 q then (if positive_inf then PInf else NInf)
  else (if positive_inf then NInf else PInf).

Definition xdiv (x y : xq) : xq :=
  match x, y with
  | NaN, _ | _, NaN => NaN
  | Fin a, Fin b =>
      if Qeq_bool b 0 then
        (if Qeq_bool a 0 then NaN else if Qle_bool 0 a then PInf else NInf)
      else Fin (a / b)
  | Fin _, (PInf | NInf) => Fin 0
  | PInf, Fin q => xdiv_inf true q
  | NInf, Fin q => xdiv_inf false q
  | (PInf | NInf), (PInf | NInf) => NaN
  end.

(** [np.sum] and [np.mean] of a row; the mean of no entries is NaN. *)
Definition xsum (l : list xq) : xq := foldr xadd (Fin 0) l.

Definition xmean_row (l : list xq) : xq :=
  xdiv (xsum l) (Fin (inject_Z (Z.of_nat (length l)))).

End XQ.

(** ** The outlier judge detector *)

Module Outlier.

(** The values of [model_pair_stats]. *)
Record pair_stats : Type := mkStats { win : nat; loss : nat; tie : nat }.

(** [tuple(sorted([a, b]))] *)
Definition ordered_pair (a b : string) : string * string :=
  if String.leb a b then (a, b) else (b, a).

Definition pair_of (row : Battle) : string * string :=
  ordered_pair (model_a row) (model_b row).

(** Does the row record a win of the pair's first model? *)
Definition first_wins (row : Battle) : bool :=
  (bool_decide (winner row = "model_a")
   && bool_decide (model_a row = (pair_of row).1))
  || (bool_decide (winner row = "model_b")
      && bool_decide (model_b row = (pair_of row).1)).

(** One iteration of the loop of [get_model_pair_stats]. *)
Definition count_row (stats : gmap (string * string) pair_stats) (row : Battle)
  : gmap (string * string) pair_stats :=
  let pair := pair_of row in
  let s := default (mkStats 0 0 0) (stats !! pair) in
  let s' :=
    if is_tie (winner row) then mkStats (win s) (loss s) (S (tie s))
    else if first_wins row then mkStats (S (win s)) (loss s) (tie s)
    else mkStats (win s) (S (loss s)) (tie s) in
  <[pair := s']> stats.

Definition get_model_pair_stats (battles : list Battle)
  : gmap (string * string) pair_stats :=
  foldl count_row ∅ battles.

(** The number of battles counted in one entry. *)
Definition votes_total (s : pair_stats) : nat := win s + loss s + tie s.

Definition total_at (stats : gmap (string * string) pair_stats)
    (pair : string * string) : nat :=
  match stats !! pair with
  | Some s => votes_total s
  | None => 0
  end.

(** The judge's vote: 0.5, 1 or 0. *)
Definition vote_of (row : Battle) : Q :=
  if is_tie (winner row) then 1 # 2
  else if first_wins row then 1
  else 0.

(** The float64 of a count; exact, the counts being far below 2^53. *)
Definition float_of_nat (n : nat) : PrimFloat.float :=
  PrimFloat.of_uint63 (Uint63.of_Z (Z.of_nat n)).

(** [bools.mean()]: the number of [True] over the length, divided in
    float64; on an empty array 0/0, which is NaN. *)
Definition bool_mean (bs : list bool) : PrimFloat.float :=
  PrimFloat.div (float_of_nat (length (filter Is_true bs)))
                (float_of_nat (length bs)).

(** [ratings = np.array([1] * stats["win"] + [0] * stats["loss"])], then
    [(ratings <= vote).mean()] and [(ratings >= vote).mean()]. *)
Definition tail_probs (s : pair_stats) (vote : Q)
  : PrimFloat.float * PrimFloat.float :=
  let ratings := replicate (win s) 1%Q ++ replicate (loss s) 0%Q in
  (bool_mean ((λ r, Qle_bool r vote) <$> ratings),
   bool_mean ((λ r, Qle_bool vote r) <$> ratings)).

(** [np.prod(1 / (2 * np.array(p)))]: float64 throughout, the product
    taken from left to right. *)
Definition martingale (ps : list PrimFloat.float) : PrimFloat.float :=
  foldl PrimFloat.mul PrimFloat.one
    ((λ p, PrimFloat.div PrimFloat.one (PrimFloat.mul PrimFloat.two p))
       <$> ps).

Definition stats_get (stats : gmap (string * string) pair_stats)
    (pair : string * string) : result pair_stats :=
  match stats !! pair with
  | Some s => Ok s
  | None => Raise (KeyError (pair.1 +:+ ", " +:+ pair.2))
  end.

(** [M > 1 / alpha] on float64 values. *)
Definition over (M alpha : PrimFloat.float) : bool :=
  PrimFloat.ltb (PrimFloat.div PrimFloat.one alpha) M.

(** The test as Python evaluates it: dividing by a zero [alpha] raises. *)
Definition over_threshold (M alpha : PrimFloat.float) : result bool :=
  if PrimFloat.eqb alpha PrimFloat.zero then Raise ZeroDivisionError
  else Ok (over M alpha).

(** The loop over one judge's rows ([randomized=False]).  The result is
    [flag] and [len(p_upper)] when the loop is left. *)
Fixpoint inspect (stats : gmap (string * string) pair_stats) (max_vote : Z)
    (alpha : PrimFloat.float) (rows : list Battle)
    (p_upper p_lower : list PrimFloat.float)
  : result (bool * nat) :=
  match rows with
  | [] => Ok (false, length p_upper)
  | row :: rest =>
      if bool_decide (max_vote ≤ Z.of_nat (length p_upper))%Z
      then Ok (false, length p_upper)
      else
        s ← stats_get stats (pair_of row);
        let probs := tail_probs s (vote_of row) in
        let p_upper' := p_upper ++ [probs.1] in
        let p_lower' := p_lower ++ [probs.2] in
        upper_over ← over_threshold (martingale p_upper') alpha;
        if (upper_over : bool) then Ok (true, length p_upper')
        else
          lower_over ← over_threshold (martingale p_lower') alpha;
          if (lower_over : bool) then Ok (true, length p_upper')
          else inspect stats max_vote alpha rest p_upper' p_lower'
  end.

(** [battles[battles["judge"] == user]] *)
Definition votes_of (user : string) (battles : list Battle) : list Battle :=
  filter (λ b, judge b = user) battles.

(** The judges to check: the given list, or by default those with at least
    5 votes ([value_counts] lists them by decreasing count; the order only
    decides the order of [bad_user_list]). *)
Definition users_to_check (battles : list Battle)
    (user_list : option (list string)) : list string :=
  match user_list with
  | Some l => l
  | None =>
      filter (λ u, 5 ≤ length (votes_of u battles))
             (Encoder.pd_unique (judge <$> battles))
  end.

(** The loop over the judges: [bad_user_list] as (user_id, votes) pairs. *)
Fixpoint check_users (stats : gmap (string * string) pair_stats)
    (battles : list Battle) (max_vote : Z) (alpha : PrimFloat.float)
    (users : list string) : result (list (string * nat)) :=
  match users with
  | [] => Ok []
  | user :: rest =>
      fv ← inspect stats max_vote alpha (votes_of user battles) [] [];
      bad ← check_users stats battles max_vote alpha rest;
      Ok (if (fv.1 : bool) then (user, fv.2) :: bad else bad)
  end.

Definition bad_user_list (stats : gmap (string * string) pair_stats)
    (battles : list Battle) (max_vote : Z) (alpha : PrimFloat.float)
    (user_list : option (list string)) : result (list (string * nat)) :=
  check_users stats battles max_vote alpha (users_to_check battles user_list).

(** [outlier_detect] with [randomized=False]. *)
Definition outlier_detect (stats : gmap (string * string) pair_stats)
    (battles : list Battle) (max_vote : Z) (alpha : PrimFloat.float)
    (user_list : option (list string)) : result (list Battle) :=
  bad ← bad_user_list stats battles max_vote alpha user_list;
  Ok (filter (λ b, judge b ∉ bad.*1) battles).

(** Closed forms: the two running products after a judge's rows, and
    whether one of them is over [1 / alpha]. *)
Definition probs_of (stats : gmap (string * string) pair_stats) (row : Battle)
  : PrimFloat.float * PrimFloat.float :=
  tail_probs (default (mkStats 0 0 0) (stats !! pair_of row)) (vote_of row).

Definition crossed (stats : gmap (string * string) pair_stats)
    (alpha : PrimFloat.float) (rows : list Battle) : bool :=
  over (martingale ((probs_of stats <$> rows).*1)) alpha
  || over (martingale ((probs_of stats <$> rows).*2)) alpha.

End Outlier.

(** ** The style adjuster *)

Module Style.
Import XQ.

(** An entry of the design matrix: a real number, an infinity or NaN. *)
Inductive fl : Type :=
  | FFin (r : R)
  | FPInf
  | FNInf
  | FNaN.

(** Truth value of a float, as [ndarray.any] reads it. *)
Definition fl_nonzero (x : fl) : bool :=
  match x with
  | FFin r => if Req_dec_T r 0 then false else true
  | _ => true
  end.

(** [math.log(BASE)] *)
Definition math_log (BASE : R) : result R :=
  if Rlt_dec 0 BASE then Ok (ln BASE) else Raise ValueError.

(** [x[element] if type(x[element]) is int else sum(x[element].values())] *)
Definition meta_scalar (v : meta_value) : Z :=
  match v with
  | MInt n => n
  | MDict d => foldr Z.add 0%Z d.*2
  end.

Definition meta_get (metadata : list (string * meta_value)) (element : string)
  : result Z :=
  match list_find (λ kv, kv.1 = element) metadata with
  | Some (_, kv) => Ok (meta_scalar kv.2)
  | None => Raise (KeyError element)
  end.

(** [models[name]] on the Series from model name to column. *)
Definition series_idx (models : list (string * nat)) (name : string)
  : result nat :=
  match list_find (λ kv, kv.1 = name) models with
  | Some (_, kv) => Ok kv.2
  | None => Raise (KeyError name)
  end.

(** The strength columns of one row: zeros, then [+log(BASE)] at model_a's
    column, then [-log(BASE)] at model_b's column. *)
Definition strength_row (p : nat) (L : R) (ia ib : nat) : list fl :=
  <[ib := FFin (- L)]> (<[ia := FFin L]> (replicate p (FFin 0))).

(** [np.flatnonzero] *)
Definition flatnonzero (l : list Z) : list nat :=
  (imap (λ i x, (i, x)) l) ≫=
    λ ix, if bool_decide (ix.2 = 0%Z) then [] else [ix.1].

(** [(d - mean) / std] where [std] is the square root of the variance
    [var].  The covariates are rational, so the variance is; the root is
    taken here.  A zero standard deviation is a positive zero. *)
Definition standardize (num var : xq) : fl :=
  match var with
  | NaN | NInf => FNaN
  | PInf =>
      match num with
      | Fin _ => FFin 0
      | _ => FNaN
      end
  | Fin v =>
      if Qeq_bool v 0 then
        match num with
        | Fin a => if Qeq_bool a 0 then FNaN
                   else if Qle_bool 0 a then FPInf else FNInf
        | PInf => FPInf
        | NInf => FNInf
        | NaN => FNaN
        end
      else if Qle_bool 0 v then
        match num with
        | Fin a => FFin (Q2R a / sqrt (Q2R v))
        | PInf => FPInf
        | NInf => FNInf
        | NaN => FNaN
        end
      else FNaN
  end.

(** The variance of a row: the mean of the squared deviations. *)
Definition xvar_row (row : list xq) : xq :=
  let mean := xmean_row row in
  xmean_row ((λ d, xmul (xsub d mean) (xsub d mean)) <$> row).

(** One covariate's column of [X], from its row of [style_diff]. *)
Definition standardize_row (row : list xq) : list fl :=
  (λ d, standardize (xsub d (xmean_row row)) (xvar_row row)) <$> row.

(** Row [i] of the transpose of [cols]. *)
Definition transpose_row (cols : list (list fl)) (i : nat) : list fl :=
  (λ col, default FNaN (col !! i)) <$> cols.

(** The labels: 1 for a win of model_a, and for a tie in the first copy
    of the battles only. *)
Definition label (half : nat) (i : nat) (b : Battle) : Q :=
  if bool_decide (winner b = "model_a") then 1
  else if is_tie (winner b) && bool_decide (i < half) then 1
  else 0.

(** The rows of [style_diff] after the ratio is applied where asked. *)
Definition apply_ratios (ratio_idx : list nat)
    (style_diff style_sum : list (list xq)) : list (list xq) :=
  imap (λ j row, if bool_decide (j ∈ ratio_idx)
                 then zip_with xdiv row (default [] (style_sum !! j))
                 else row) style_diff.

(** [style_vector] is an int64 array (the counts of the metadata are
    int64 values), so its sums and differences wrap around. *)
Definition int64_wrap (z : Z) : Z := ((z + 2 ^ 63) mod 2 ^ 64 - 2 ^ 63)%Z.

(** [style_diff] as it is standardized: one row per covariate. *)
Definition style_rows (style_vector : list (list Z)) (k : nat)
    (ratio_idx : list nat) (add_one : bool) : list (list xq) :=
  let style_diff :=
    zip_with (zip_with (λ a b, Fin (inject_Z (int64_wrap (a - b)))))
             (take k style_vector) (drop k style_vector) in
  let style_sum :=
    zip_with (zip_with (λ a b, Fin (inject_Z (int64_wrap (a + b)))))
             (take k style_vector) (drop k style_vector) in
  let style_sum :=
    if add_one then (λ row : list xq, xadd (Fin 1) <$> row) <$> style_sum
    else style_sum in
  apply_ratios ratio_idx style_diff style_sum.

Definition construct_style_matrices (df : list Battle) (BASE : R)
    (apply_ratio : list Z) (style_elements : list string) (add_one : bool)
  : result (list (list fl) * list Q * list (string * nat)) :=
  let names := Encoder.pd_unique ((model_a <$> df) ++ (model_b <$> df)) in
  let models := zip names (seq 0 (length names)) in
  (* duplicate battles *)
  let df2 := df ++ df in
  let p := length models in
  let n := length df2 in
  if negb (Nat.even (length style_elements)) then Raise AssertionError
  else
    let k := (length style_elements / 2)%nat in
    L ← math_log BASE;
    ia ← mapM (λ b, series_idx models (model_a b)) df2;
    ib ← mapM (λ b, series_idx models (model_b b)) df2;
    let strength := zip_with (strength_row p L) ia ib in
    style_vector ←
      mapM (λ element, mapM (λ b, meta_get (conv_metadata b) element) df2)
           style_elements;
    let ratio_idx := flatnonzero apply_ratio in
    if negb (forallb (λ j, j <? k) ratio_idx) then Raise IndexError
    else if bool_decide (k = 0%nat) then Raise ValueError
    else
      let style_diff := style_rows style_vector k ratio_idx add_one in
      let style_cols := standardize_row <$> style_diff in
      let X := imap (λ i s, s ++ transpose_row style_cols i) strength in
      let Y := imap (label (n / 2)) df2 in
      Ok (X, Y, models).

(** [sklearn.linear_model.LogisticRegression(fit_intercept=False).fit]
    is outside the repository: [logistic_fit X Y] stands for [lr.coef_[0]],
    one coefficient per column of [X], or for the exception it raises. *)
Section fit.
Variable logistic_fit : list (list fl) → list Q → result (list R).

(** [fit_mle_elo(X, Y, models)] with [indices=None]; the Series is given
    as its (label, value) pairs before [sort_values] reorders them. *)
Definition fit_mle_elo (X : list (list fl)) (Y : list Q)
    (models : list (string * nat)) (SCALE INIT_RATING : R)
  : result (list (string * R) * list R) :=
  let p := length models in
  coef ← logistic_fit X Y;
  let elo_scores := (λ c, SCALE * c + INIT_RATING)%R <$> coef in
  elo_scores ←
    match list_find (λ kv, kv.1 = BT.default_baseline) models with
    | Some (_, kv) =>
        anchor ← BT.rating_at elo_scores kv.2;
        Ok ((λ s, s + (1114 - anchor))%R <$> elo_scores)
    | None => Ok elo_scores
    end;
  if bool_decide (length (take p elo_scores) = p)
  then Ok (zip models.*1 (take p elo_scores), drop p coef)
  else Raise ValueError.

Definition row_at {A} (rows : list A) (i : nat) : result A :=
  match rows !! i with
  | Some r => Ok r
  | None => Raise IndexError
  end.

(** [states[c]] for a column [c] of [_X]: no row has a nonzero entry
    there. *)
Definition absent (X1 : list (list fl)) (c : nat) : bool :=
  negb (existsb (λ row, fl_nonzero (default (FFin 0) (row !! c))) X1).

(** The models kept by the mask [~states], when the mask has an entry for
    every model. *)
Definition present_models (X1 : list (list fl)) (models : list (string * nat))
  : list (string * nat) :=
  (zip models (absent X1 <$> seq 0 (length models))) ≫=
    λ ms, if (ms.2 : bool) then [] else [ms.1].

(** [models[~states]] with [states = ~_X[:, :len(models)].any(axis=0)]:
    the slice stops at the last column of [_X], and a boolean mask shorter
    than the Series raises [IndexError].  [ncols] is [_X.shape[1]]. *)
Definition mask_models (ncols : nat) (X1 : list (list fl))
    (models : list (string * nat)) : result (list (string * nat)) :=
  if bool_decide (length models ≤ ncols) then Ok (present_models X1 models)
  else Raise IndexError.

(** The rows drawn for one round: non-tie battles give their first row
    twice, tie battles give both of their rows. *)
Definition resample_rows (battles : list Battle) (k : nat) (indices : list nat)
  : list nat :=
  let index2tie := (λ b, is_tie (winner b)) <$> battles in
  let tie_at := λ i, default false (index2tie !! i) in
  let nontie_indices := filter (λ i, tie_at i = false) indices in
  let tie_indices :=
    filter (λ i, tie_at i = true) indices
    ++ ((λ i, i + k) <$> filter (λ i, tie_at i = true) indices) in
  nontie_indices ++ nontie_indices ++ tie_indices.

(** One round of [get_bootstrap_result_style_control], for the
    [indices] drawn by [np.random.choice] from [range(k)], [k >= 1]; [k]
    is half the number of rows of [X] and [ncols] the number of its
    columns, [X.shape[1]], which every row has. *)
Definition style_trial (X : list (list fl)) (ncols : nat) (Y : list Q)
    (battles : list Battle) (models : list (string * nat)) (k : nat)
    (indices : list nat) (SCALE INIT_RATING : R)
  : result (list (string * R) * list R) :=
  if negb (bool_decide (length battles = k)) then Raise IndexError
  else
    X1 ← mapM (row_at X) (resample_rows battles k indices);
    Y1 ← mapM (row_at Y) (resample_rows battles k indices);
    if negb (bool_decide (length X1 = length X)) then Raise AssertionError
    else
      present ← mask_models ncols X1 models;
      fit_mle_elo X1 Y1 present SCALE INIT_RATING.

Definition get_bootstrap_result_style_control (X : list (list fl))
    (ncols : nat) (Y : list Q) (battles : list Battle)
    (models : list (string * nat)) (draws : list (list nat))
    (SCALE INIT_RATING : R)
  : result (list (list (string * R) * list R)) :=
  if negb (Nat.even (length X) && bool_decide (length X = length Y))
  then Raise AssertionError
  else
    mapM (λ indices, style_trial X ncols Y battles models (length X / 2)
                       indices SCALE INIT_RATING) draws.
End fit.

End Style.

(** ** The daily vote limit *)

Module Votes.

Section limit.
(** A row of the battles frame.  [date] stands for the "date" column that
    [limit_user_votes] adds, the day of [tstamp] in the local time zone as
    a string; [judge] is the "judge" column. *)
Context {A : Type}.
Variable date : A → string.
Variable judge : A → string.

Definition count_of (k : string) (l : list string) : nat :=
  length (filter (λ j, j = k) l).

(** [df.groupby("judge").head(n)] for [n >= 0]: the rows whose position
    within their judge's group is below [n], in the order of the frame.
    [seen] holds the judges of the rows before. *)
Fixpoint head_loop (n : nat) (seen : list string) (l : list A) : list A :=
  match l with
  | [] => []
  | x :: rest =>
      (if count_of (judge x) seen <? n then [x] else [])
      ++ head_loop n (judge x :: seen) rest
  end.

Definition groupby_head (n : nat) (l : list A) : list A := head_loop n [] l.

(** The loop over [battles["date"].unique()], each day's rows appended to
    [battles_new]. *)
Definition limit_user_votes (battles : list A) (daily_vote_per_user : nat)
  : list A :=
  Encoder.pd_unique (date <$> battles) ≫=
    λ d, groupby_head daily_vote_per_user (filter (λ b, date b = d) battles).
End limit.

End Votes.
(** ** Sample inputs *)

Definition elo_sample : list Battle :=
  [ mkBattle "gpt" "llama" "model_a" "judge1" [];
    mkBattle "llama" "vicuna" "tie (bothbad)" "judge2" [];
    mkBattle "vicuna" "gpt" "model_b" "judge1" [] ].


(** One battle whose outcome tag is not among the four known ones. *)
Definition bogus_sample : list Battle :=
  [ mkBattle "gpt" "llama" "model_a" "judge1" [];
    mkBattle "gpt" "llama" "bogus" "judge2" [] ].

(** A rating vector whose anchor already sits at the target 1114. *)
Definition anchored_models : list string := [BT.default_baseline; "llama"].
Definition anchored_ratings : list R := [1114%R; 1000%R].

(** Three competitors: the first interval lies above the other two, which
    overlap. *)
Definition rank_order : list string := ["gpt"; "llama"; "vicuna"].
Definition rank_q025 : gmap string Q :=
  <["gpt" := 1200%Q]> (<["llama" := 1000%Q]> (<["vicuna" := 990%Q]> ∅)).
Definition rank_q975 : gmap string Q :=
  <["gpt" := 1250%Q]> (<["llama" := 1040%Q]> (<["vicuna" := 1030%Q]> ∅)).

(** Forty votes of one judge for "gpt" over "llama", and a single vote the
    other way by a judge who has cast no other vote. *)
Definition troll_battles : list Battle :=
  replicate 40 (mkBattle "gpt" "llama" "model_a" "fan" [])
  ++ [mkBattle "gpt" "llama" "model_b" "troll" []].

(** The default [alpha = 0.05]: the float64 nearest to 1/20. *)
Definition alpha_default : PrimFloat.float :=
  PrimFloat.div PrimFloat.one (Outlier.float_of_nat 20).

(** Forty votes of one judge for "gpt" over "llama", and five votes the
    other way by another judge. *)
Definition troll5_battles : list Battle :=
  replicate 40 (mkBattle "gpt" "llama" "model_a" "fan" [])
  ++ replicate 5 (mkBattle "gpt" "llama" "model_b" "troll" []).

(** 86 battles on two pairs.  The judge "edge" votes once on each pair,
    for the second model: on the first pair 23 of 40 votes are of that
    kind, on the second pair 1 of 46. *)
Definition edge_battles : list Battle :=
  replicate 17 (mkBattle "gpt" "llama" "model_a" "fan" [])
  ++ replicate 22 (mkBattle "gpt" "llama" "model_b" "foe" [])
  ++ replicate 45 (mkBattle "gpt" "vicuna" "model_a" "fan" [])
  ++ [mkBattle "gpt" "llama" "model_b" "edge" [];
      mkBattle "gpt" "vicuna" "model_b" "edge" []].

(** Two battles with style metadata: the lengths differ, the header
    counts are the same on both sides in both battles. *)
Definition style_elements2 : list string :=
  ["len_a"; "header_a"; "len_b"; "header_b"].

Definition style_sample : list Battle :=
  [ mkBattle "gpt" "llama" "tie" "judge1"
      [("len_a", MInt 30); ("header_a", MDict [("h1", 1%Z); ("h2", 2%Z)]);
       ("len_b", MInt 10); ("header_b", MInt 3)];
    mkBattle "llama" "vicuna" "model_a" "judge2"
      [("len_a", MInt 5); ("header_a", MInt 0);
       ("len_b", MInt 15); ("header_b", MInt 0)] ].

(** A fit that returns three coefficients, two models with the baseline
    among them, and a resample in which the first of three models does not
    occur. *)
Definition fit_sample (X : list (list Style.fl)) (Y : list Q)
  : result (list R) := Ok [1%R; 2%R; 3%R].

Definition names_sample : list string :=
  ["vicuna"; "mixtral-8x7b-instruct-v0.1"].

Definition X1_sample : list (list Style.fl) :=
  [[Style.FFin 0; Style.FFin 1; Style.FFin (-1)]].

Definition X_sample : list (list Style.fl) :=
  [[Style.FFin 1; Style.FFin (-1); Style.FFin 0];
   [Style.FFin 0; Style.FFin 1; Style.FFin (-1)];
   [Style.FFin 1; Style.FFin (-1); Style.FFin 0];
   [Style.FFin 0; Style.FFin 1; Style.FFin (-1)]].

Definition models_sample : list (string * nat) :=
  [("gpt", 0%nat); ("llama", 1%nat); ("vicuna", 2%nat)].

Definition Y_sample : list Q := [1%Q; 1%Q; 0%Q; 1%Q].

(** Three votes of one judge on one day and one vote of another judge on
    the next: (day, judge, vote number). *)
Definition votes_sample : list (string * string * nat) :=
  [("2024-05-01", "ann", 1%nat); ("2024-05-01", "ann", 2%nat);
   ("2024-05-02", "bob", 3%nat); ("2024-05-01", "ann", 4%nat)].
(** * Theorems *)

(** ** The online Elo update conserves total rating *)

Section elo_facts.
Local Open Scope R_scope.

Context (K SCALE BASE INIT_RATING : R).

Abbreviation dd_get := (Elo.dd_get INIT_RATING).
Abbreviation dd_add := (Elo.dd_add INIT_RATING).
Abbreviation expected := (Elo.expected SCALE BASE).
Abbreviation elo_step := (Elo.elo_step K SCALE BASE INIT_RATING).
Abbreviation elo_loop := (Elo.elo_loop K SCALE BASE INIT_RATING).
Abbreviation compute_elo := (Elo.compute_elo K SCALE BASE INIT_RATING).
Abbreviation rating_sum := Elo.rating_sum.
Abbreviation excess := (Elo.rating_sum (λ v, v - INIT_RATING)).

Lemma rating_sum_empty f : rating_sum f ∅ = 0.
Proof. unfold Elo.rating_sum. by rewrite map_fold_empty. Qed.

Lemma rating_sum_insert_fresh f (m : gmap string R) k v :
  m !! k = None → rating_sum f (<[k := v]> m) = f v + rating_sum f m.
Proof.
  intros Hk. unfold Elo.rating_sum.
  rewrite map_fold_insert_L; [done | | done].
  intros. lra.
Qed.

Lemma rating_sum_delete f (m : gmap string R) k v :
  m !! k = Some v → rating_sum f m = f v + rating_sum f (delete k m).
Proof.
  intros Hk. unfold Elo.rating_sum.
  rewrite (map_fold_delete_L _ _ k v m); [done | | done].
  intros. lra.
Qed.

Lemma rating_sum_insert_present f (m : gmap string R) k old v :
  m !! k = Some old →
  rating_sum f (<[k := v]> m) = rating_sum f m - f old + f v.
Proof.
  intros Hk. rewrite (rating_sum_delete f m k old Hk).
  rewrite <- (insert_delete_eq m k v).
  rewrite rating_sum_insert_fresh by apply lookup_delete_eq. lra.
Qed.

Lemma dd_get_spec (m : gmap string R) k :
  ∃ v, dd_get m k = (v, <[k := v]> m)
       ∧ (dd_get m k).2 !! k = Some v
       ∧ excess (dd_get m k).2 = excess m
       ∧ dom (dd_get m k).2 = {[k]} ∪ dom m.
Proof.
  unfold Elo.dd_get. destruct (m !! k) as [v|] eqn:Hk.
  - exists v. simpl. rewrite insert_id by done. repeat split; try done.
    apply elem_of_dom_2 in Hk. set_solver.
  - exists INIT_RATING. simpl. rewrite lookup_insert_eq.
    rewrite rating_sum_insert_fresh by done.
    repeat split; try done; [lra | by rewrite dom_insert_L].
Qed.

Lemma dd_add_spec (m : gmap string R) k d :
  excess (dd_add m k d) = excess m + d
  ∧ dom (dd_add m k d) = {[k]} ∪ dom m.
Proof.
  unfold Elo.dd_add.
  destruct (dd_get_spec m k) as (v & Hget & Hlk & Hex & Hdom).
  destruct (dd_get m k) as [v' m'] eqn:E. simpl in *.
  injection Hget as -> ->. split.
  - rewrite (rating_sum_insert_present _ _ k v) by done. lra.
  - rewrite dom_insert_L. set_solver.
Qed.

(** [ea + eb = 1]: the two expected scores are complementary. *)
Lemma expected_complementary ra rb : expected ra rb + expected rb ra = 1.
Proof.
  unfold Elo.expected, Elo.pow_base.
  replace ((ra - rb) / SCALE) with (- ((rb - ra) / SCALE))
    by (unfold Rdiv; ring).
  rewrite Rpower_Ropp.
  set (t := Rpower BASE ((rb - ra) / SCALE)).
  assert (Ht : 0 < t) by apply exp_pos.
  field. split; lra.
Qed.

Lemma deltas_cancel ra rb sa :
  K * (sa - expected ra rb) + K * (1 - sa - expected rb ra) = 0.
Proof.
  pose proof (expected_complementary ra rb) as H.
  replace (K * (sa - expected ra rb) + K * (1 - sa - expected rb ra))
    with (K * (1 - (expected ra rb + expected rb ra))) by ring.
  rewrite H. ring.
Qed.

Lemma score_a_recognized w :
  recognized w = true → ∃ sa, Elo.score_a w = Ok sa.
Proof.
  unfold recognized, Elo.score_a. intros H.
  repeat case_bool_decide; eauto.
  simpl in H. rewrite H. eauto.
Qed.

Lemma elo_step_spec (m : gmap string R) b :
  recognized (winner b) = true →
  ∃ m', elo_step m b = Ok m'
        ∧ excess m' = excess m
        ∧ dom m' = {[model_a b; model_b b]} ∪ dom m.
Proof.
  intros Hw. unfold Elo.elo_step.
  destruct (dd_get_spec m (model_a b)) as (ra & Ea & _ & Hex1 & Hd1).
  destruct (dd_get m (model_a b)) as [ra' m1]. simpl in *.
  injection Ea as -> Em1.
  destruct (dd_get_spec m1 (model_b b)) as (rb & Eb & _ & Hex2 & Hd2).
  destruct (dd_get m1 (model_b b)) as [rb' m2]. simpl in *.
  injection Eb as -> Em2.
  destruct (score_a_recognized _ Hw) as [sa ->]. simpl.
  eexists. split; [done|].
  destruct (dd_add_spec m2 (model_a b) (K * (sa - expected ra rb)))
    as [Hex3 Hd3].
  destruct (dd_add_spec (dd_add m2 (model_a b) (K * (sa - expected ra rb)))
              (model_b b) (K * (1 - sa - expected rb ra))) as [Hex4 Hd4].
  split.
  - rewrite Hex4, Hex3, Hex2, Hex1.
    pose proof (deltas_cancel ra rb sa). lra.
  - rewrite Hd4, Hd3, Hd2, Hd1. set_solver.
Qed.

Lemma elo_loop_spec battles : ∀ m : gmap string R,
  Forall (λ b, recognized (winner b) = true) battles →
  ∃ m', elo_loop m battles = Ok m'
        ∧ excess m' = excess m
        ∧ dom m' = competitors battles ∪ dom m.
Proof.
  induction battles as [|b rest IH]; intros m Hrec.
  - exists m. unfold competitors. simpl. split; [done|]. split; [done|set_solver].
  - inversion Hrec as [|? ? Hb Hrest]; subst.
    destruct (elo_step_spec m b Hb) as (m1 & E1 & Hex1 & Hd1).
    destruct (IH m1 Hrest) as (m' & E' & Hex' & Hd').
    exists m'. simpl. rewrite E1. simpl. split; [done|].
    split; [congruence|].
    rewrite Hd', Hd1. unfold competitors. simpl. set_solver.
Qed.

Lemma elo_loop_app pre post : ∀ m : gmap string R,
  elo_loop m (pre ++ post) = m' ← elo_loop m pre; elo_loop m' post.
Proof.
  induction pre as [|b pre IH]; intros m; simpl; [done|].
  destruct (elo_step m b) as [m1|e]; simpl; [apply IH | done].
Qed.

Lemma rating_sum_excess (m : gmap string R) :
  rating_sum id m = excess m + INR (size m) * INIT_RATING.
Proof.
  induction m as [|k v m Hk IH] using map_ind.
  - rewrite !rating_sum_empty, map_size_empty. simpl. lra.
  - rewrite !rating_sum_insert_fresh by done.
    rewrite map_size_insert_None by done. rewrite S_INR, IH.
    unfold id. lra.
Qed.

(** C10: with recognized outcome tags only, the two deltas of a battle
    cancel, so after every prefix of the battle sequence the ratings'
    excess over [INIT_RATING] sums to zero, and the returned mapping sums
    to the number of distinct competitors times [INIT_RATING]. *)
Theorem compute_elo_conserves_total (battles : list Battle) :
  0 < BASE → SCALE ≠ 0 →
  Forall (λ b, recognized (winner b) = true) battles →
  (∀ ra rb sa,
      K * (sa - expected ra rb) + K * (1 - sa - expected rb ra) = 0)
  ∧ (∀ pre post, battles = pre ++ post →
      ∃ rating, elo_loop ∅ pre = Ok rating
                ∧ compute_elo battles = elo_loop rating post
                ∧ excess rating = 0)
  ∧ (∃ rating, compute_elo battles = Ok rating
               ∧ dom rating = competitors battles
               ∧ excess rating = 0
               ∧ rating_sum id rating
                 = INR (size (competitors battles)) * INIT_RATING).
Proof.
  intros _ _ Hrec. split; [apply deltas_cancel|]. split.
  - intros pre post ->.
    apply Forall_app in Hrec as [Hpre _].
    destruct (elo_loop_spec pre ∅ Hpre) as (m & E & Hex & _).
    exists m. split; [done|]. split.
    + unfold Elo.compute_elo. rewrite elo_loop_app, E. done.
    + rewrite Hex. apply rating_sum_empty.
  - destruct (elo_loop_spec battles ∅ Hrec) as (m & E & Hex & Hd).
    exists m. split; [done|].
    assert (Hdom : dom m = competitors battles) by (rewrite Hd; set_solver).
    assert (Hz : excess m = 0) by (rewrite Hex; apply rating_sum_empty).
    split; [done|]. split; [done|].
    rewrite rating_sum_excess, Hz, <- Hdom, size_dom. lra.
Qed.

End elo_facts.

Lemma compute_elo_conserves_total_witness :
  (0 < 10)%R ∧ (400 ≠ 0)%R
  ∧ Forall (λ b, recognized (winner b) = true) elo_sample
  ∧ ∃ rating, Elo.compute_elo 4 400 10 1000 elo_sample = Ok rating
              ∧ dom rating = competitors elo_sample
              ∧ Elo.rating_sum (λ v, v - 1000)%R rating = 0%R
              ∧ Elo.rating_sum id rating
                = (INR (size (competitors elo_sample)) * 1000)%R.
Proof.
  assert (H1 : (0 < 10)%R) by lra.
  assert (H2 : (400 ≠ 0)%R) by lra.
  assert (H3 : Forall (λ b, recognized (winner b) = true) elo_sample)
    by (repeat constructor).
  split; [exact H1|]. split; [exact H2|]. split; [exact H3|].
  exact (proj2 (proj2 (compute_elo_conserves_total 4 400 10 1000 elo_sample H1 H2 H3))).
Defined.

(** ** The matchup encoder *)

Section encoder_facts.
Import Encoder.

Lemma elem_of_unique_from x seen l :
  x ∈ unique_from seen l ↔ x ∈ l ∧ x ∉ seen.
Proof.
  revert seen. induction l as [|y l IH]; intros seen; simpl.
  - set_solver.
  - case_bool_decide as Hy.
    + rewrite IH. set_solver.
    + rewrite elem_of_cons, IH. split.
      * intros [->|[Hx Hn]]; set_solver.
      * intros [Hx Hn]. destruct (decide (x = y)) as [->|Hne]; set_solver.
Qed.

Lemma elem_of_pd_unique x l : x ∈ pd_unique l ↔ x ∈ l.
Proof. unfold pd_unique. rewrite elem_of_unique_from. set_solver. Qed.

Lemma model_to_idx_lookup (ms : list string) x :
  x ∈ ms → ∃ i, model_to_idx ms !! x = Some i.
Proof.
  intros Hx. unfold model_to_idx.
  destruct (list_to_map (zip ms (seq 0 (length ms))) !! x) as [i|] eqn:E;
    [by eexists|].
  apply not_elem_of_list_to_map_2 in E.
  rewrite fst_zip in E by (rewrite length_seq; lia). done.
Qed.

(** Every name of the frame is a key of [model_to_idx], so the encoder
    never raises: it has no check on the outcome tag. *)
Lemma schedule_rows_total idx (df : list Battle) :
  (∀ b, b ∈ df → is_Some (idx !! model_a b) ∧ is_Some (idx !! model_b b)) →
  ∃ s, schedule_rows idx df = Ok s
       ∧ (λ r : row, r.2) <$> s = (λ b, outcome_id (winner b)) <$> df.
Proof.
  induction df as [|b df IH]; intros Hin; simpl.
  - by exists [].
  - destruct (Hin b) as [[a Ha] [c Hc]]; [set_solver|].
    destruct IH as (s & Es & Hs); [intros; apply Hin; set_solver|].
    unfold schedule_row, dict_get. rewrite Ha, Hc. simpl. rewrite Es. simpl.
    eexists. split; [done|]. rewrite !fmap_cons. simpl. by f_equal.
Qed.

Lemma schedule_of_total (df : list Battle) :
  ∃ s, schedule_of df = Ok s
       ∧ (λ r : row, r.2) <$> s = (λ b, outcome_id (winner b)) <$> df.
Proof.
  apply schedule_rows_total. intros b Hb.
  split;
    match goal with
    | |- is_Some (_ !! ?x) =>
        destruct (model_to_idx_lookup (pd_unique (ravel_models df)) x)
          as [i Hi]; [|by rewrite Hi]
    end;
    apply elem_of_pd_unique; unfold ravel_models;
    apply list_elem_of_bind; exists b; set_solver.
Qed.

Lemma preprocess_total (df : list Battle) :
  ∃ a, preprocess_battles_to_arrays df = Ok a.
Proof.
  unfold preprocess_battles_to_arrays.
  destruct (schedule_of_total df) as (s & -> & _). simpl. by eexists.
Qed.

(** The rows of the table are the rows of the schedule. *)
Lemma elem_of_count_insert r r0 (t : list (row * nat)) :
  r ∈ (count_insert r0 t).*1 ↔ r = r0 ∨ r ∈ t.*1.
Proof.
  induction t as [|[r' c] t IH]; simpl.
  - set_solver.
  - case_bool_decide as E; [subst; set_solver|].
    destruct (row_ltb r0 r'); simpl; [set_solver|].
    rewrite !elem_of_cons, IH. tauto.
Qed.

Lemma elem_of_np_unique_counts r (s : list row) :
  r ∈ (np_unique_counts s).*1 ↔ r ∈ s.
Proof.
  induction s as [|r0 s IH]; simpl.
  - set_solver.
  - rewrite elem_of_count_insert, IH. set_solver.
Qed.

End encoder_facts.

(** ** Deduplication does not change the Bradley-Terry objective *)

Section bt_facts.
Import Encoder BT BTSpec.
Local Open Scope R_scope.

Lemma Rsum_cons x (l : list R) : Rsum (x :: l) = x + Rsum l.
Proof. done. Qed.

Lemma Rsum_count_insert (F : row → R) r (t : list (row * nat)) :
  Rsum ((λ rc, F rc.1 * INR rc.2) <$> count_insert r t)
  = F r + Rsum ((λ rc, F rc.1 * INR rc.2) <$> t).
Proof.
  induction t as [|[r' c] t IH]; cbn [count_insert].
  - rewrite fmap_cons, Rsum_cons. simpl. lra.
  - case_bool_decide as E.
    + subst. rewrite !fmap_cons, !Rsum_cons. cbn [fst snd].
      rewrite S_INR. lra.
    + destruct (row_ltb r r').
      * rewrite !fmap_cons, !Rsum_cons. simpl. lra.
      * rewrite !fmap_cons, !Rsum_cons, IH. lra.
Qed.

(** A sum over the distinct rows, each weighted by its count, is the sum
    over all rows. *)
Lemma Rsum_np_unique_counts (F : row → R) (s : list row) :
  Rsum ((λ rc, F rc.1 * INR rc.2) <$> np_unique_counts s) = Rsum (F <$> s).
Proof.
  induction s as [|r s IH]; [done|].
  unfold np_unique_counts in *. cbn [foldr].
  by rewrite Rsum_count_insert, IH, fmap_cons, Rsum_cons.
Qed.

Lemma Rsum_ext {A} (f g : A → R) (l : list A) :
  (∀ x, f x = g x) → Rsum (f <$> l) = Rsum (g <$> l).
Proof.
  intros H. induction l as [|x l IH]; [done|].
  by rewrite !fmap_cons, !Rsum_cons, H, IH.
Qed.

Lemma matchup_rating_spec ratings m :
  matchup_rating ratings m
  = if bool_decide (in_range ratings m) then Ok (ratings_of ratings m)
    else Raise IndexError.
Proof.
  unfold matchup_rating, rating_at, in_range, ratings_of.
  destruct (ratings !! m.1) as [ra|] eqn:Ea; simpl.
  - destruct (ratings !! m.2) as [rb|] eqn:Eb; simpl.
    + apply lookup_lt_Some in Ea, Eb. by rewrite bool_decide_eq_true_2.
    + apply lookup_ge_None in Eb. rewrite bool_decide_eq_false_2; [done|lia].
  - apply lookup_ge_None in Ea. rewrite bool_decide_eq_false_2; [done|lia].
Qed.

Lemma mapM_matchup_rating ratings ms :
  mapM (matchup_rating ratings) ms
  = if bool_decide (Forall (in_range ratings) ms)
    then Ok (ratings_of ratings <$> ms) else Raise IndexError.
Proof.
  induction ms as [|m ms IH]; cbn [mapM].
  - by rewrite bool_decide_eq_true_2 by constructor.
  - rewrite matchup_rating_spec, IH.
    destruct (decide (in_range ratings m)) as [Hm|Hm].
    + rewrite (bool_decide_eq_true_2 _ Hm). simpl.
      destruct (decide (Forall (in_range ratings) ms)) as [Hms|Hms].
      * rewrite (bool_decide_eq_true_2 _ Hms),
          (bool_decide_eq_true_2 (Forall _ (m :: ms))); [done|].
        by constructor.
      * rewrite (bool_decide_eq_false_2 _ Hms),
          (bool_decide_eq_false_2 (Forall _ (m :: ms))); [done|].
        by inversion 1.
    + rewrite (bool_decide_eq_false_2 _ Hm),
        (bool_decide_eq_false_2 (Forall _ (m :: ms))); [done|].
      by inversion 1.
Qed.

Lemma add_at_lookup (g : list R) i v k :
  add_at g i v !! k
  = (λ x, x + (if bool_decide (i = k) then v else 0)) <$> g !! k.
Proof.
  unfold add_at. case_bool_decide as E.
  - subst. by rewrite list_lookup_alter_eq.
  - rewrite list_lookup_alter_ne by done.
    destruct (g !! k); simpl; [f_equal; lra|done].
Qed.

(** [np.add.at] accumulates, at every position, the sum of what the rows
    contribute there. *)
Lemma add_at_rows_lookup (mgs : list (nat * nat * R)) : ∀ (g : list R) k,
  foldl (λ acc mg, add_at (add_at acc mg.1.1 (mg.2 * 1)) mg.1.2 (mg.2 * -1))
        g mgs !! k
  = (λ x, x + Rsum (contrib k <$> mgs)) <$> g !! k.
Proof.
  induction mgs as [|mg mgs IH]; intros g k; cbn [foldl].
  - destruct (g !! k); simpl; [f_equal; unfold Rsum; simpl; lra|done].
  - rewrite IH, !add_at_lookup, fmap_cons, Rsum_cons. unfold contrib at 2.
    destruct (g !! k); simpl; [|done].
    f_equal. lra.
Qed.

Lemma zip_with_columns {A B C D E} (f : B * C → D → E) (a : A → B)
    (b : A → C) (c : A → D) (l : list A) :
  zip_with f (zip (a <$> l) (b <$> l)) (c <$> l)
  = (λ x, f (a x, b x) (c x)) <$> l.
Proof. induction l as [|x l IH]; [done|]. rewrite !fmap_cons. simpl. by f_equal. Qed.

Lemma zip_columns {A B C} (a : A → B) (b : A → C) (l : list A) :
  zip (a <$> l) (b <$> l) = (λ x, (a x, b x)) <$> l.
Proof. induction l as [|x l IH]; [done|]. rewrite !fmap_cons. simpl. by f_equal. Qed.

Lemma broadcast_same n (l : list R) : length l = n → broadcast n l = Ok l.
Proof. intros H. unfold broadcast. by rewrite (bool_decide_eq_true_2 _ H). Qed.

(** [bt_loss_and_grad] on three columns of one table. *)
Lemma bt_loss_and_grad_columns {A} (l : list A) (m : A → nat * nat)
    (o w : A → R) ratings alpha :
  Forall (in_range ratings) (m <$> l) →
  ∃ G, bt_loss_and_grad ratings (m <$> l) (o <$> l) (w <$> l) alpha
       = Ok (- Rsum ((λ x, loss_term (prob alpha (ratings_of ratings (m x)))
                             (o x) (w x)) <$> l), G)
       ∧ length G = length ratings
       ∧ ∀ k, (k < length ratings)%nat →
           G !! k = Some (Rsum ((λ x, contrib k
               (m x, grad_term alpha (prob alpha (ratings_of ratings (m x)))
                       (o x) (w x))) <$> l)).
Proof.
  intros Hr. unfold bt_loss_and_grad.
  rewrite mapM_matchup_rating, (bool_decide_eq_true_2 _ Hr). cbn [mbind result_bind].
  rewrite !broadcast_same by (by rewrite !length_fmap).
  cbn [mbind result_bind]. eexists. split; [|split].
  - f_equal. f_equal. f_equal.
    by rewrite <- !list_fmap_compose, zip_with_columns.
  - unfold add_at_rows. clear.
    assert (Hlen : ∀ (mgs : list (nat * nat * R)) (g : list R),
      length (foldl (λ acc mg, add_at (add_at acc mg.1.1 (mg.2 * 1))
                                  mg.1.2 (mg.2 * -1)) g mgs) = length g).
    { induction mgs as [|mg mgs IH]; intros g; cbn [foldl]; [done|].
      rewrite IH. unfold add_at. by rewrite !length_alter. }
    by rewrite Hlen, length_fmap.
  - intros k Hk. unfold add_at_rows. rewrite add_at_rows_lookup.
    rewrite list_lookup_fmap.
    destruct (lookup_lt_is_Some_2 ratings k Hk) as [x ->]. simpl.
    f_equal. rewrite Rplus_0_l.
    rewrite <- !list_fmap_compose, zip_with_columns, zip_columns.
    by rewrite <- list_fmap_compose.
Qed.

Lemma bt_loss_and_grad_out_of_range ratings ms os ws alpha :
  ¬ Forall (in_range ratings) ms →
  bt_loss_and_grad ratings ms os ws alpha = Raise IndexError.
Proof.
  intros Hr. unfold bt_loss_and_grad.
  by rewrite mapM_matchup_rating, (bool_decide_eq_false_2 _ Hr).
Qed.

Lemma loss_term_weight p o w : loss_term p o w = loss_term p o 1 * w.
Proof. unfold loss_term. ring. Qed.

Lemma contrib_weight k m alpha p o w :
  contrib k (m, grad_term alpha p o w)
  = contrib k (m, grad_term alpha p o 1) * w.
Proof.
  unfold contrib, grad_term. cbn [fst snd].
  repeat case_bool_decide; ring.
Qed.

Lemma in_range_dedup ratings (s : list row) :
  Forall (in_range ratings)
    ((λ rc : row * nat, (rc.1.1.1, rc.1.1.2)) <$> np_unique_counts s)
  ↔ Forall (in_range ratings) ((λ r : row, (r.1.1, r.1.2)) <$> s).
Proof.
  rewrite !Forall_fmap, !Forall_forall. split.
  - intros H r Hr. apply elem_of_np_unique_counts in Hr.
    apply list_elem_of_fmap in Hr as ([r' c] & -> & Hrc).
    apply (H _ Hrc).
  - intros H [r c] Hrc. apply (H r).
    apply elem_of_np_unique_counts, list_elem_of_fmap. by exists (r, c).
Qed.

(** The objective on the merged rows with their counts is the objective
    on the rows taken one by one with weight 1. *)
Lemma bt_loss_and_grad_dedup (s : list row) ratings alpha :
  bt_loss_and_grad ratings
    ((λ rc : row * nat, (rc.1.1.1, rc.1.1.2)) <$> np_unique_counts s)
    ((λ rc : row * nat, INR rc.1.2 / 2) <$> np_unique_counts s)
    ((λ rc : row * nat, INR rc.2) <$> np_unique_counts s) alpha
  = bt_loss_and_grad ratings
      ((λ r : row, (r.1.1, r.1.2)) <$> s)
      ((λ r : row, INR r.2 / 2) <$> s)
      ((λ _ : row, 1) <$> s) alpha.
Proof.
  destruct (decide (Forall (in_range ratings)
                      ((λ r : row, (r.1.1, r.1.2)) <$> s))) as [Hr|Hr].
  - destruct (bt_loss_and_grad_columns s _ (λ r : row, INR r.2 / 2)
                (λ _, 1) ratings alpha Hr) as (G2 & -> & Hl2 & HG2).
    apply in_range_dedup in Hr.
    destruct (bt_loss_and_grad_columns (np_unique_counts s) _
                (λ rc : row * nat, INR rc.1.2 / 2) (λ rc, INR rc.2)
                ratings alpha Hr) as (G1 & -> & Hl1 & HG1).
    f_equal. f_equal.
    + f_equal.
      etrans; [apply Rsum_ext; intros rc; apply loss_term_weight|].
      apply (Rsum_np_unique_counts
        (λ r : row, loss_term (prob alpha (ratings_of ratings (r.1.1, r.1.2)))
                      (INR r.2 / 2) 1)).
    + apply list_eq. intros k.
      destruct (decide (k < length ratings)%nat) as [Hk|Hk].
      * rewrite HG1, HG2 by done. f_equal.
        etrans; [apply Rsum_ext; intros rc; apply contrib_weight|].
        apply (Rsum_np_unique_counts
          (λ r : row, contrib k ((r.1.1, r.1.2),
             grad_term alpha (prob alpha (ratings_of ratings (r.1.1, r.1.2)))
               (INR r.2 / 2) 1))).
      * rewrite !lookup_ge_None_2; [done|lia..].
  - rewrite (bt_loss_and_grad_out_of_range _ _ _ _ _ Hr).
    rewrite <- in_range_dedup in Hr.
    by rewrite (bt_loss_and_grad_out_of_range _ _ _ _ _ Hr).
Qed.

Lemma lbfgs_loop_ext {opt_state} (point : opt_state → list R)
    (next : opt_state → R * list R → opt_state + list R)
    (f g : list R → result (R * list R)) :
  (∀ x, f x = g x) →
  ∀ fuel s, lbfgs_loop point next fuel f s = lbfgs_loop point next fuel g s.
Proof.
  intros Hfg. induction fuel as [|fuel IH]; intros s; simpl; [done|].
  rewrite Hfg. destruct (g (point s)) as [lg|e]; simpl; [|done].
  destruct (next s lg); [apply IH|done].
Qed.

(** C6: for every battle list, rating vector and [alpha], the loss and
    gradient on the deduplicated arrays (matchups, outcomes, summed-count
    weights) equal the loss and gradient obtained when every battle is its
    own matchup with weight 1; so whatever the solver, the fit from the
    same start returns the same ratings. *)
Theorem dedup_is_fit_neutral (df : list Battle) :
  (∀ alpha ratings,
      objective (preprocess_battles_to_arrays df) alpha ratings
      = objective (individual_arrays df) alpha ratings)
  ∧ (∀ (opt_state : Type) (init : list R → R → opt_state)
       (point : opt_state → list R)
       (next : opt_state → R * list R → opt_state + list R)
       (max_eval : nat) (alpha tol : R),
      (a ← preprocess_battles_to_arrays df;
       fit_bt init point next max_eval (matchups a) (outcomes a) (weights a)
              (length (models a)) alpha tol)
      = (a ← individual_arrays df;
         fit_bt init point next max_eval (matchups a) (outcomes a)
                (weights a) (length (models a)) alpha tol)).
Proof.
  unfold objective, preprocess_battles_to_arrays, individual_arrays.
  destruct (schedule_of_total df) as (s & -> & _).
  cbn [mbind result_bind matchups outcomes weights models]. split.
  - intros. apply bt_loss_and_grad_dedup.
  - intros. unfold fit_bt, minimize. apply lbfgs_loop_ext.
    intros x. apply bt_loss_and_grad_dedup.
Qed.

End bt_facts.

(** ** Unrecognized outcome tags *)

Section unrecognized_outcome.
Import Encoder.
Local Open Scope R_scope.

Lemma score_a_unrecognized w :
  recognized w = false → Elo.score_a w = Raise (UnexpectedVote w).
Proof.
  unfold recognized, Elo.score_a. intros H.
  repeat case_bool_decide; simpl in H; try done. by rewrite H.
Qed.

(** The online updater stops at the first tag it does not know. *)
Lemma compute_elo_raises_on_unrecognized K SCALE BASE INIT_RATING
    (battles : list Battle) :
  Exists (λ b, recognized (winner b) = false) battles →
  ∃ w, Elo.compute_elo K SCALE BASE INIT_RATING battles
       = Raise (UnexpectedVote w)
       ∧ recognized w = false.
Proof.
  unfold Elo.compute_elo. generalize (∅ : gmap string R).
  induction battles as [|b rest IH]; intros m Hex; [by inversion Hex|].
  cbn [Elo.elo_loop].
  destruct (recognized (winner b)) eqn:Hb.
  - destruct (elo_step_spec K SCALE BASE INIT_RATING m b Hb) as (m' & -> & _).
    cbn [mbind result_bind]. apply IH.
    inversion Hex; subst; [congruence|done].
  - exists (winner b). split; [|done]. unfold Elo.elo_step.
    destruct (Elo.dd_get INIT_RATING m (model_a b)) as [ra m1].
    destruct (Elo.dd_get INIT_RATING m1 (model_b b)) as [rb m2].
    by rewrite (score_a_unrecognized _ Hb).
Qed.

(** The encoder gives every tag other than "model_a" and "model_b" the
    outcome id of a tie. *)
Lemma outcome_id_unrecognized w : recognized w = false → outcome_id w = 1%nat.
Proof.
  unfold recognized, outcome_id. intros H.
  repeat case_bool_decide; simpl in H; done.
Qed.

(** C2, at a battle list with the tag "bogus": the online updater raises,
    but the encoder returns arrays in which that battle is counted as a
    tie between the two models (outcome label 1/2, weight 1). *)
Theorem encoder_coerces_unrecognized_outcome :
  Exists (λ b, recognized (winner b) = false) bogus_sample
  ∧ Elo.compute_elo 4 400 10 1000 bogus_sample = Raise (UnexpectedVote "bogus")
  ∧ ∃ a, preprocess_battles_to_arrays bogus_sample = Ok a
         ∧ matchups a = [(0, 1); (0, 1)]%nat
         ∧ outcomes a = [INR 1 / 2; INR 2 / 2]
         ∧ weights a = [INR 1; INR 1]
         ∧ models a = ["gpt"; "llama"].
Proof.
  split; [|split].
  - apply Exists_cons_tl, Exists_cons_hd. done.
  - destruct (compute_elo_raises_on_unrecognized 4 400 10 1000 bogus_sample)
      as (w & E & Hw); [apply Exists_cons_tl, Exists_cons_hd; done|].
    rewrite E. f_equal. f_equal.
    unfold Elo.compute_elo, bogus_sample in E. cbn [Elo.elo_loop] in E.
    destruct (elo_step_spec 4 400 10 1000 ∅
                (mkBattle "gpt" "llama" "model_a" "judge1" []) eq_refl)
      as (m' & E1 & _).
    rewrite E1 in E. cbn [mbind result_bind] in E.
    unfold Elo.elo_step in E.
    destruct (Elo.dd_get 1000 m' _) as [ra m1].
    destruct (Elo.dd_get 1000 m1 _) as [rb m2].
    cbn [winner] in E.
    rewrite (score_a_unrecognized "bogus") in E by done.
    cbn [mbind result_bind] in E. congruence.
  - eexists. split; [vm_compute; reflexivity|]. done.
Qed.

End unrecognized_outcome.

(** ** The rescale transform *)

Section rescale_facts.
Import BT.
Local Open Scope R_scope.

Lemma scale_and_offset_anchored ratings models scale init_rating
    baseline_model baseline_rating idx :
  list_find (λ m, m = baseline_model) models = Some (idx, baseline_model) →
  ratings !! idx = Some baseline_rating →
  scale_and_offset ratings models scale init_rating baseline_model
                   baseline_rating
  = Ok ((λ r, baseline_rating + scale * (r - baseline_rating)) <$> ratings).
Proof.
  intros Hfind Hidx. unfold scale_and_offset, rating_at.
  rewrite Hfind, list_lookup_fmap, Hidx. cbn [fmap option_fmap option_map mbind result_bind].
  f_equal. rewrite <- list_fmap_compose.
  apply list_fmap_ext. intros _ r _. simpl. ring.
Qed.

(** C8, as the code has it: when the anchor already sits at the target,
    applying [scale_and_offset] again keeps the anchor at the target and
    sends every rating [r] to [target + scale * (r - target)]; the vector
    is unchanged when [scale = 1]. *)
Theorem scale_and_offset_again ratings models scale init_rating
    baseline_model baseline_rating idx :
  list_find (λ m, m = baseline_model) models = Some (idx, baseline_model) →
  ratings !! idx = Some baseline_rating →
  ∃ out,
    scale_and_offset ratings models scale init_rating baseline_model
                     baseline_rating = Ok out
    ∧ out = (λ r, baseline_rating + scale * (r - baseline_rating)) <$> ratings
    ∧ out !! idx = Some baseline_rating
    ∧ (scale = 1 → out = ratings).
Proof.
  intros Hfind Hidx. eexists.
  split; [by apply (scale_and_offset_anchored _ _ _ _ _ _ idx)|].
  split; [done|]. split.
  - rewrite list_lookup_fmap, Hidx. simpl. f_equal. ring.
  - intros ->. rewrite <- (list_fmap_id ratings) at 2.
    apply list_fmap_ext. intros _ r _. simpl. ring.
Qed.

End rescale_facts.

Lemma scale_and_offset_again_witness :
  list_find (λ m, m = BT.default_baseline) anchored_models
    = Some (0%nat, BT.default_baseline)
  ∧ anchored_ratings !! 0%nat = Some 1114%R
  ∧ ∃ out,
      BT.scale_and_offset anchored_ratings anchored_models 400 1000
        BT.default_baseline 1114 = Ok out
      ∧ out = (λ r, 1114 + 400 * (r - 1114))%R <$> anchored_ratings
      ∧ out !! 0%nat = Some 1114%R
      ∧ (400%R = 1%R → out = anchored_ratings).
Proof.
  assert (H1 : list_find (λ m, m = BT.default_baseline) anchored_models
               = Some (0%nat, BT.default_baseline)) by reflexivity.
  assert (H2 : anchored_ratings !! 0%nat = Some 1114%R) by reflexivity.
  split; [exact H1|]. split; [exact H2|].
  exact (scale_and_offset_again anchored_ratings anchored_models 400 1000
           BT.default_baseline 1114 0 H1 H2).
Defined.

(** C8 as stated fails: with the anchor at 1114 and another model at 1000,
    a second rescale leaves the anchor at 1114 but moves the other model to
    1114 + 400 * (1000 - 1114) = -44486. *)
Lemma scale_and_offset_not_idempotent :
  list_find (λ m, m = BT.default_baseline) anchored_models
    = Some (0%nat, BT.default_baseline)
  ∧ anchored_ratings !! 0%nat = Some 1114%R
  ∧ BT.scale_and_offset anchored_ratings anchored_models 400 1000
      BT.default_baseline 1114 = Ok [1114%R; (-44486)%R]
  ∧ BT.scale_and_offset anchored_ratings anchored_models 400 1000
      BT.default_baseline 1114 ≠ Ok anchored_ratings.
Proof.
  assert (E : BT.scale_and_offset anchored_ratings anchored_models 400 1000
                BT.default_baseline 1114 = Ok [1114%R; (-44486)%R]).
  { rewrite (scale_and_offset_anchored _ _ _ _ _ _ 0%nat) by reflexivity.
    unfold anchored_ratings. rewrite !fmap_cons, fmap_nil.
    f_equal. f_equal; [|f_equal]; lra. }
  split; [reflexivity|]. split; [reflexivity|]. split; [exact E|].
  rewrite E. unfold anchored_ratings. intros H.
  injection H as H. lra.
Qed.

(** ** The plain bootstrap reads the global [battles] *)

Section bootstrap_facts.
Import Encoder BT.

Context {opt_state : Type}.
Context (lbfgs_init : list R → R → opt_state).
Context (lbfgs_point : opt_state → list R).
Context (lbfgs_next : opt_state → R * list R → opt_state + list R).
Context (max_eval : nat).
Context (multinomial : nat → list R → nat → list (list nat)).

Abbreviation bootstrap :=
  (get_bootstrap_result_elo_mle_with_tie lbfgs_init lbfgs_point lbfgs_next
     max_eval multinomial).

(** C1, on the code: the ensemble does not depend on the data frame the
    function receives.  Two calls with different arguments [df1] and [df2]
    give the same result, which is computed from the module global
    [battles]; and when that global is unbound the call raises
    [NameError], whatever [df] is.  With [num_round = 0] and the global
    bound, there is no trial and no frame: the call raises [IndexError]
    when the baseline model is among the global's models, returns an
    empty frame when they are a single model, and raises [ValueError]
    otherwise. *)
Theorem bootstrap_ignores_its_argument :
  (∀ global_battles df1 df2 num_round BASE SCALE INIT_RATING,
      bootstrap global_battles df1 num_round BASE SCALE INIT_RATING
      = bootstrap global_battles df2 num_round BASE SCALE INIT_RATING)
  ∧ (∀ df num_round BASE SCALE INIT_RATING,
      bootstrap None df num_round BASE SCALE INIT_RATING
      = Raise (NameError "battles"))
  ∧ (∀ g df BASE SCALE INIT_RATING a,
      preprocess_battles_to_arrays g = Ok a →
      multinomial (length g)
        ((λ w, w / Rsum (weights a))%R <$> weights a) 0%nat = [] →
      bootstrap (Some g) df 0 BASE SCALE INIT_RATING
      = if bool_decide (default_baseline ∈ models a) then Raise IndexError
        else if bool_decide (length (models a) = 1%nat)
             then Ok (models a, [])
             else Raise ValueError).
Proof.
  split; [done|]. split; [done|].
  intros g df BASE SCALE INIT_RATING a Ha Hm.
  unfold get_bootstrap_result_elo_mle_with_tie.
  cbn [mbind result_bind]. rewrite Ha. cbn [mbind result_bind].
  rewrite Hm. cbn [mapM mbind result_bind].
  unfold scale_and_offset.
  destruct (list_find (λ m, m = default_baseline) (models a))
    as [[i m]|] eqn:E.
  - apply list_find_Some in E as (Hi & -> & _).
    rewrite (bool_decide_eq_true_2 (default_baseline ∈ models a))
      by (by eapply list_elem_of_lookup_2).
    done.
  - rewrite (bool_decide_eq_false_2 (default_baseline ∈ models a)); [done|].
    intros Hin. apply list_find_None in E.
    rewrite Forall_forall in E. by apply (E _ Hin).
Qed.

End bootstrap_facts.

(** ** Ranks are consistent with the quantiles *)

Section rank_facts.
Import Rank.

Context (q025 q975 : gmap string Q).

Abbreviation exceeds := (Rank.exceeds q025 q975).
Abbreviation rank_of := (Rank.rank_of q025 q975).

Abbreviation well_bracketed := (Rank.well_bracketed q025 q975).

Lemma well_bracketed_not_self m : well_bracketed m → exceeds m m = false.
Proof.
  intros (lo & hi & Hlo & Hhi & Hle). unfold Rank.exceeds.
  rewrite Hlo, Hhi. destruct (Qlt_le_dec hi lo) as [Hlt|]; [|done].
  exfalso. apply (Qlt_irrefl lo). by eapply Qle_lt_trans.
Qed.

Lemma rank_inner_spec i a : ∀ rest j (ranking : gmap string nat) r0,
  (∀ b, b ∈ rest → well_bracketed b) →
  well_bracketed a →
  (∀ k b, rest !! k = Some b → (j + k)%nat = i → b = a) →
  ranking !! a = Some r0 →
  rank_inner q025 q975 i a j rest ranking
  = Ok (<[a := (r0 + count_if (exceeds a) rest)%nat]> ranking).
Proof.
  induction rest as [|b rest IH]; intros j ranking r0 Hrest Ha Hpos Hr0.
  - simpl. rewrite Nat.add_0_r. by rewrite insert_id.
  - cbn [rank_inner count_if].
    assert (Hrest' : ∀ b', b' ∈ rest → well_bracketed b')
      by (intros; apply Hrest; set_solver).
    assert (Hpos' : ∀ k b', rest !! k = Some b' → (S j + k)%nat = i → b' = a).
    { intros k b' Hk Hi. apply (Hpos (S k) b'); [done|lia]. }
    case_bool_decide as Hij.
    + assert (b = a) as -> by (apply (Hpos 0%nat); [done|lia]).
      rewrite (well_bracketed_not_self a Ha). simpl.
      by apply IH.
    + destruct (Hrest b) as (lo & hib & Hlo & _ & _); [set_solver|].
      destruct Ha as (loa & hi & Hloa & Hhi & Hle).
      assert (Hex : exceeds a b = if Qlt_le_dec hi lo then true else false)
        by (unfold Rank.exceeds; by rewrite Hlo, Hhi).
      rewrite Hex. unfold series_get. rewrite Hlo, Hhi.
      cbn [mbind result_bind].
      destruct (Qlt_le_dec hi lo).
      * rewrite (IH (S j) _ (S r0)); try done.
        -- rewrite insert_alter_eq. f_equal. f_equal. lia.
        -- by exists loa, hi.
        -- by rewrite lookup_alter_eq, Hr0.
      * rewrite (IH (S j) _ r0); try done. by exists loa, hi.
Qed.

Lemma rank_outer_spec model_order : ∀ todo done (ranking : gmap string nat),
  model_order = done ++ todo →
  (∀ m, m ∈ model_order → well_bracketed m) →
  ∃ ranking',
    rank_outer q025 q975 model_order (length done) todo ranking = Ok ranking'
    ∧ (∀ m, m ∈ todo → ranking' !! m = Some (rank_of model_order m))
    ∧ (∀ m, m ∉ todo → ranking' !! m = ranking !! m).
Proof.
  induction todo as [|a todo IH]; intros done ranking Hsplit Hwb.
  - exists ranking. split; [done|]. split; [set_solver|done].
  - cbn [rank_outer].
    rewrite (rank_inner_spec _ a model_order 0 _ 1%nat).
    + cbn [mbind result_bind].
      destruct (IH (done ++ [a])
                  (<[a := (1 + count_if (exceeds a) model_order)%nat]>
                     (<[a := 1%nat]> ranking))) as (r' & E & Hin & Hout).
      { by rewrite <- app_assoc. }
      { done. }
      rewrite length_app in E. simpl in E.
      rewrite Nat.add_1_r in E. exists r'. split; [done|]. split.
      * intros m Hm. destruct (decide (m ∈ todo)) as [Ht|Ht]; [by apply Hin|].
        assert (m = a) as -> by set_solver.
        rewrite (Hout a Ht), lookup_insert_eq. done.
      * intros m Hm. apply not_elem_of_cons in Hm as [Hne Ht].
        rewrite (Hout m Ht), !lookup_insert_ne by done. done.
    + done.
    + apply Hwb. rewrite Hsplit. set_solver.
    + intros k b Hk Hi. simpl in Hi. subst k model_order.
      rewrite list_lookup_middle in Hk by done. congruence.
    + by rewrite lookup_insert_eq.
Qed.

(** If whoever exceeds [x] also exceeds [y], the count for [x] is bounded by
    the count for [y]; strictly so when [x] is in the list and exceeds [y]
    but not itself. *)
Lemma count_if_exceeds_mono x y (l : list string) :
  (∀ b, exceeds x b = true → exceeds y b = true) →
  (count_if (exceeds x) l ≤ count_if (exceeds y) l)%nat.
Proof.
  intros Himp. induction l as [|b l IH]; simpl; [done|].
  destruct (exceeds x b) eqn:Ex.
  - rewrite (Himp b Ex). lia.
  - destruct (exceeds y b); lia.
Qed.

Lemma count_if_exceeds_strict x y (l : list string) :
  (∀ b, exceeds x b = true → exceeds y b = true) →
  exceeds x x = false → exceeds y x = true → x ∈ l →
  (count_if (exceeds x) l < count_if (exceeds y) l)%nat.
Proof.
  intros Himp Hxx Hyx. induction l as [|b l IH]; intros Hin; [set_solver|].
  simpl. pose proof (count_if_exceeds_mono x y l Himp) as Hmono.
  destruct (decide (b = x)) as [->|Hne].
  - rewrite Hxx, Hyx. lia.
  - assert (Hl : x ∈ l) by set_solver. specialize (IH Hl).
    destruct (exceeds x b) eqn:Ex.
    + rewrite (Himp b Ex). lia.
    + destruct (exceeds y b); lia.
Qed.

(** C7: when every competitor has q025 <= q975, the ranking loop ends
    without error, gives each competitor rank 1 plus the number of
    competitors whose q025 strictly exceeds its q975, and ranks [x] strictly
    better than [y] whenever [x]'s q025 strictly exceeds [y]'s q975. *)
Theorem ranking_consistent_with_quantiles (model_order : list string) :
  (∀ m, m ∈ model_order → well_bracketed m) →
  ∃ ranking,
    compute_ranking q025 q975 model_order = Ok ranking
    ∧ (∀ m, m ∈ model_order → ranking !! m = Some (rank_of model_order m))
    ∧ (∀ x y lo_x hi_y,
         x ∈ model_order → y ∈ model_order →
         q025 !! x = Some lo_x → q975 !! y = Some hi_y → (hi_y < lo_x)%Q →
         ∃ rx ry, ranking !! x = Some rx ∧ ranking !! y = Some ry
                  ∧ (rx < ry)%nat).
Proof.
  intros Hwb.
  destruct (rank_outer_spec model_order model_order [] ∅ eq_refl Hwb)
    as (ranking & E & Hin & _).
  exists ranking. split; [done|]. split; [done|].
  intros x y lo_x hi_y Hx Hy Hlo Hhi Hlt.
  exists (rank_of model_order x), (rank_of model_order y).
  split; [by apply Hin|]. split; [by apply Hin|].
  unfold Rank.rank_of.
  destruct (Hwb x Hx) as (lo_x' & hi_x & Hlo' & Hhix & Hlex).
  destruct (Hwb y Hy) as (lo_y & hi_y' & Hloy & Hhiy & Hley).
  assert (lo_x' = lo_x) as -> by congruence.
  assert (hi_y' = hi_y) as -> by congruence.
  apply -> Nat.succ_lt_mono.
  apply count_if_exceeds_strict; [| |  |done].
  - intros b. unfold Rank.exceeds. rewrite Hhix, Hhiy.
    destruct (q025 !! b) as [lo_b|]; [|done].
    destruct (Qlt_le_dec hi_x lo_b) as [H1|]; [|done]. intros _.
    destruct (Qlt_le_dec hi_y lo_b) as [|H2]; [done|].
    exfalso. apply (Qlt_irrefl lo_b).
    eapply Qle_lt_trans; [exact H2|].
    eapply Qlt_trans; [exact Hlt|]. eapply Qle_lt_trans; eassumption.
  - apply well_bracketed_not_self. by apply Hwb.
  - unfold Rank.exceeds. rewrite Hhiy, Hlo.
    destruct (Qlt_le_dec hi_y lo_x) as [|H2]; [done|].
    exfalso. apply (Qlt_irrefl lo_x). by eapply Qle_lt_trans.
Qed.

End rank_facts.

Lemma ranking_consistent_with_quantiles_witness :
  (∀ m, m ∈ rank_order → Rank.well_bracketed rank_q025 rank_q975 m)
  ∧ ∃ ranking,
      Rank.compute_ranking rank_q025 rank_q975 rank_order = Ok ranking
      ∧ (∀ m, m ∈ rank_order →
           ranking !! m = Some (Rank.rank_of rank_q025 rank_q975 rank_order m))
      ∧ (∀ x y lo_x hi_y,
           x ∈ rank_order → y ∈ rank_order →
           rank_q025 !! x = Some lo_x → rank_q975 !! y = Some hi_y →
           (hi_y < lo_x)%Q →
           ∃ rx ry, ranking !! x = Some rx ∧ ranking !! y = Some ry
                    ∧ (rx < ry)%nat).
Proof.
  assert (H : ∀ m, m ∈ rank_order → Rank.well_bracketed rank_q025 rank_q975 m).
  { intros m Hm. unfold rank_order in Hm.
    repeat (apply elem_of_cons in Hm as [->|Hm]);
      [exists 1200%Q, 1250%Q | exists 1000%Q, 1040%Q | exists 990%Q, 1030%Q
      | by apply elem_of_nil in Hm];
      (split; [reflexivity|]; split; [reflexivity|];
       unfold Qle; simpl; lia). }
  split; [exact H|].
  exact (ranking_consistent_with_quantiles rank_q025 rank_q975 rank_order H).
Defined.

(** ** The outlier judge detector *)

Section outlier_facts.
Import XQ Outlier.

Context (stats : gmap (string * string) pair_stats).
Context (max_vote : Z) (alpha : PrimFloat.float).

Abbreviation crossed := (Outlier.crossed stats alpha).
Abbreviation probs_of := (Outlier.probs_of stats).

Lemma stats_get_present row :
  is_Some (stats !! pair_of row) →
  ∃ s, stats_get stats (pair_of row) = Ok s
       ∧ tail_probs s (vote_of row) = probs_of row.
Proof.
  intros [s Hs]. exists s. unfold stats_get, Outlier.probs_of.
  by rewrite Hs.
Qed.

Lemma crossed_snoc seen row :
  crossed (seen ++ [row])
  = over (martingale ((probs_of <$> seen).*1 ++ [(probs_of row).1])) alpha
    || over (martingale ((probs_of <$> seen).*2 ++ [(probs_of row).2])) alpha.
Proof. unfold Outlier.crossed. by rewrite !fmap_app. Qed.

(** The loop over one judge's rows, started after the rows [seen]. *)
Lemma inspect_spec : ∀ rows seen,
  PrimFloat.eqb alpha PrimFloat.zero = false →
  (∀ row, row ∈ rows → is_Some (stats !! pair_of row)) →
  ∃ flag n,
    inspect stats max_vote alpha rows
      ((probs_of <$> seen).*1) ((probs_of <$> seen).*2) = Ok (flag, n)
    ∧ length seen ≤ n ≤ length (seen ++ rows)
    ∧ (n = length seen ∨ (Z.of_nat n ≤ max_vote)%Z)
    ∧ (flag = true →
         length seen < n
         ∧ crossed (take n (seen ++ rows)) = true
         ∧ ∀ k, length seen < k < n → crossed (take k (seen ++ rows)) = false)
    ∧ (flag = false →
         ∀ k, length seen < k ≤ length (seen ++ rows) →
              (Z.of_nat k ≤ max_vote)%Z →
              crossed (take k (seen ++ rows)) = false).
Proof.
  induction rows as [|row rest IH]; intros seen Halpha Hkeys.
  - exists false, (length seen). cbn [inspect].
    rewrite !length_fmap, app_nil_r. split; [done|]. split; [lia|].
    split; [by left|]. split; [done|]. intros _ k Hk. lia.
  - cbn [inspect]. rewrite !length_fmap.
    case_bool_decide as Hcap.
    + exists false, (length seen). split; [done|].
      rewrite length_app. split; [lia|]. split; [by left|].
      split; [done|]. intros _ k Hk Hle. lia.
    + destruct (stats_get_present row) as (s & Es & Ep);
        [apply Hkeys; set_solver|].
      rewrite Es. cbn [mbind result_bind]. rewrite Ep.
      unfold over_threshold. rewrite Halpha.
      cbn [mbind result_bind].
      pose proof (crossed_snoc seen row) as Hsnoc.
      assert (Htake : take (S (length seen)) (seen ++ row :: rest)
                      = seen ++ [row]).
      { rewrite cons_middle, app_assoc.
        apply take_app_length'. rewrite length_app. simpl. lia. }
      assert (Hlen : length (seen ++ row :: rest) = S (length (seen ++ rest)))
        by (rewrite !length_app; simpl; lia).
      destruct (over (martingale ((probs_of <$> seen).*1 ++ [(probs_of row).1]))
                  alpha) eqn:Hup;
        [|destruct (over (martingale
                            ((probs_of <$> seen).*2 ++ [(probs_of row).2]))
                      alpha) eqn:Hlow].
      1,2: exists true, (S (length seen));
        rewrite length_app; cbn [length]; rewrite length_fmap, length_fmap;
        split; [by rewrite Nat.add_1_r|];
        split; [rewrite length_app; simpl; lia|];
        split; [right; lia|];
        split; [|done]; intros _;
        split; [lia|]; split; [by rewrite Htake, Hsnoc|];
        intros k Hk; lia.
      destruct (IH (seen ++ [row]) Halpha) as (flag & n & E & Hn & Hcapn & Ht & Hf).
      { intros r Hr. apply Hkeys. set_solver. }
      rewrite !fmap_app in E. cbn [fmap list_fmap] in E.
      exists flag, n. split; [exact E|].
      rewrite <- app_assoc in Hn, Ht, Hf. cbn [app] in Hn, Ht, Hf.
      rewrite length_app in Hn, Hcapn, Ht, Hf. cbn [length] in Hn, Hcapn, Ht, Hf.
      assert (Hfirst : crossed (take (S (length seen)) (seen ++ row :: rest))
                       = false) by (by rewrite Htake, Hsnoc).
      split; [lia|]. split.
      { destruct Hcapn as [->|Hc]; [right; lia|by right]. }
      split.
      * intros ->. destruct (Ht eq_refl) as (Hlt & Hcross & Hbefore).
        split; [lia|]. split; [done|].
        intros k Hk. destruct (decide (k = S (length seen))) as [->|Hne];
          [done|apply Hbefore; lia].
      * intros ->. intros k Hk Hle.
        destruct (decide (k = S (length seen))) as [->|Hne];
          [done|apply (Hf eq_refl); lia].
Qed.

(** A judge is in [bad_user_list] exactly when the judge was checked and
    the loop over the judge's rows ended with the flag set. *)
Lemma check_users_spec battles : ∀ users,
  (∀ u, u ∈ users →
     ∃ fv, inspect stats max_vote alpha (votes_of u battles) [] [] = Ok fv) →
  ∃ bad,
    check_users stats battles max_vote alpha users = Ok bad
    ∧ ∀ u n, (u, n) ∈ bad ↔
        u ∈ users
        ∧ inspect stats max_vote alpha (votes_of u battles) [] []
          = Ok (true, n).
Proof.
  induction users as [|user rest IH]; intros Hok.
  - exists []. split; [done|]. set_solver.
  - cbn [check_users].
    destruct (Hok user) as [[flag v] E]; [set_solver|].
    destruct IH as (bad & Eb & Hbad); [intros; apply Hok; set_solver|].
    rewrite E, Eb. cbn [mbind result_bind fst snd].
    eexists. split; [done|]. intros u n.
    destruct flag.
    + rewrite elem_of_cons, Hbad, elem_of_cons. split.
      * intros [[= -> ->]|[Hu Hi]]; [by split; [left|]|by split; [right|]].
      * intros [[->|Hu] Hi]; [left; congruence|right; done].
    + rewrite Hbad, elem_of_cons. split.
      * intros [Hu Hi]. by split; [right|].
      * intros [[->|Hu] Hi]; [congruence|done].
Qed.

Lemma elem_of_users_to_check_default battles u :
  u ∈ users_to_check battles None ↔ 5 ≤ length (votes_of u battles).
Proof.
  unfold users_to_check. rewrite list_elem_of_filter, elem_of_pd_unique.
  split; [by intros [? _]|]. intros Hlen. split; [done|].
  destruct (votes_of u battles) as [|row rest] eqn:E; [simpl in Hlen; lia|].
  assert (Hrow : row ∈ votes_of u battles) by (rewrite E; set_solver).
  apply list_elem_of_filter in Hrow as [<- Hin].
  apply list_elem_of_fmap. by exists row.
Qed.

(** C5, as the code has it: with a nonzero [alpha] and
    statistics for every pair of the battles, the detector returns exactly
    the battles of the judges it did not flag; a flagged judge was flagged
    at the first of the judge's votes, replayed in order and at most
    [max_vote] of them, after which [M_upper] or [M_lower] is over
    [1 / alpha]; a checked judge who is not flagged never got there within
    the cap; and when no [user_list] is given, every flagged judge has at
    least 5 votes. *)
Theorem outlier_detect_spec (battles : list Battle)
    (user_list : option (list string)) :
  PrimFloat.eqb alpha PrimFloat.zero = false →
  (∀ row, row ∈ battles → is_Some (stats !! pair_of row)) →
  ∃ bad,
    bad_user_list stats battles max_vote alpha user_list = Ok bad
    ∧ outlier_detect stats battles max_vote alpha user_list
      = Ok (filter (λ b, judge b ∉ bad.*1) battles)
    ∧ (∀ u n, (u, n) ∈ bad →
         u ∈ users_to_check battles user_list
         ∧ 1 ≤ n ≤ length (votes_of u battles)
         ∧ (Z.of_nat n ≤ max_vote)%Z
         ∧ crossed (take n (votes_of u battles)) = true
         ∧ ∀ k, 1 ≤ k < n → crossed (take k (votes_of u battles)) = false)
    ∧ (∀ u, u ∈ users_to_check battles user_list → u ∉ bad.*1 →
         ∀ k, 1 ≤ k ≤ length (votes_of u battles) →
              (Z.of_nat k ≤ max_vote)%Z →
              crossed (take k (votes_of u battles)) = false)
    ∧ (user_list = None →
         ∀ u n, (u, n) ∈ bad → 5 ≤ length (votes_of u battles)).
Proof.
  intros Halpha Hkeys.
  assert (Hinspect : ∀ u, ∃ flag n,
    inspect stats max_vote alpha (votes_of u battles) [] [] = Ok (flag, n)
    ∧ 0 ≤ n ≤ length (votes_of u battles)
    ∧ (n = 0 ∨ (Z.of_nat n ≤ max_vote)%Z)
    ∧ (flag = true →
         0 < n ∧ crossed (take n (votes_of u battles)) = true
         ∧ ∀ k, 0 < k < n → crossed (take k (votes_of u battles)) = false)
    ∧ (flag = false →
         ∀ k, 0 < k ≤ length (votes_of u battles) →
              (Z.of_nat k ≤ max_vote)%Z →
              crossed (take k (votes_of u battles)) = false)).
  { intros u. apply (inspect_spec (votes_of u battles) [] Halpha).
    intros row Hrow. apply Hkeys.
    by apply list_elem_of_filter in Hrow as [_ ?]. }
  destruct (check_users_spec battles (users_to_check battles user_list))
    as (bad & Ebad & Hbad).
  { intros u _. destruct (Hinspect u) as (flag & n & E & _). by eexists. }
  exists bad. unfold outlier_detect, bad_user_list. rewrite Ebad.
  split; [done|]. split; [done|]. split; [|split].
  - intros u n [Hu Hi]%Hbad.
    destruct (Hinspect u) as (flag & n' & E & Hn & Hcap & Ht & _).
    rewrite E in Hi. injection Hi as -> ->.
    destruct (Ht eq_refl) as (Hpos & Hcross & Hbefore).
    split; [done|]. split; [lia|]. split; [destruct Hcap; lia|].
    split; [done|]. intros k Hk. apply Hbefore. lia.
  - intros u Hu Hnot k Hk Hle.
    destruct (Hinspect u) as (flag & n & E & _ & _ & _ & Hf).
    destruct flag.
    + exfalso. apply Hnot. apply list_elem_of_fmap. exists (u, n).
      split; [done|]. apply Hbad. by split.
    + apply (Hf eq_refl); [lia|done].
  - intros -> u n [Hu _]%Hbad. by apply elem_of_users_to_check_default.
Qed.

End outlier_facts.

Section pair_stats_facts.
Import Outlier.

Lemma count_row_keeps (stats : gmap (string * string) pair_stats) row k :
  is_Some (stats !! k) → is_Some (count_row stats row !! k).
Proof.
  intros Hk. unfold count_row.
  destruct (decide (pair_of row = k)) as [<-|Hne].
  - rewrite lookup_insert_eq. by eexists.
  - by rewrite lookup_insert_ne.
Qed.

Lemma foldl_count_row_keeps battles :
  ∀ (stats : gmap (string * string) pair_stats) k,
  is_Some (stats !! k) → is_Some (foldl count_row stats battles !! k).
Proof.
  induction battles as [|row rest IH]; intros stats k Hk; [done|].
  simpl. by apply IH, count_row_keeps.
Qed.

(** [get_model_pair_stats] has an entry for the pair of every battle. *)
Lemma get_model_pair_stats_keys (battles : list Battle) row :
  row ∈ battles → is_Some (get_model_pair_stats battles !! pair_of row).
Proof.
  unfold get_model_pair_stats. generalize (∅ : gmap (string * string) pair_stats).
  induction battles as [|b rest IH]; intros stats Hrow; [set_solver|].
  simpl. apply elem_of_cons in Hrow as [->|Hrow]; [|by apply IH].
  apply foldl_count_row_keeps. unfold count_row.
  rewrite lookup_insert_eq. by eexists.
Qed.

End pair_stats_facts.

Lemma outlier_detect_spec_witness :
  let stats := Outlier.get_model_pair_stats troll5_battles in
  PrimFloat.eqb alpha_default PrimFloat.zero = false
  ∧ (∀ row, row ∈ troll5_battles → is_Some (stats !! Outlier.pair_of row))
  ∧ Outlier.bad_user_list stats troll5_battles 100 alpha_default None
    = Ok [("troll", 2)]
  ∧ ∃ bad,
      Outlier.bad_user_list stats troll5_battles 100 alpha_default None
      = Ok bad
      ∧ Outlier.outlier_detect stats troll5_battles 100 alpha_default None
        = Ok (filter (λ b, judge b ∉ bad.*1) troll5_battles)
      ∧ (∀ u n, (u, n) ∈ bad →
           u ∈ Outlier.users_to_check troll5_battles None
           ∧ 1 ≤ n ≤ length (Outlier.votes_of u troll5_battles)
           ∧ (Z.of_nat n ≤ 100)%Z
           ∧ Outlier.crossed stats alpha_default
               (take n (Outlier.votes_of u troll5_battles)) = true
           ∧ ∀ k, 1 ≤ k < n →
               Outlier.crossed stats alpha_default
                 (take k (Outlier.votes_of u troll5_battles)) = false)
      ∧ (∀ u, u ∈ Outlier.users_to_check troll5_battles None → u ∉ bad.*1 →
           ∀ k, 1 ≤ k ≤ length (Outlier.votes_of u troll5_battles) →
                (Z.of_nat k ≤ 100)%Z →
                Outlier.crossed stats alpha_default
                  (take k (Outlier.votes_of u troll5_battles)) = false)
      ∧ ((None : option (list string)) = None →
           ∀ u n, (u, n) ∈ bad →
             5 ≤ length (Outlier.votes_of u troll5_battles)).
Proof.
  intros stats.
  assert (H1 : PrimFloat.eqb alpha_default PrimFloat.zero = false)
    by reflexivity.
  assert (H2 : ∀ row, row ∈ troll5_battles →
                 is_Some (stats !! Outlier.pair_of row))
    by (intros row Hrow; by apply get_model_pair_stats_keys).
  split; [exact H1|]. split; [exact H2|].
  split; [vm_compute; reflexivity|].
  exact (outlier_detect_spec stats 100 alpha_default troll5_battles None
           H1 H2).
Defined.

(** C5 as stated fails when a [user_list] is passed: the judge "troll" has
    cast a single vote, against forty votes the other way, and is flagged
    at that vote (M_upper is 1 / (2 * (1 / 41)), about 20.5, over 20); the
    judge's battle is removed. *)
Lemma outlier_detect_flags_single_vote :
  let stats := Outlier.get_model_pair_stats troll_battles in
  length (Outlier.votes_of "troll" troll_battles) = 1
  ∧ Outlier.bad_user_list stats troll_battles 100 alpha_default
      (Some ["troll"])
    = Ok [("troll", 1)]
  ∧ Outlier.outlier_detect stats troll_battles 100 alpha_default
      (Some ["troll"])
    = Ok (replicate 40 (mkBattle "gpt" "llama" "model_a" "fan" []))
  ∧ ¬ (∀ u n bad,
         Outlier.bad_user_list stats troll_battles 100 alpha_default
           (Some ["troll"]) = Ok bad →
         (u, n) ∈ bad → 5 ≤ length (Outlier.votes_of u troll_battles)).
Proof.
  intros stats.
  assert (E : Outlier.bad_user_list stats troll_battles 100 alpha_default
                (Some ["troll"]) = Ok [("troll", 1)])
    by (vm_compute; reflexivity).
  assert (L : length (Outlier.votes_of "troll" troll_battles) = 1)
    by (vm_compute; reflexivity).
  split; [exact L|]. split; [exact E|]. split; [vm_compute; reflexivity|].
  intros H. specialize (H "troll" 1 _ E). rewrite L in H.
  assert (Hin : ("troll", 1) ∈ [("troll", 1)]) by (apply elem_of_cons; by left).
  specialize (H Hin). lia.
Qed.

(** The products are float64 products.  For the judge "edge" the exact
    product after two votes is (40 / 46) * (46 / 2) = 20, not over the
    threshold; in float64 it is 20.000000000000004, over [1 / 0.05 = 20.0],
    and the judge is flagged at the second vote: 84 battles are left. *)
Lemma outlier_detect_at_the_threshold :
  let stats := Outlier.get_model_pair_stats edge_battles in
  Outlier.bad_user_list stats edge_battles 100 alpha_default (Some ["edge"])
  = Ok [("edge", 2)]
  ∧ ∃ kept,
      Outlier.outlier_detect stats edge_battles 100 alpha_default
        (Some ["edge"]) = Ok kept
      ∧ length kept = 84.
Proof.
  intros stats. split; [vm_compute; reflexivity|].
  eexists. split; [vm_compute; reflexivity|]. reflexivity.
Qed.

(** * Further properties of the code *)

(** ** The encoder's arrays *)

Section encoder_more.
Import Encoder BT BTSpec.
Local Open Scope R_scope.

Lemma Rsum_ones {A} (l : list A) : Rsum ((λ _, 1) <$> l) = INR (length l).
Proof.
  induction l as [|x l IH]; [done|].
  rewrite fmap_cons, Rsum_cons, IH. cbn [length]. rewrite S_INR. lra.
Qed.

Lemma schedule_rows_length idx (df : list Battle) s :
  schedule_rows idx df = Ok s → length s = length df.
Proof.
  revert s. induction df as [|b df IH]; intros s; simpl.
  - by intros [= <-].
  - destruct (schedule_row idx b) as [r|e]; simpl; [|done].
    destruct (schedule_rows idx df) as [rs|e]; simpl; [|done].
    intros [= <-]. simpl. by rewrite (IH rs).
Qed.

(** X1: the encoder never raises, its three arrays have one length, and the
    weights sum to the number of battles: no battle is dropped or counted
    twice. *)
Theorem preprocess_weights_sum (df : list Battle) :
  ∃ a, preprocess_battles_to_arrays df = Ok a
       ∧ length (outcomes a) = length (matchups a)
       ∧ length (weights a) = length (matchups a)
       ∧ Rsum (weights a) = INR (length df).
Proof.
  unfold preprocess_battles_to_arrays.
  destruct (schedule_of_total df) as (s & E & _). rewrite E.
  cbn [mbind result_bind]. eexists. split; [done|].
  cbn [matchups outcomes weights]. rewrite !length_fmap.
  split; [done|]. split; [done|].
  etrans; [apply (Rsum_ext _ (λ rc : row * nat, (λ _ : row, 1) rc.1 * INR rc.2));
           intros; lra|].
  rewrite (Rsum_np_unique_counts (λ _, 1)), Rsum_ones.
  by rewrite (schedule_rows_length _ _ _ E).
Qed.

Lemma model_to_idx_bound (ms : list string) x i :
  model_to_idx ms !! x = Some i → (i < length ms)%nat.
Proof.
  unfold model_to_idx. intros H.
  apply elem_of_list_to_map_2 in H.
  apply elem_of_zip_r in H. apply elem_of_seq in H. lia.
Qed.

Lemma schedule_rows_bound idx n (df : list Battle) s :
  (∀ x i, idx !! x = Some i → (i < n)%nat) →
  schedule_rows idx df = Ok s →
  Forall (λ r : row, (r.1.1 < n)%nat ∧ (r.1.2 < n)%nat
                     ∧ (r.2 = 0 ∨ r.2 = 1 ∨ r.2 = 2)%nat) s.
Proof.
  intros Hidx. revert s. induction df as [|b df IH]; intros s; simpl.
  - intros [= <-]. constructor.
  - unfold schedule_row, dict_get.
    destruct (idx !! model_a b) as [ia|] eqn:Ea; simpl; [|done].
    destruct (idx !! model_b b) as [ib|] eqn:Eb; simpl; [|done].
    destruct (schedule_rows idx df) as [rs|e]; simpl; [|done].
    intros [= <-]. constructor; [|by apply IH].
    simpl. split; [by eapply Hidx|]. split; [by eapply Hidx|].
    unfold outcome_id. repeat case_bool_decide; auto.
Qed.

Lemma unique_from_NoDup seen l :
  NoDup (unique_from seen l) ∧ ∀ x, x ∈ unique_from seen l → x ∉ seen.
Proof.
  revert seen. induction l as [|y l IH]; intros seen; simpl.
  - split; [constructor|set_solver].
  - case_bool_decide as Hy; [apply IH|].
    destruct (IH (y :: seen)) as [Hnd Hnot]. split.
    + constructor; [|done]. intros Hin. apply Hnot in Hin. set_solver.
    + intros x [->|Hx]%elem_of_cons; [done|].
      apply Hnot in Hx. set_solver.
Qed.

(** X2: the registry of models has no duplicates and holds exactly the
    names of the battles; every index of a returned matchup is a position
    of it, and every outcome label is 0, 1/2 or 1. *)
Theorem preprocess_registry (df : list Battle) :
  ∃ a, preprocess_battles_to_arrays df = Ok a
       ∧ NoDup (models a)
       ∧ (∀ x, x ∈ models a ↔ x ∈ competitors df)
       ∧ Forall (λ m : nat * nat,
                   (m.1 < length (models a))%nat
                   ∧ (m.2 < length (models a))%nat) (matchups a)
       ∧ Forall (λ o, o = 0 ∨ o = 1 / 2 ∨ o = 1) (outcomes a).
Proof.
  unfold preprocess_battles_to_arrays.
  destruct (schedule_of_total df) as (s & E & _). rewrite E.
  cbn [mbind result_bind]. eexists. split; [done|].
  cbn [matchups outcomes models].
  split; [apply unique_from_NoDup|].
  split; [intros x; rewrite elem_of_pd_unique; unfold competitors, ravel_models;
          by rewrite elem_of_list_to_set|].
  pose proof (schedule_rows_bound _ (length (pd_unique (ravel_models df))) df s
                (model_to_idx_bound _) E) as Hb.
  rewrite Forall_forall in Hb.
  split; apply Forall_fmap, Forall_forall; intros [r c] Hrc;
    (assert (Hr : r ∈ s)
       by (apply elem_of_np_unique_counts, list_elem_of_fmap; by exists (r, c)));
    destruct (Hb r Hr) as (H1 & H2 & H3); simpl.
  - done.
  - destruct H3 as [-> | [-> | ->]]; simpl; [left|right; left|right; right]; lra.
Qed.

End encoder_more.

(** ** The Bradley-Terry objective *)

Section bt_more.
Import Encoder BT BTSpec.
Local Open Scope R_scope.

Lemma Rsum_add_at (g : list R) i v :
  (i < length g)%nat → Rsum (add_at g i v) = Rsum g + v.
Proof.
  unfold add_at. revert i. induction g as [|x g IH]; intros i Hi.
  - simpl in Hi. lia.
  - destruct i as [|i].
    + change (alter (λ x, x + v) 0%nat (x :: g)) with ((x + v) :: g).
      rewrite !Rsum_cons. lra.
    + change (alter (λ x, x + v) (S i) (x :: g))
        with (x :: alter (λ x, x + v) i g).
      rewrite !Rsum_cons, IH by (simpl in Hi; lia). lra.
Qed.

Lemma Rsum_add_at_rows (ms : list (nat * nat)) : ∀ (gs g : list R),
  Forall (λ m : nat * nat, (m.1 < length g)%nat ∧ (m.2 < length g)%nat) ms →
  Rsum (add_at_rows g ms gs) = Rsum g
  ∧ length (add_at_rows g ms gs) = length g.
Proof.
  unfold add_at_rows.
  induction ms as [|m ms IH]; intros gs g Hr; [done|].
  destruct gs as [|v gs]; [done|]. cbn [zip zip_with foldl fst snd].
  inversion Hr as [|? ? [Ha Hb] Hms]; subst.
  assert (Hl : length (add_at (add_at g m.1 (v * 1)) m.2 (v * -1)) = length g)
    by (unfold add_at; by rewrite !length_alter).
  destruct (IH gs (add_at (add_at g m.1 (v * 1)) m.2 (v * -1))) as [Hs Hlen].
  { by rewrite Hl. }
  split; [|by rewrite Hlen].
  rewrite Hs. rewrite !Rsum_add_at; [lra|done|].
  unfold add_at. by rewrite length_alter.
Qed.

(** X3: which exception [bt_loss_and_grad] raises, and what it
    broadcasts.  An index of a matchup outside the rating vector gives
    [IndexError], before anything else.  With all indices in range,
    [outcomes] or [weights] whose length is neither that of the matchups
    nor 1 gives [ValueError].  An array of one element raises nothing: it
    counts for every matchup. *)
Theorem bt_loss_and_grad_errors ratings ms os ws alpha :
  (¬ Forall (in_range ratings) ms →
     bt_loss_and_grad ratings ms os ws alpha = Raise IndexError)
  ∧ (Forall (in_range ratings) ms →
     (length os ≠ length ms ∧ length os ≠ 1%nat)
     ∨ (length ws ≠ length ms ∧ length ws ≠ 1%nat) →
     bt_loss_and_grad ratings ms os ws alpha = Raise ValueError)
  ∧ (∀ o, bt_loss_and_grad ratings ms [o] ws alpha
          = bt_loss_and_grad ratings ms (replicate (length ms) o) ws alpha)
  ∧ (∀ w, bt_loss_and_grad ratings ms os [w] alpha
          = bt_loss_and_grad ratings ms os (replicate (length ms) w) alpha)
  ∧ (Forall (in_range ratings) ms →
     (length os = length ms ∨ length os = 1%nat) →
     (length ws = length ms ∨ length ws = 1%nat) →
     ∃ loss g, bt_loss_and_grad ratings ms os ws alpha = Ok (loss, g)).
Proof.
  assert (Hbad : ∀ l : list R, length l ≠ length ms → length l ≠ 1%nat →
            broadcast (length ms) l = Raise ValueError).
  { intros l H1 H2. unfold broadcast.
    rewrite (bool_decide_eq_false_2 _ H1).
    destruct l as [|x [|y l]]; [done| |done]. by simpl in H2. }
  assert (Hone : ∀ x : R, broadcast (length ms) [x]
                          = broadcast (length ms) (replicate (length ms) x)).
  { intros x. rewrite (broadcast_same _ (replicate _ x))
      by (by rewrite length_replicate).
    unfold broadcast. case_bool_decide as H; [|done].
    simpl in H. by rewrite <- H. }
  assert (Hgood : ∀ l : list R, length l = length ms ∨ length l = 1%nat →
            ∃ l', broadcast (length ms) l = Ok l').
  { intros l [H|H]; [exists l; by apply broadcast_same|].
    destruct l as [|x [|y l]]; [done| |done].
    rewrite Hone. eexists. apply broadcast_same. by rewrite length_replicate. }
  split; [|split; [|split; [|split]]].
  - intros Hr. unfold bt_loss_and_grad.
    by rewrite mapM_matchup_rating, (bool_decide_eq_false_2 _ Hr).
  - intros Hr Hlen. unfold bt_loss_and_grad.
    rewrite mapM_matchup_rating, (bool_decide_eq_true_2 _ Hr).
    cbn [mbind result_bind].
    destruct (decide (length os ≠ length ms ∧ length os ≠ 1%nat))
      as [[H1 H2]|Hos].
    + by rewrite (Hbad os H1 H2).
    + destruct Hlen as [Hlen|[H1 H2]]; [done|].
      rewrite (Hbad ws H1 H2).
      destruct (Hgood os) as [os' ->]; [lia|done].
  - intros o. unfold bt_loss_and_grad. by rewrite Hone.
  - intros w. unfold bt_loss_and_grad. by rewrite Hone.
  - intros Hr Ho Hw. unfold bt_loss_and_grad.
    rewrite mapM_matchup_rating, (bool_decide_eq_true_2 _ Hr).
    cbn [mbind result_bind].
    destruct (Hgood os Ho) as [os' ->]. destruct (Hgood ws Hw) as [ws' ->].
    cbn [mbind result_bind]. by eexists _, _.
Qed.

(** X4: with all indices in range and arrays of one length,
    [bt_loss_and_grad] returns a gradient with one entry per rating, and
    the entries sum to zero: what a matchup adds at model_a it takes away
    at model_b. *)
Theorem bt_gradient_sums_to_zero ratings ms os ws alpha :
  Forall (in_range ratings) ms →
  length os = length ms → length ws = length ms →
  ∃ loss g,
    bt_loss_and_grad ratings ms os ws alpha = Ok (loss, g)
    ∧ length g = length ratings
    ∧ Rsum g = 0.
Proof.
  intros Hr Ho Hw. unfold bt_loss_and_grad.
  rewrite mapM_matchup_rating, (bool_decide_eq_true_2 _ Hr).
  cbn [mbind result_bind]. rewrite !broadcast_same by done.
  cbn [mbind result_bind]. eexists _, _. split; [done|].
  match goal with |- context [add_at_rows ?g ms ?gs] =>
    destruct (Rsum_add_at_rows ms gs g) as [Hs Hl] end.
  { rewrite length_fmap. exact Hr. }
  rewrite Hs, Hl, length_fmap. split; [done|].
  clear. induction ratings as [|r l IH]; [done|].
  rewrite fmap_cons, Rsum_cons, IH. lra.
Qed.

End bt_more.

Lemma bt_gradient_sums_to_zero_witness :
  Forall (BTSpec.in_range [0%R; 0%R]) [(0, 1); (1, 0)]%nat
  ∧ length [1%R; (1 / 2)%R] = length [(0, 1); (1, 0)]%nat
  ∧ length [3%R; 2%R] = length [(0, 1); (1, 0)]%nat
  ∧ ∃ loss g,
      BT.bt_loss_and_grad [0%R; 0%R] [(0, 1); (1, 0)]%nat
        [1%R; (1 / 2)%R] [3%R; 2%R] (ln 10) = Ok (loss, g)
      ∧ length g = length [0%R; 0%R]
      ∧ BT.Rsum g = 0%R.
Proof.
  assert (H1 : Forall (BTSpec.in_range [0%R; 0%R]) [(0, 1); (1, 0)]%nat)
    by (repeat constructor).
  split; [exact H1|]. split; [reflexivity|]. split; [reflexivity|].
  exact (bt_gradient_sums_to_zero [0%R; 0%R] [(0, 1); (1, 0)]%nat
           [1%R; (1 / 2)%R] [3%R; 2%R] (ln 10) H1 eq_refl eq_refl).
Defined.

Section bt_shift.
Import Encoder BT BTSpec.
Local Open Scope R_scope.

Lemma in_range_fmap (f : R → R) ratings m :
  in_range (f <$> ratings) m ↔ in_range ratings m.
Proof. unfold in_range. by rewrite length_fmap. Qed.

Lemma prob_shift alpha ratings c m :
  in_range ratings m →
  prob alpha (ratings_of ((λ r, r + c) <$> ratings) m)
  = prob alpha (ratings_of ratings m).
Proof.
  intros [Ha Hb]. unfold prob, ratings_of. rewrite !list_lookup_fmap.
  destruct (lookup_lt_is_Some_2 ratings m.1 Ha) as [ra ->].
  destruct (lookup_lt_is_Some_2 ratings m.2 Hb) as [rb ->].
  simpl. f_equal. ring.
Qed.

(** X5: the objective only sees rating differences.  Adding one constant
    to every rating changes neither the loss nor the gradient (nor the
    exception raised), which is why the fitted ratings need an anchor. *)
Theorem bt_loss_and_grad_shift ratings ms os ws alpha c :
  bt_loss_and_grad ((λ r, r + c) <$> ratings) ms os ws alpha
  = bt_loss_and_grad ratings ms os ws alpha.
Proof.
  unfold bt_loss_and_grad. rewrite !mapM_matchup_rating.
  destruct (decide (Forall (in_range ratings) ms)) as [Hr|Hr].
  - assert (Hr' : Forall (in_range ((λ r, r + c) <$> ratings)) ms)
      by (eapply Forall_impl; [exact Hr|]; intros m; by rewrite in_range_fmap).
    rewrite (bool_decide_eq_true_2 _ Hr), (bool_decide_eq_true_2 _ Hr').
    cbn [mbind result_bind].
    assert (Hp : prob alpha <$> (ratings_of ((λ r, r + c) <$> ratings) <$> ms)
                 = prob alpha <$> (ratings_of ratings <$> ms)).
    { rewrite <- !list_fmap_compose. apply Forall_fmap_ext.
      eapply Forall_impl; [exact Hr|]. intros m Hm. simpl.
      by apply prob_shift. }
    assert (Hz : (λ _ : R, 0) <$> ((λ r, r + c) <$> ratings)
                 = (λ _ : R, 0) <$> ratings)
      by (by rewrite <- list_fmap_compose).
    destruct (broadcast (length ms) os) as [os'|e]; [|done].
    cbn [mbind result_bind].
    destruct (broadcast (length ms) ws) as [ws'|e]; [|done].
    cbn [mbind result_bind]. by rewrite Hp, Hz.
  - assert (Hr' : ¬ Forall (in_range ((λ r, r + c) <$> ratings)) ms).
    { intros H. apply Hr. eapply Forall_impl; [exact H|].
      intros m. by rewrite in_range_fmap. }
    by rewrite (bool_decide_eq_false_2 _ Hr), (bool_decide_eq_false_2 _ Hr').
Qed.

Lemma sigmoid_0 : sigmoid 0 = 1 / 2.
Proof. unfold sigmoid. rewrite Ropp_0, exp_0. lra. Qed.

Lemma add_at_zero (g : list R) i v : v = 0 → add_at g i v = g.
Proof.
  intros ->. unfold add_at. apply list_eq. intros k.
  destruct (decide (i = k)) as [->|Hne].
  - rewrite list_lookup_alter_eq. destruct (g !! k); simpl; [f_equal; lra|done].
  - by rewrite list_lookup_alter_ne.
Qed.

Lemma add_at_rows_zero (ms : list (nat * nat)) : ∀ (gs g : list R),
  Forall (λ v, v = 0) gs → add_at_rows g ms gs = g.
Proof.
  unfold add_at_rows. induction ms as [|m ms IH]; intros gs g Hz; [done|].
  destruct gs as [|v gs]; [done|]. cbn [zip zip_with foldl fst snd].
  inversion Hz as [|? ? Hv Hgs]; subst.
  rewrite !add_at_zero by lra. by apply IH.
Qed.

(** X6: a data set of ties only is stationary at equal ratings.  When
    every outcome label is 1/2 and all ratings are equal, the gradient is
    zero at every competitor, whatever the weights. *)
Theorem bt_ties_stationary n c ms ws alpha :
  Forall (in_range (replicate n c)) ms →
  length ws = length ms →
  ∃ loss,
    bt_loss_and_grad (replicate n c) ms (replicate (length ms) (1 / 2)) ws alpha
    = Ok (loss, replicate n 0).
Proof.
  intros Hr Hw. unfold bt_loss_and_grad.
  rewrite mapM_matchup_rating, (bool_decide_eq_true_2 _ Hr).
  cbn [mbind result_bind].
  rewrite !broadcast_same by (by rewrite ?length_replicate).
  cbn [mbind result_bind]. eexists. f_equal. f_equal.
  rewrite fmap_replicate. apply add_at_rows_zero.
  apply Forall_forall. intros v Hv.
  apply list_elem_of_lookup in Hv as [i Hi].
  apply lookup_zip_with_Some in Hi as (po & w & -> & Hpo & _).
  apply lookup_zip_with_Some in Hpo as (p & o & -> & Hp & Ho).
  apply lookup_replicate in Ho as [-> _].
  rewrite <- list_fmap_compose, list_lookup_fmap in Hp.
  destruct (ms !! i) as [m|] eqn:Em; [|done]. simpl in Hp.
  injection Hp as <-.
  rewrite Forall_forall in Hr.
  destruct (Hr m) as [Ha Hb]; [by eapply list_elem_of_lookup_2|].
  rewrite length_replicate in Ha, Hb.
  unfold grad_term, prob, ratings_of. cbn [fst snd].
  rewrite !lookup_replicate_2 by done. simpl.
  replace (alpha * (c - c)) with 0 by ring. rewrite sigmoid_0. lra.
Qed.

End bt_shift.

Lemma bt_ties_stationary_witness :
  Forall (BTSpec.in_range (replicate 2 1000%R)) [(0, 1); (1, 0)]%nat
  ∧ length [3%R; 2%R] = length [(0, 1); (1, 0)]%nat
  ∧ ∃ loss,
      BT.bt_loss_and_grad (replicate 2 1000%R) [(0, 1); (1, 0)]%nat
        (replicate (length [(0, 1); (1, 0)]%nat) (1 / 2)%R) [3%R; 2%R] (ln 10)
      = Ok (loss, replicate 2 0%R).
Proof.
  assert (H1 : Forall (BTSpec.in_range (replicate 2 1000%R))
                 [(0, 1); (1, 0)]%nat) by (repeat constructor).
  split; [exact H1|]. split; [reflexivity|].
  exact (bt_ties_stationary 2 1000%R [(0, 1); (1, 0)]%nat [3%R; 2%R] (ln 10)
           H1 eq_refl).
Defined.

(** ** Anchoring the scaled ratings *)

Section rescale_more.
Import BT.
Local Open Scope R_scope.

(** X7: what [scale_and_offset] does with the anchor.  Without the
    baseline model among [models] it is the affine map alone.  With it at
    position [idx], a rating vector too short to hold that position raises
    [IndexError]; otherwise the anchor's rating is exactly
    [baseline_rating] and every rating keeps its scaled distance to the
    anchor. *)
Theorem scale_and_offset_anchor ratings models scale init_rating
    baseline_model baseline_rating :
  (baseline_model ∉ models →
     scale_and_offset ratings models scale init_rating baseline_model
       baseline_rating = Ok ((λ r, r * scale + init_rating) <$> ratings))
  ∧ (∀ idx, list_find (λ m, m = baseline_model) models
            = Some (idx, baseline_model) →
       (length ratings ≤ idx)%nat →
       scale_and_offset ratings models scale init_rating baseline_model
         baseline_rating = Raise IndexError)
  ∧ (∀ idx anchor, list_find (λ m, m = baseline_model) models
                   = Some (idx, baseline_model) →
       ratings !! idx = Some anchor →
       ∃ out,
         scale_and_offset ratings models scale init_rating baseline_model
           baseline_rating = Ok out
         ∧ out = (λ r, baseline_rating + scale * (r - anchor)) <$> ratings
         ∧ out !! idx = Some baseline_rating).
Proof.
  split; [|split].
  - intros Hnot. unfold scale_and_offset.
    destruct (list_find _ models) as [[i m]|] eqn:E; [|done].
    apply list_find_Some in E as (Hi & -> & _).
    exfalso. apply Hnot. by eapply list_elem_of_lookup_2.
  - intros idx Hfind Hlen. unfold scale_and_offset, rating_at.
    rewrite Hfind, list_lookup_fmap.
    by rewrite (lookup_ge_None_2 ratings idx Hlen).
  - intros idx anchor Hfind Hidx. unfold scale_and_offset, rating_at.
    rewrite Hfind, list_lookup_fmap, Hidx.
    cbn [fmap option_fmap option_map mbind result_bind].
    eexists. split; [done|]. split.
    + rewrite <- list_fmap_compose. apply list_fmap_ext.
      intros _ r _. simpl. ring.
    + rewrite <- list_fmap_compose, list_lookup_fmap, Hidx. simpl.
      f_equal. ring.
Qed.

End rescale_more.

(** ** More on the online Elo update *)

Section elo_more.
Local Open Scope R_scope.

Context (K SCALE BASE INIT_RATING : R).

Abbreviation elo_step' := (Elo.elo_step K SCALE BASE INIT_RATING).
Abbreviation elo_loop' := (Elo.elo_loop K SCALE BASE INIT_RATING).
Abbreviation compute_elo' := (Elo.compute_elo K SCALE BASE INIT_RATING).


Lemma dd_get_eq (m : gmap string R) k :
  Elo.dd_get INIT_RATING m k
  = (default INIT_RATING (m !! k), <[k := default INIT_RATING (m !! k)]> m).
Proof.
  unfold Elo.dd_get. destruct (m !! k) as [v|] eqn:E; simpl; [|done].
  by rewrite insert_id.
Qed.

Lemma dd_add_eq (m : gmap string R) k d :
  Elo.dd_add INIT_RATING m k d = <[k := default INIT_RATING (m !! k) + d]> m.
Proof. unfold Elo.dd_add. rewrite dd_get_eq. by rewrite insert_insert_eq. Qed.

Lemma score_a_mirror_cases w :
  (∃ sa sa', Elo.score_a w = Ok sa
             ∧ Elo.score_a (mirror_winner w) = Ok sa' ∧ sa' = 1 - sa)
  ∨ (∃ e, Elo.score_a w = Raise e ∧ Elo.score_a (mirror_winner w) = Raise e).
Proof.
  unfold Elo.score_a, mirror_winner, is_tie.
  repeat (case_bool_decide; subst; simpl; try done);
    try (right; eexists; by split);
    left; eexists _, _; (split; [done|]); (split; [done|]); lra.
Qed.

(** One step does not depend on the side a model is listed on. *)
Lemma elo_step_mirror (m : gmap string R) b :
  elo_step' m (mirror b) = elo_step' m b.
Proof.
  unfold Elo.elo_step. cbn [mirror model_a model_b winner].
  rewrite !dd_get_eq. cbn [fst snd].
  destruct (score_a_mirror_cases (winner b))
    as [(sa & sa' & -> & -> & ->)|(e & -> & ->)]; [|done].
  cbn [mbind result_bind]. f_equal. rewrite !dd_add_eq.
  set (a := model_a b). set (c := model_b b).
  apply map_eq. intros k.
  destruct (decide (a = c)) as [Hac|Hac].
  - rewrite <- Hac.
    destruct (decide (k = a)) as [->|Hk].
    + rewrite !lookup_insert_eq. simpl. first [done | f_equal; ring].
    + by rewrite !lookup_insert_ne.
  - destruct (decide (k = a)) as [->|Hka];
      [|destruct (decide (k = c)) as [->|Hkc]].
    + repeat (rewrite ?lookup_insert_eq, ?lookup_insert_ne by done; simpl).
      first [done | f_equal; ring].
    + repeat (rewrite ?lookup_insert_eq, ?lookup_insert_ne by done; simpl).
      first [done | f_equal; ring].
    + by rewrite !lookup_insert_ne.
Qed.

(** X9: the online rating does not depend on the side a model is listed
    on.  Exchanging model_a and model_b in any battle, with the winner tag
    exchanged to match, gives the same result (ratings or exception). *)
Theorem compute_elo_mirror (pre post : list Battle) (b : Battle) :
  compute_elo' (pre ++ mirror b :: post) = compute_elo' (pre ++ b :: post).
Proof.
  unfold Elo.compute_elo. rewrite !elo_loop_app.
  destruct (elo_loop' ∅ pre) as [m|e]; [|done].
  cbn [mbind result_bind Elo.elo_loop]. by rewrite elo_step_mirror.
Qed.

End elo_more.


(** ** Pair statistics *)

Section pair_stats_more.
Import XQ Outlier.

Lemma ordered_pair_comm a b : ordered_pair a b = ordered_pair b a.
Proof.
  unfold ordered_pair.
  destruct (String.leb a b) eqn:Eab, (String.leb b a) eqn:Eba; try done.
  - by rewrite (String.leb_antisym _ _ Eab Eba).
  - destruct (String.leb_total a b); congruence.
Qed.

Lemma mirror_winner_tie w : is_tie (mirror_winner w) = is_tie w.
Proof.
  unfold mirror_winner, is_tie.
  repeat (case_bool_decide; subst; simpl; try done).
Qed.

Lemma pair_of_mirror b : pair_of (mirror b) = pair_of b.
Proof. unfold pair_of. simpl. apply ordered_pair_comm. Qed.

Lemma first_wins_mirror b : first_wins (mirror b) = first_wins b.
Proof.
  unfold first_wins. rewrite pair_of_mirror. simpl. unfold mirror_winner.
  repeat (case_bool_decide; subst; simpl; try done);
    try congruence; try (by rewrite ?orb_false_r, ?orb_true_r).
Qed.

Lemma count_row_mirror stats b : count_row stats (mirror b) = count_row stats b.
Proof.
  unfold count_row. rewrite pair_of_mirror, first_wins_mirror.
  cbn [mirror winner]. by rewrite mirror_winner_tie.
Qed.

(** X10: the judge statistics do not depend on the side a model is listed
    on: exchanging the two sides of any battle (winner tag exchanged to
    match) changes neither the pair's key, nor the vote, nor the table of
    [get_model_pair_stats]. *)
Theorem pair_stats_mirror (pre post : list Battle) (b : Battle) :
  pair_of (mirror b) = pair_of b
  ∧ vote_of (mirror b) = vote_of b
  ∧ get_model_pair_stats (pre ++ mirror b :: post)
    = get_model_pair_stats (pre ++ b :: post).
Proof.
  split; [apply pair_of_mirror|]. split.
  - unfold vote_of. rewrite first_wins_mirror. cbn [mirror winner].
    by rewrite mirror_winner_tie.
  - unfold get_model_pair_stats. rewrite !foldl_app. cbn [foldl].
    by rewrite count_row_mirror.
Qed.

Lemma total_at_count_row stats row pair :
  total_at (count_row stats row) pair
  = total_at stats pair + (if bool_decide (pair_of row = pair) then 1 else 0).
Proof.
  unfold total_at, count_row.
  case_bool_decide as E.
  - subst pair. rewrite lookup_insert_eq.
    destruct (stats !! pair_of row) as [s|]; simpl;
      destruct (is_tie (winner row)), (first_wins row);
      unfold votes_total; simpl; lia.
  - rewrite lookup_insert_ne by done. lia.
Qed.

Lemma total_at_foldl battles : ∀ stats pair,
  total_at (foldl count_row stats battles) pair
  = total_at stats pair + length (filter (λ b, pair_of b = pair) battles).
Proof.
  induction battles as [|row rest IH]; intros stats pair; simpl; [lia|].
  rewrite IH, total_at_count_row, filter_cons.
  case_bool_decide as E; case_decide; try done; simpl; lia.
Qed.

Lemma foldl_count_row_None battles : ∀ stats pair,
  stats !! pair = None →
  filter (λ b, pair_of b = pair) battles = [] →
  foldl count_row stats battles !! pair = None.
Proof.
  induction battles as [|row rest IH]; intros stats pair Hs Hf; [done|].
  simpl. rewrite filter_cons in Hf. case_decide as E; [done|].
  apply IH; [|done]. unfold count_row. by rewrite lookup_insert_ne.
Qed.

(** X11: [get_model_pair_stats] counts every battle once.  For every
    pair, win + loss + tie is the number of battles of that pair, and the
    pair is a key of the table exactly when there is such a battle. *)
Theorem get_model_pair_stats_total (battles : list Battle)
    (pair : string * string) :
  total_at (get_model_pair_stats battles) pair
  = length (filter (λ b, pair_of b = pair) battles)
  ∧ (is_Some (get_model_pair_stats battles !! pair)
     ↔ ∃ b, b ∈ battles ∧ pair_of b = pair).
Proof.
  split.
  - unfold get_model_pair_stats. by rewrite total_at_foldl.
  - split.
    + intros Hsome.
      destruct (filter (λ b, pair_of b = pair) battles) as [|b l] eqn:E.
      * unfold get_model_pair_stats in Hsome.
        rewrite (foldl_count_row_None battles ∅ pair) in Hsome by done.
        by destruct Hsome.
      * exists b. assert (Hb : b ∈ filter (λ b, pair_of b = pair) battles)
          by (rewrite E; set_solver).
        apply list_elem_of_filter in Hb as [? ?]. done.
    + intros (b & Hb & <-). by apply get_model_pair_stats_keys.
Qed.

End pair_stats_more.

(** ** The style adjuster *)

Section mapM_facts.
Context {A B : Type} (f : A → result B).

Lemma mapM_total (l : list A) :
  (∀ x, x ∈ l → ∃ y, f x = Ok y) → ∃ r, mapM f l = Ok r.
Proof.
  induction l as [|x l IH]; intros Hok; [by exists []|].
  destruct (Hok x) as [y Hy]; [set_solver|].
  destruct IH as [r Hr]; [intros; apply Hok; set_solver|].
  exists (y :: r). cbn [mapM]. by rewrite Hy, Hr.
Qed.

Lemma mapM_cons_inv x (l : list A) r :
  mapM f (x :: l) = Ok r →
  ∃ y r', f x = Ok y ∧ mapM f l = Ok r' ∧ r = y :: r'.
Proof.
  cbn [mapM]. destruct (f x) as [y|e]; [|done].
  destruct (mapM f l) as [r'|e]; [|done].
  cbn [mbind result_bind]. intros [= <-]. by eexists _, _.
Qed.

Lemma mapM_length (l : list A) : ∀ r, mapM f l = Ok r → length r = length l.
Proof.
  induction l as [|x l IH]; intros r.
  - by intros [= <-].
  - intros (y & r' & _ & Hr' & ->)%mapM_cons_inv. simpl. by rewrite (IH r').
Qed.

Lemma mapM_lookup (l : list A) : ∀ r i x,
  mapM f l = Ok r → l !! i = Some x → ∃ y, r !! i = Some y ∧ f x = Ok y.
Proof.
  induction l as [|x0 l IH]; intros r i x; [done|].
  intros (y & r' & Hy & Hr' & ->)%mapM_cons_inv Hi.
  destruct i as [|i]; simpl in *.
  - injection Hi as <-. by exists y.
  - by eapply IH.
Qed.

Lemma mapM_app (l1 l2 : list A) :
  mapM f (l1 ++ l2)
  = r1 ← mapM f l1; r2 ← mapM f l2; Ok (r1 ++ r2).
Proof.
  induction l1 as [|x l1 IH]; cbn [mapM app].
  - cbn [mbind result_bind]. by destruct (mapM f l2).
  - destruct (f x) as [y|e]; [|done]. cbn [mbind result_bind].
    rewrite IH. destruct (mapM f l1) as [r1|e]; [|done].
    cbn [mbind result_bind]. by destruct (mapM f l2).
Qed.

Lemma mapM_twice (l : list A) r :
  mapM f (l ++ l) = Ok r → ∃ h, mapM f l = Ok h ∧ r = h ++ h.
Proof.
  rewrite mapM_app. destruct (mapM f l) as [h|e]; [|done].
  cbn [mbind result_bind]. intros [= <-]. by exists h.
Qed.

End mapM_facts.

Section style_facts.
Import XQ Style.

Lemma math_log_pos BASE : (0 < BASE)%R → math_log BASE = Ok (ln BASE).
Proof.
  intros H. unfold math_log. by destruct (Rlt_dec 0 BASE).
Qed.

(** What [construct_style_matrices] has computed when it returns. *)
Lemma construct_style_matrices_inv df BASE apply_ratio style_elements
    add_one X Y models :
  construct_style_matrices df BASE apply_ratio style_elements add_one
  = Ok (X, Y, models) →
  let names := Encoder.pd_unique ((model_a <$> df) ++ (model_b <$> df)) in
  let k := (length style_elements / 2)%nat in
  models = zip names (seq 0 (length names))
  ∧ Y = imap (label (length (df ++ df) / 2)) (df ++ df)
  ∧ Nat.even (length style_elements) = true
  ∧ k ≠ 0%nat
  ∧ Forall (λ j, j < k) (flatnonzero apply_ratio)
  ∧ ∃ L ia ib style_vector,
      math_log BASE = Ok L
      ∧ mapM (λ b, series_idx models (model_a b)) (df ++ df) = Ok ia
      ∧ mapM (λ b, series_idx models (model_b b)) (df ++ df) = Ok ib
      ∧ mapM (λ element,
                mapM (λ b, meta_get (conv_metadata b) element) (df ++ df))
             style_elements = Ok style_vector
      ∧ X = imap (λ i s, s ++ transpose_row
                    (standardize_row
                       <$> style_rows style_vector k (flatnonzero apply_ratio)
                             add_one) i)
                 (zip_with (strength_row (length models) L) ia ib).
Proof.
  unfold construct_style_matrices. intros H.
  destruct (Nat.even (length style_elements)) eqn:Heven; [|done].
  cbn [negb] in H.
  destruct (math_log BASE) as [L|e]; [|done]. cbn [mbind result_bind] in H.
  destruct (mapM (λ b, series_idx _ (model_a b)) (df ++ df)) as [ia|e] eqn:Ea;
    [|done]. cbn [mbind result_bind] in H.
  destruct (mapM (λ b, series_idx _ (model_b b)) (df ++ df)) as [ib|e] eqn:Eb;
    [|done]. cbn [mbind result_bind] in H.
  destruct (mapM (λ element, mapM _ (df ++ df)) style_elements)
    as [sv|e] eqn:Es; [|done]. cbn [mbind result_bind] in H.
  destruct (forallb _ (flatnonzero apply_ratio)) eqn:Ef; [|done].
  cbn [negb] in H.
  case_bool_decide as Hk; [done|].
  injection H as <- <- <-.
  split; [done|]. split; [done|]. split; [done|]. split; [done|].
  split.
  { apply Forall_forall. intros j Hj. apply Nat.ltb_lt.
    rewrite forallb_forall in Ef. apply Ef. by apply list_elem_of_In. }
  exists L, ia, ib, sv. by rewrite Ea, Eb.
Qed.

(** X12: the labels of the style design matrix.  Each battle has two rows,
    [i] and [n + i] for [n] battles.  A win of model_a is labelled 1 in
    both, a tie is labelled 1 in the first row and 0 in the second, and any
    other tag (a win of model_b, or an unknown tag) is labelled 0 in both. *)
Theorem construct_style_matrices_labels df BASE apply_ratio style_elements
    add_one X Y models i b :
  construct_style_matrices df BASE apply_ratio style_elements add_one
  = Ok (X, Y, models) →
  df !! i = Some b →
  length Y = (2 * length df)%nat
  ∧ Y !! i
    = Some (if bool_decide (winner b = "model_a") then 1%Q
            else if is_tie (winner b) then 1%Q else 0%Q)
  ∧ Y !! (length df + i)%nat
    = Some (if bool_decide (winner b = "model_a") then 1%Q else 0%Q).
Proof.
  intros H Hi. apply construct_style_matrices_inv in H as (_ & -> & _).
  pose proof (lookup_lt_Some _ _ _ Hi) as Hlt.
  assert (Hhalf : (length (df ++ df) / 2 = length df)%nat).
  { rewrite length_app.
    replace (length df + length df)%nat with (length df * 2)%nat by lia.
    by rewrite Nat.div_mul. }
  rewrite Hhalf. split; [rewrite length_imap, length_app; lia|]. split.
  - rewrite list_lookup_imap, lookup_app_l, Hi by done. simpl.
    unfold label. rewrite (bool_decide_eq_true_2 (i < length df)) by lia.
    by rewrite andb_true_r.
  - rewrite list_lookup_imap, lookup_app_r by lia.
    replace (length df + i - length df)%nat with i by lia. rewrite Hi. simpl.
    unfold label.
    rewrite (bool_decide_eq_false_2 (length df + i < length df)) by lia.
    by rewrite andb_false_r.
Qed.

Lemma style_sample_returns :
  ∃ X Y models,
    construct_style_matrices style_sample 10 [1; 1]%Z style_elements2 true
    = Ok (X, Y, models).
Proof.
  unfold construct_style_matrices.
  rewrite (math_log_pos 10) by lra.
  vm_compute. by eexists _, _, _.
Defined.

Lemma construct_style_matrices_labels_witness :
  ∃ X Y models,
    construct_style_matrices style_sample 10 [1; 1]%Z style_elements2 true
    = Ok (X, Y, models)
    ∧ style_sample !! 0%nat
      = Some (mkBattle "gpt" "llama" "tie" "judge1"
                [("len_a", MInt 30);
                 ("header_a", MDict [("h1", 1%Z); ("h2", 2%Z)]);
                 ("len_b", MInt 10); ("header_b", MInt 3)])
    ∧ length Y = 4%nat
    ∧ Y !! 0%nat = Some 1%Q
    ∧ Y !! 2%nat = Some 0%Q.
Proof.
  destruct style_sample_returns as (X & Y & models & E).
  exists X, Y, models. split; [exact E|]. split; [reflexivity|].
  exact (construct_style_matrices_labels style_sample 10 [1; 1]%Z
           style_elements2 true X Y models 0 _ E eq_refl).
Defined.

(** What makes [construct_style_matrices] raise before it reads any
    battle: an odd number of style elements fails the assertion, and with
    an even number a base that is not positive makes [math.log] raise
    [ValueError]. *)
Lemma construct_style_matrices_errors df BASE apply_ratio style_elements
    add_one :
  (Nat.even (length style_elements) = false →
     construct_style_matrices df BASE apply_ratio style_elements add_one
     = Raise AssertionError)
  ∧ (Nat.even (length style_elements) = true → (BASE <= 0)%R →
     construct_style_matrices df BASE apply_ratio style_elements add_one
     = Raise ValueError).
Proof.
  split.
  - intros Hodd. unfold construct_style_matrices. by rewrite Hodd.
  - intros Heven Hb. unfold construct_style_matrices, math_log.
    rewrite Heven. cbn [negb].
    destruct (Rlt_dec 0 BASE) as [Hlt|_]; [lra|done].
Qed.

(** A name of the registry is found at its own position. *)
Lemma series_idx_total (names : list string) name :
  name ∈ names →
  ∃ i, series_idx (zip names (seq 0 (length names))) name = Ok i
       ∧ names !! i = Some name.
Proof.
  intros Hin. apply list_elem_of_lookup in Hin as [j Hj].
  pose proof (lookup_lt_Some _ _ _ Hj) as Hlt.
  assert (Hz : zip names (seq 0 (length names)) !! j = Some (name, j)).
  { apply lookup_zip_with_Some. exists name, j.
    split; [done|]. split; [done|]. by rewrite lookup_seq_lt. }
  destruct (list_find_elem_of (λ kv : string * nat, kv.1 = name)
              (zip names (seq 0 (length names))) (name, j))
    as [[i kv] Hfind]; [by eapply list_elem_of_lookup_2|done|].
  unfold series_idx. rewrite Hfind. exists kv.2. split; [done|].
  apply list_find_Some in Hfind as (Hi & Hname & _).
  apply lookup_zip_with_Some in Hi as (x & y & -> & Hx & Hy).
  simpl in *. subst x.
  apply lookup_seq in Hy as [-> _]. done.
Qed.

Lemma meta_get_total (metadata : list (string * meta_value)) element :
  element ∈ metadata.*1 → ∃ z, meta_get metadata element = Ok z.
Proof.
  intros Hin. apply list_elem_of_fmap in Hin as ([key v] & -> & Hkv).
  destruct (list_find_elem_of (λ kv : string * meta_value, kv.1 = key)
              metadata (key, v)) as [[i kv] Hfind]; [done..|].
  unfold meta_get. simpl. rewrite Hfind. by eexists.
Qed.

Lemma even_double_half n : Nat.even n = true → (n = 2 * (n / 2))%nat.
Proof.
  intros H. apply Nat.even_spec in H as [m ->].
  by rewrite Nat.mul_comm, Nat.div_mul, Nat.mul_comm.
Qed.

Lemma length_style_rows (style_vector : list (list Z)) k ratio_idx add_one :
  length style_vector = (2 * k)%nat →
  length (style_rows style_vector k ratio_idx add_one) = k.
Proof.
  intros Hlen. unfold style_rows, apply_ratios.
  rewrite length_imap, length_zip_with, length_take, length_drop. lia.
Qed.

(** X13: on well-formed input [construct_style_matrices] returns.  With a
    positive base, an even, non-zero number of style elements that every
    battle's metadata holds, and ratio positions within the covariates,
    the result has two rows and two labels per battle, one strength column
    per model of the battles and one column per covariate. *)
Theorem construct_style_matrices_total df BASE apply_ratio style_elements
    add_one :
  (0 < BASE)%R →
  Nat.even (length style_elements) = true →
  style_elements ≠ [] →
  Forall (λ j, j < length style_elements / 2) (flatnonzero apply_ratio) →
  (∀ b e, b ∈ df → e ∈ style_elements → e ∈ (conv_metadata b).*1) →
  ∃ X Y models,
    construct_style_matrices df BASE apply_ratio style_elements add_one
    = Ok (X, Y, models)
    ∧ models.*1 = Encoder.pd_unique ((model_a <$> df) ++ (model_b <$> df))
    ∧ length X = (2 * length df)%nat
    ∧ length Y = (2 * length df)%nat
    ∧ Forall (λ row, length row
                     = (length models + length style_elements / 2)%nat) X.
Proof.
  intros Hbase Heven Hne Hratio Hmeta.
  set (names := Encoder.pd_unique ((model_a <$> df) ++ (model_b <$> df))).
  set (models := zip names (seq 0 (length names))).
  set (k := (length style_elements / 2)%nat).
  assert (Hk : k ≠ 0%nat).
  { pose proof (even_double_half _ Heven). fold k in H.
    destruct style_elements; [done|]. simpl in H. lia. }
  assert (Hnames : ∀ b, b ∈ df ++ df →
            model_a b ∈ names ∧ model_b b ∈ names).
  { intros b Hb. assert (b ∈ df) by set_solver.
    split; apply elem_of_pd_unique, elem_of_app; [left|right];
      apply list_elem_of_fmap; by exists b. }
  destruct (mapM_total (λ b, series_idx models (model_a b)) (df ++ df))
    as [ia Hia].
  { intros b Hb. destruct (series_idx_total names (model_a b)) as (i & Hi & _);
      [by apply Hnames|]. by exists i. }
  destruct (mapM_total (λ b, series_idx models (model_b b)) (df ++ df))
    as [ib Hib].
  { intros b Hb. destruct (series_idx_total names (model_b b)) as (i & Hi & _);
      [by apply Hnames|]. by exists i. }
  destruct (mapM_total
              (λ element,
                 mapM (λ b, meta_get (conv_metadata b) element) (df ++ df))
              style_elements) as [sv Hsv].
  { intros e He. apply mapM_total. intros b Hb.
    apply meta_get_total, Hmeta; [set_solver|done]. }
  eexists _, _, models. unfold construct_style_matrices.
  fold names. fold models. fold k.
  rewrite Heven, (math_log_pos _ Hbase). cbn [negb mbind result_bind].
  rewrite Hia, Hib. cbn [mbind result_bind]. rewrite Hsv.
  cbn [mbind result_bind].
  assert (Hfb : forallb (λ j, j <? k) (flatnonzero apply_ratio) = true).
  { apply forallb_forall. intros j Hj. apply Nat.ltb_lt.
    rewrite Forall_forall in Hratio. apply Hratio.
    by apply list_elem_of_In. }
  rewrite Hfb. cbn [negb]. rewrite (bool_decide_eq_false_2 _ Hk).
  split; [done|].
  assert (Hlia : length ia = length (df ++ df)) by (by eapply mapM_length).
  assert (Hlib : length ib = length (df ++ df)) by (by eapply mapM_length).
  assert (Hlsv : length sv = (2 * k)%nat).
  { rewrite (mapM_length _ _ _ Hsv). by apply even_double_half. }
  rewrite length_app in Hlia, Hlib.
  split; [unfold models; apply fst_zip; rewrite length_seq; lia|].
  split; [rewrite length_imap, length_zip_with; lia|].
  split; [rewrite length_imap, length_app; lia|].
  apply Forall_forall. intros row Hrow.
  apply list_elem_of_lookup in Hrow as [i Hi].
  rewrite list_lookup_imap in Hi.
  destruct (zip_with _ ia ib !! i) as [s|] eqn:Es; [|done].
  injection Hi as <-.
  apply lookup_zip_with_Some in Es as (a & c & -> & _ & _).
  rewrite length_app. unfold strength_row, transpose_row.
  rewrite !length_insert, length_replicate, !length_fmap.
  by rewrite (length_style_rows _ _ _ _ Hlsv).
Qed.

Lemma construct_style_matrices_total_witness :
  (0 < 10)%R
  ∧ Nat.even (length style_elements2) = true
  ∧ style_elements2 ≠ []
  ∧ Forall (λ j, j < length style_elements2 / 2) (flatnonzero [1; 1]%Z)
  ∧ (∀ b e, b ∈ style_sample → e ∈ style_elements2 →
            e ∈ (conv_metadata b).*1)
  ∧ ∃ X Y models,
      construct_style_matrices style_sample 10 [1; 1]%Z style_elements2 true
      = Ok (X, Y, models)
      ∧ models.*1
        = Encoder.pd_unique
            ((model_a <$> style_sample) ++ (model_b <$> style_sample))
      ∧ length X = (2 * length style_sample)%nat
      ∧ length Y = (2 * length style_sample)%nat
      ∧ Forall (λ row, length row
                       = (length models + length style_elements2 / 2)%nat) X.
Proof.
  assert (H1 : (0 < 10)%R) by lra.
  assert (H2 : Nat.even (length style_elements2) = true) by reflexivity.
  assert (H3 : style_elements2 ≠ []) by discriminate.
  assert (H4 : Forall (λ j, j < length style_elements2 / 2)
                 (flatnonzero [1; 1]%Z)).
  { repeat constructor. }
  assert (H5 : ∀ b e, b ∈ style_sample → e ∈ style_elements2 →
                 e ∈ (conv_metadata b).*1).
  { intros b e Hb He. unfold style_sample in Hb. unfold style_elements2 in He.
    repeat (apply elem_of_cons in Hb as [-> | Hb]);
      [| |by apply elem_of_nil in Hb];
      repeat (apply elem_of_cons in He as [-> | He]);
      try (by apply elem_of_nil in He);
      apply (bool_decide_eq_true_1 _); reflexivity. }
  split; [exact H1|]. split; [exact H2|]. split; [exact H3|].
  split; [exact H4|]. split; [exact H5|].
  exact (construct_style_matrices_total style_sample 10 [1; 1]%Z
           style_elements2 true H1 H2 H3 H4 H5).
Defined.

Lemma math_log_inv BASE L : math_log BASE = Ok L → (0 < BASE)%R ∧ L = ln BASE.
Proof.
  unfold math_log. destruct (Rlt_dec 0 BASE); [|done].
  intros [= <-]. done.
Qed.

Lemma meta_get_inv (metadata : list (string * meta_value)) element z :
  meta_get metadata element = Ok z → element ∈ metadata.*1.
Proof.
  unfold meta_get.
  destruct (list_find _ metadata) as [[i kv]|] eqn:E; [|done]. intros _.
  apply list_find_Some in E as (Hi & Hkey & _). simpl in Hkey. subst element.
  apply list_elem_of_fmap. exists kv. split; [done|].
  by eapply list_elem_of_lookup_2.
Qed.

(** X14: [construct_style_matrices] returns only on well-formed input: the
    base is positive, the style elements are an even, non-zero number, the
    ratio positions are covariate positions, and every battle's metadata
    holds every style element.  On any other input it raises. *)
Theorem construct_style_matrices_returns_only_if df BASE apply_ratio
    style_elements add_one X Y models :
  construct_style_matrices df BASE apply_ratio style_elements add_one
  = Ok (X, Y, models) →
  (0 < BASE)%R
  ∧ Nat.even (length style_elements) = true
  ∧ style_elements ≠ []
  ∧ Forall (λ j, j < length style_elements / 2) (flatnonzero apply_ratio)
  ∧ (∀ b e, b ∈ df → e ∈ style_elements → e ∈ (conv_metadata b).*1).
Proof.
  intros H.
  apply construct_style_matrices_inv in H
    as (_ & _ & Heven & Hk & Hratio & L & ia & ib & sv & HL & _ & _ & Hsv & _).
  apply math_log_inv in HL as [Hbase _].
  split; [done|]. split; [done|].
  split; [by intros ->|]. split; [done|].
  intros b e Hb He.
  apply list_elem_of_lookup in He as [j Hj].
  destruct (mapM_lookup _ _ _ _ _ Hsv Hj) as (col & _ & Hcol).
  assert (Hb2 : b ∈ df ++ df) by set_solver.
  apply list_elem_of_lookup in Hb2 as [i Hi].
  destruct (mapM_lookup _ _ _ _ _ Hcol Hi) as (z & _ & Hz).
  by eapply meta_get_inv.
Qed.

Lemma construct_style_matrices_returns_only_if_witness :
  ∃ X Y models,
    construct_style_matrices style_sample 10 [1; 1]%Z style_elements2 true
    = Ok (X, Y, models)
    ∧ (0 < 10)%R
    ∧ Nat.even (length style_elements2) = true
    ∧ style_elements2 ≠ []
    ∧ Forall (λ j, j < length style_elements2 / 2) (flatnonzero [1; 1]%Z)
    ∧ (∀ b e, b ∈ style_sample → e ∈ style_elements2 →
              e ∈ (conv_metadata b).*1).
Proof.
  destruct style_sample_returns as (X & Y & models & E).
  exists X, Y, models. split; [exact E|].
  exact (construct_style_matrices_returns_only_if style_sample 10 [1; 1]%Z
           style_elements2 true X Y models E).
Defined.

End style_facts.
(** ** The duplicated rows and the degenerate covariates *)

Lemma mapM_ext_in {A B} (f g : A → result B) (l : list A) :
  (∀ x, x ∈ l → f x = g x) → mapM f l = mapM g l.
Proof.
  induction l as [|x l IH]; intros H; [done|].
  cbn [mapM]. rewrite (H x) by set_solver.
  destruct (g x); [|done]. cbn [mbind result_bind].
  rewrite IH; [done|]. intros y Hy. apply H. set_solver.
Qed.

Lemma lookup_twice {A} (h : list A) i :
  i < length h → (h ++ h) !! i = (h ++ h) !! (length h + i).
Proof.
  intros Hi. rewrite lookup_app_l, lookup_app_r by lia.
  by replace (length h + i - length h) with i by lia.
Qed.

Lemma zip_with_repeats {A B C} (f : A → B → C) n (l1 : list A)
    (l2 : list B) :
  (∀ i, i < n → l1 !! i = l1 !! (n + i)) →
  (∀ i, i < n → l2 !! i = l2 !! (n + i)) →
  ∀ i, i < n → zip_with f l1 l2 !! i = zip_with f l1 l2 !! (n + i).
Proof.
  intros H1 H2 i Hi. rewrite !lookup_zip_with. by rewrite H1, H2.
Qed.

Lemma fmap_repeats {A B} (f : A → B) n (l : list A) :
  (∀ i, i < n → l !! i = l !! (n + i)) →
  ∀ i, i < n → (f <$> l) !! i = (f <$> l) !! (n + i).
Proof.
  intros H i Hi. rewrite !list_lookup_fmap. by rewrite H.
Qed.

Lemma zip_rows_repeat {A B C} (f : A → B → C) n (r1 : list (list A))
    (r2 : list (list B)) :
  Forall (λ r, ∀ i, i < n → r !! i = r !! (n + i)) r1 →
  Forall (λ r, ∀ i, i < n → r !! i = r !! (n + i)) r2 →
  Forall (λ r, ∀ i, i < n → r !! i = r !! (n + i))
    (zip_with (zip_with f) r1 r2).
Proof.
  intros H1 H2. apply Forall_lookup. intros j row Hj.
  apply lookup_zip_with_Some in Hj as (a & b & -> & Ha & Hb).
  apply zip_with_repeats.
  - exact (proj1 (Forall_lookup _ _) H1 j a Ha).
  - exact (proj1 (Forall_lookup _ _) H2 j b Hb).
Qed.

Section style_rows_facts.
Import XQ Style.

Lemma style_rows_repeat (sv : list (list Z)) k ratio_idx add_one n :
  Forall (λ r, ∀ i, i < n → r !! i = r !! (n + i)) sv →
  Forall (λ r, ∀ i, i < n → r !! i = r !! (n + i))
    (style_rows sv k ratio_idx add_one).
Proof.
  intros Hsv.
  assert (Ht : Forall (λ r : list Z, ∀ i, i < n → r !! i = r !! (n + i))
                 (take k sv)) by (by apply Forall_take).
  assert (Hd : Forall (λ r : list Z, ∀ i, i < n → r !! i = r !! (n + i))
                 (drop k sv)) by (by apply Forall_drop).
  unfold style_rows, apply_ratios.
  apply Forall_lookup. intros j row Hj.
  rewrite list_lookup_imap in Hj.
  destruct (zip_with _ (take k sv) (drop k sv) !! j) as [d|] eqn:Ed; [|done].
  injection Hj as <-.
  assert (Hrow : ∀ i, i < n → d !! i = d !! (n + i)).
  { exact (proj1 (Forall_lookup _ _) (zip_rows_repeat _ n _ _ Ht Hd) j d Ed). }
  case_bool_decide; [|done].
  apply zip_with_repeats; [done|].
  pose proof (zip_rows_repeat (λ a b : Z, Fin (inject_Z (int64_wrap (a + b)))) n _ _ Ht Hd)
    as Hsum.
  destruct add_one.
  - rewrite list_lookup_fmap.
    destruct (zip_with (zip_with (λ a b : Z, Fin (inject_Z (int64_wrap (a + b)))))
                (take k sv) (drop k sv) !! j) as [s|] eqn:Es; [|done].
    simpl. apply fmap_repeats.
    exact (proj1 (Forall_lookup _ _) Hsum j s Es).
  - destruct (zip_with (zip_with (λ a b : Z, Fin (inject_Z (int64_wrap (a + b)))))
                (take k sv) (drop k sv) !! j) as [s|] eqn:Es; [|done].
    simpl. exact (proj1 (Forall_lookup _ _) Hsum j s Es).
Qed.

Lemma length_strength_row p L a c : length (strength_row p L a c) = p.
Proof. unfold strength_row. by rewrite !length_insert, length_replicate. Qed.

(** X15: the two rows of a battle are the same row.  Row [n + i] of the
    design matrix repeats row [i], strength columns and covariates alike:
    the battles are duplicated, not mirrored, and the two copies differ in
    their label only. *)
Theorem construct_style_matrices_rows_repeat df BASE apply_ratio
    style_elements add_one X Y models i :
  construct_style_matrices df BASE apply_ratio style_elements add_one
  = Ok (X, Y, models) →
  i < length df →
  is_Some (X !! i) ∧ X !! (length df + i) = X !! i.
Proof.
  intros H Hi.
  apply construct_style_matrices_inv in H
    as (_ & _ & _ & _ & _ & L & ia & ib & sv & _ & Hia & Hib & Hsv & ->).
  apply mapM_twice in Hia as (ia0 & Hia0 & ->).
  apply mapM_twice in Hib as (ib0 & Hib0 & ->).
  apply mapM_length in Hia0, Hib0.
  set (strength := zip_with _ (ia0 ++ ia0) (ib0 ++ ib0)).
  assert (Hs : strength !! i = strength !! (length df + i)).
  { apply zip_with_repeats; [| |done]; intros i' Hi'.
    - rewrite <- Hia0. apply lookup_twice. lia.
    - rewrite <- Hib0. apply lookup_twice. lia. }
  assert (Hlen : i < length strength).
  { unfold strength. rewrite length_zip_with, !length_app. lia. }
  apply lookup_lt_is_Some in Hlen as [s Hsi].
  rewrite !list_lookup_imap, <- Hs, Hsi. cbn [fmap option_fmap option_map].
  split; [by eexists|].
  do 2 f_equal. unfold transpose_row.
  apply Forall_fmap_ext, Forall_fmap, Forall_lookup. intros j row Hj.
  unfold compose, standardize_row. rewrite !list_lookup_fmap.
  assert (Hrep : ∀ i', i' < length df → row !! i' = row !! (length df + i')).
  { refine (proj1 (Forall_lookup
                     (λ r : list xq, ∀ i', i' < length df →
                                           r !! i' = r !! (length df + i')) _)
              _ j row Hj).
    apply style_rows_repeat, Forall_lookup. intros e col He.
    destruct (lookup_lt_is_Some_2 style_elements e) as [el Hel].
    { rewrite <- (mapM_length _ _ _ Hsv). by eapply lookup_lt_Some. }
    destruct (mapM_lookup _ _ _ _ _ Hsv Hel) as (col' & Hcol' & Hm).
    rewrite He in Hcol'. injection Hcol' as <-.
    apply mapM_twice in Hm as (h & Hh & ->).
    apply mapM_length in Hh. rewrite <- Hh. intros i'. apply lookup_twice. }
  by rewrite (Hrep i Hi).
Qed.

Lemma construct_style_matrices_rows_repeat_witness :
  ∃ X Y models,
    construct_style_matrices style_sample 10 [1; 1]%Z style_elements2 true
    = Ok (X, Y, models)
    ∧ 0 < length style_sample
    ∧ is_Some (X !! 0) ∧ X !! (length style_sample + 0) = X !! 0.
Proof.
  destruct style_sample_returns as (X & Y & models & E).
  assert (H : 0 < length style_sample) by (simpl; lia).
  exists X, Y, models. split; [exact E|]. split; [exact H|].
  exact (construct_style_matrices_rows_repeat style_sample 10 [1; 1]%Z
           style_elements2 true X Y models 0 E H).
Defined.

Lemma series_idx_inv (names : list string) name a :
  series_idx (zip names (seq 0 (length names))) name = Ok a →
  zip names (seq 0 (length names)) !! a = Some (name, a).
Proof.
  unfold series_idx.
  destruct (list_find _ _) as [[i kv]|] eqn:E; [|done]. intros [= <-].
  apply list_find_Some in E as (Hi & Hname & _). simpl in Hname.
  pose proof Hi as Hz.
  apply lookup_zip_with_Some in Hz as (x & y & -> & Hx & Hy).
  apply lookup_seq in Hy as [-> _]. simpl in *. by subst x.
Qed.

(** X17: the strength columns of a battle's row.  They are zero except at
    the columns of the battle's two models: [log BASE] at model_a's and
    [-log BASE] at model_b's, written in this order, so that a battle of a
    model against itself keeps [-log BASE] alone. *)
Theorem construct_style_matrices_strength df BASE apply_ratio
    style_elements add_one X Y models i b :
  construct_style_matrices df BASE apply_ratio style_elements add_one
  = Ok (X, Y, models) →
  df !! i = Some b →
  ∃ row a c,
    X !! i = Some row
    ∧ models !! a = Some (model_a b, a)
    ∧ models !! c = Some (model_b b, c)
    ∧ take (length models) row
      = <[c := FFin (- ln BASE)]>
          (<[a := FFin (ln BASE)]> (replicate (length models) (FFin 0%R))).
Proof.
  intros H Hi.
  apply construct_style_matrices_inv in H
    as (-> & _ & _ & _ & _ & L & ia & ib & sv & HL & Hia & Hib & _ & ->).
  apply math_log_inv in HL as [_ ->].
  assert (Hi2 : (df ++ df) !! i = Some b).
  { rewrite lookup_app_l; [done|]. by eapply lookup_lt_Some. }
  destruct (mapM_lookup _ _ _ _ _ Hia Hi2) as (a & Ha & Hsa).
  destruct (mapM_lookup _ _ _ _ _ Hib Hi2) as (c & Hc & Hsc).
  apply series_idx_inv in Hsa, Hsc.
  eexists _, a, c. rewrite list_lookup_imap, lookup_zip_with, Ha, Hc. simpl.
  split; [done|]. split; [done|]. split; [done|].
  by rewrite take_app_length' by (by rewrite length_strength_row).
Qed.

Lemma construct_style_matrices_strength_witness :
  ∃ X Y models,
    construct_style_matrices style_sample 10 [1; 1]%Z style_elements2 true
    = Ok (X, Y, models)
    ∧ style_sample !! 1%nat
      = Some (mkBattle "llama" "vicuna" "model_a" "judge2"
                [("len_a", MInt 5); ("header_a", MInt 0);
                 ("len_b", MInt 15); ("header_b", MInt 0)])
    ∧ ∃ row a c,
        X !! 1%nat = Some row
        ∧ models !! a = Some ("llama", a)
        ∧ models !! c = Some ("vicuna", c)
        ∧ take (length models) row
          = <[c := FFin (- ln 10)]>
              (<[a := FFin (ln 10)]> (replicate (length models) (FFin 0%R))).
Proof.
  destruct style_sample_returns as (X & Y & models & E).
  exists X, Y, models. split; [exact E|]. split; [reflexivity|].
  exact (construct_style_matrices_strength style_sample 10 [1; 1]%Z
           style_elements2 true X Y models 1 _ E eq_refl).
Defined.

End style_rows_facts.

(** ** A covariate that is the same on both sides *)

Section degenerate_covariate.
Import XQ Style.

(** NaN, or a rational that is zero. *)
Abbreviation nan_or_zero x := (x = NaN ∨ ∃ q, x = Fin q ∧ Qeq q 0).

Lemma Qeq_bool_zero q : Qeq q 0 → Qeq_bool q 0 = true.
Proof. apply Qeq_bool_iff. Qed.

Lemma nan_or_zero_xneg x : nan_or_zero x → nan_or_zero (xneg x).
Proof.
  intros [->|(a & -> & Ha)]; [by left|]. right. exists (- a)%Q.
  split; [done|]. by rewrite Ha.
Qed.

Lemma nan_or_zero_xadd x y :
  nan_or_zero x → nan_or_zero y → nan_or_zero (xadd x y).
Proof.
  intros [->|(a & -> & Ha)] [->|(b & -> & Hb)]; [by left..|].
  right. exists (a + b)%Q. split; [done|]. by rewrite Ha, Hb.
Qed.

Lemma nan_or_zero_xmul x y :
  nan_or_zero x → nan_or_zero y → nan_or_zero (xmul x y).
Proof.
  intros [->|(a & -> & Ha)] [->|(b & -> & Hb)]; [by left..|].
  right. exists (a * b)%Q. split; [done|]. rewrite Ha. apply Qmult_0_l.
Qed.

Lemma nan_or_zero_xsum l : Forall (λ x, nan_or_zero x) l → nan_or_zero (xsum l).
Proof.
  induction 1 as [|x l Hx _ IH]; [right; by exists 0%Q|].
  by apply nan_or_zero_xadd.
Qed.

Lemma nan_or_zero_xmean_row l :
  l ≠ [] → Forall (λ x, nan_or_zero x) l → nan_or_zero (xmean_row l).
Proof.
  intros Hne Hl. unfold xmean_row.
  destruct (nan_or_zero_xsum l Hl) as [->|(a & -> & Ha)]; [by left|].
  cbn [xdiv].
  destruct (Qeq_bool (inject_Z (Z.of_nat (length l))) 0) eqn:E.
  - apply Qeq_bool_iff in E. unfold Qeq in E. simpl in E.
    destruct l; [done|]. simpl in E. lia.
  - right. eexists. split; [done|]. rewrite Ha. unfold Qdiv.
    apply Qmult_0_l.
Qed.

Lemma nan_or_zero_xdiv a y : Qeq a 0 → nan_or_zero (xdiv (Fin a) y).
Proof.
  intros Ha. destruct y as [b| | |]; cbn [xdiv].
  - rewrite (Qeq_bool_zero a Ha). destruct (Qeq_bool b 0); [by left|].
    right. eexists. split; [done|]. rewrite Ha. unfold Qdiv.
    apply Qmult_0_l.
  - right. by exists 0%Q.
  - right. by exists 0%Q.
  - by left.
Qed.

Lemma standardize_nan_or_zero num var :
  nan_or_zero num → nan_or_zero var → standardize num var = FNaN.
Proof.
  intros [->|(a & -> & Ha)] [->|(v & -> & Hv)]; cbn [standardize];
    rewrite ?(Qeq_bool_zero _ Ha), ?(Qeq_bool_zero _ Hv); done.
Qed.

(** A row without variance is standardized to NaN throughout. *)
Lemma standardize_row_nan_or_zero row :
  Forall (λ x, nan_or_zero x) row →
  Forall (λ c, c = FNaN) (standardize_row row).
Proof.
  intros Hrow. unfold standardize_row. apply Forall_fmap, Forall_forall.
  intros d Hd. unfold compose.
  assert (Hne : row ≠ []) by (intros ->; by apply elem_of_nil in Hd).
  pose proof (nan_or_zero_xmean_row row Hne Hrow) as Hmean.
  apply standardize_nan_or_zero.
  - apply nan_or_zero_xadd; [|by apply nan_or_zero_xneg].
    by apply (proj1 (Forall_forall _ _) Hrow).
  - unfold xvar_row. apply nan_or_zero_xmean_row.
    + destruct row; [done|]. done.
    + apply Forall_fmap, Forall_forall. intros e He. unfold compose.
      assert (He' : nan_or_zero (xsub e (xmean_row row))).
      { apply nan_or_zero_xadd; [|by apply nan_or_zero_xneg].
        by apply (proj1 (Forall_forall _ _) Hrow). }
      by apply nan_or_zero_xmul.
Qed.

(** X16: a style element with the same value on both sides of every
    battle gives a column of NaN.  The differences are all zero, so the
    standard deviation is zero and the standardization divides zero by
    zero; no error is raised, with or without the ratio. *)
Theorem construct_style_matrices_constant_covariate df BASE apply_ratio
    style_elements add_one X Y models j ea eb :
  construct_style_matrices df BASE apply_ratio style_elements add_one
  = Ok (X, Y, models) →
  style_elements !! j = Some ea →
  style_elements !! (length style_elements / 2 + j)%nat = Some eb →
  (∀ b, b ∈ df →
        meta_get (conv_metadata b) ea = meta_get (conv_metadata b) eb) →
  ∀ row, row ∈ X → row !! (length models + j)%nat = Some FNaN.
Proof.
  intros H Hja Hjb Hsame row Hrow.
  apply construct_style_matrices_inv in H
    as (_ & _ & Heven & _ & _ & L & ia & ib & sv & _ & _ & _ & Hsv & ->).
  set (k := (length style_elements / 2)%nat) in *.
  assert (Hjk : j < k).
  { apply lookup_lt_Some in Hjb.
    pose proof (even_double_half _ Heven). fold k in H. lia. }
  destruct (mapM_lookup _ _ _ _ _ Hsv Hja) as (va & Hva & Hma).
  destruct (mapM_lookup _ _ _ _ _ Hsv Hjb) as (vb & Hvb & Hmb).
  assert (vb = va) as ->.
  { assert (E : Ok vb = Ok va); [|by injection E].
    rewrite <- Hma, <- Hmb. symmetry. apply mapM_ext_in.
    intros b Hb. apply Hsame. set_solver. }
  set (diff := zip_with (λ a b : Z, Fin (inject_Z (int64_wrap (a - b)))) va va).
  assert (Hdiff : zip_with (zip_with (λ a b : Z, Fin (inject_Z (int64_wrap (a - b)))))
                    (take k sv) (drop k sv) !! j = Some diff).
  { apply lookup_zip_with_Some. exists va, va. split; [done|].
    by rewrite lookup_take_lt, lookup_drop. }
  assert (Hzero : Forall (λ x, ∃ q, x = Fin q ∧ Qeq q 0) diff).
  { apply Forall_lookup. intros i x Hx.
    apply lookup_zip_with_Some in Hx as (a & b & -> & Ha & Hb).
    rewrite Ha in Hb. injection Hb as <-. rewrite Z.sub_diag.
    by exists (inject_Z (int64_wrap 0)). }
  assert (Hrowj : ∃ r, style_rows sv k (flatnonzero apply_ratio) add_one !! j
                       = Some r ∧ Forall (λ x, nan_or_zero x) r).
  { unfold style_rows, apply_ratios. rewrite list_lookup_imap. fold diff.
    rewrite Hdiff. cbn [fmap option_fmap option_map]. eexists. split; [done|].
    case_bool_decide.
    - apply Forall_lookup. intros i x Hx.
      apply lookup_zip_with_Some in Hx as (d & y & -> & Hd & _).
      destruct (proj1 (Forall_lookup _ _) Hzero i d Hd) as (q & -> & Hq).
      by apply nan_or_zero_xdiv.
    - eapply Forall_impl; [exact Hzero|]. intros x Hx. by right. }
  destruct Hrowj as (r & Hr & Hnz).
  apply elem_of_lookup_imap in Hrow as (i & s & -> & Hs).
  apply lookup_zip_with_Some in Hs as (a & c & -> & _ & _).
  rewrite lookup_app_r by (rewrite length_strength_row; lia).
  rewrite length_strength_row.
  replace (length models + j - length models)%nat with j by lia.
  unfold transpose_row. rewrite !list_lookup_fmap, Hr.
  cbn [fmap option_fmap option_map]. f_equal.
  destruct (standardize_row r !! i) as [c'|] eqn:Ec; [|done].
  exact (proj1 (Forall_lookup _ _) (standardize_row_nan_or_zero r Hnz) i c' Ec).
Qed.

Lemma construct_style_matrices_constant_covariate_witness :
  ∃ X Y models,
    construct_style_matrices style_sample 10 [1; 1]%Z style_elements2 true
    = Ok (X, Y, models)
    ∧ style_elements2 !! 1%nat = Some "header_a"
    ∧ style_elements2 !! (length style_elements2 / 2 + 1)%nat
      = Some "header_b"
    ∧ (∀ b, b ∈ style_sample →
            meta_get (conv_metadata b) "header_a"
            = meta_get (conv_metadata b) "header_b")
    ∧ ∀ row, row ∈ X → row !! (length models + 1)%nat = Some FNaN.
Proof.
  destruct style_sample_returns as (X & Y & models & E).
  assert (H : ∀ b, b ∈ style_sample →
                meta_get (conv_metadata b) "header_a"
                = meta_get (conv_metadata b) "header_b").
  { intros b Hb. unfold style_sample in Hb.
    repeat (apply elem_of_cons in Hb as [-> | Hb]);
      [reflexivity | reflexivity | by apply elem_of_nil in Hb]. }
  exists X, Y, models. split; [exact E|]. split; [reflexivity|].
  split; [reflexivity|]. split; [exact H|].
  exact (construct_style_matrices_constant_covariate style_sample 10
           [1; 1]%Z style_elements2 true X Y models 1 "header_a" "header_b"
           E eq_refl eq_refl H).
Defined.

End degenerate_covariate.

(** ** The style fit and its bootstrap *)

Lemma length_filter_split {A} (f : A → bool) (l : list A) :
  length (filter (λ x, f x = false) l) + length (filter (λ x, f x = true) l)
  = length l.
Proof.
  induction l as [|x l IH]; [done|].
  rewrite !filter_cons. destruct (f x) eqn:E.
  - rewrite decide_False by done. rewrite decide_True by done. simpl. lia.
  - rewrite decide_True by done. rewrite decide_False by done. simpl. lia.
Qed.

Section style_fit_facts.
Import XQ Style.
Variable logistic_fit : list (list fl) → list Q → result (list R).

(** What [fit_mle_elo] returns.  When the fit gives at least one
    coefficient per model, the rating paired with the model at position
    [j] of [models] is the scaled coefficient number [j], shifted by one
    amount for all models; the coefficients after the first [p] are the
    style coefficients.  Without the baseline model the shift is zero;
    with it, the shift sets the score of the baseline's column to 1114. *)
Lemma fit_mle_elo_positions X Y models SCALE INIT_RATING coef :
  logistic_fit X Y = Ok coef →
  length models ≤ length coef →
  (∀ i kv, list_find (λ kv : string * nat, kv.1 = BT.default_baseline) models
           = Some (i, kv) → kv.2 < length coef) →
  ∃ shift ratings,
    fit_mle_elo logistic_fit X Y models SCALE INIT_RATING
    = Ok (ratings, drop (length models) coef)
    ∧ length ratings = length models
    ∧ (∀ j name col cj,
         models !! j = Some (name, col) → coef !! j = Some cj →
         ratings !! j = Some (name, SCALE * cj + INIT_RATING + shift)%R)
    ∧ (BT.default_baseline ∉ models.*1 → shift = 0%R)
    ∧ (∀ i col cc,
         list_find (λ kv : string * nat, kv.1 = BT.default_baseline) models
         = Some (i, (BT.default_baseline, col)) →
         coef !! col = Some cc →
         shift = (1114 - (SCALE * cc + INIT_RATING))%R
         ∧ (col = i → ratings !! i = Some (BT.default_baseline, 1114%R))).
Proof.
  intros Hfit Hlen Hanchor.
  set (scores := (λ c, SCALE * c + INIT_RATING)%R <$> coef).
  assert (Hchk : ∀ (l : list R), length l = length coef →
            bool_decide (length (take (length models) l) = length models)
            = true).
  { intros l Hl. apply bool_decide_eq_true_2. rewrite length_take. lia. }
  assert (Hlook : ∀ shift j name col cj,
            models !! j = Some (name, col) → coef !! j = Some cj →
            zip models.*1
              (take (length models) ((λ s, s + shift)%R <$> scores)) !! j
            = Some (name, SCALE * cj + INIT_RATING + shift)%R).
  { intros shift j name col cj Hj Hc.
    apply lookup_zip_with_Some. eexists _, _. split; [done|].
    split; [by rewrite list_lookup_fmap, Hj|].
    rewrite lookup_take_lt by (by eapply lookup_lt_Some).
    unfold scores. by rewrite !list_lookup_fmap, Hc. }
  assert (Hzl : ∀ (l : list R), length l = length coef →
            length (zip models.*1 (take (length models) l)) = length models).
  { intros l Hl. rewrite length_zip_with, length_fmap, length_take. lia. }
  unfold fit_mle_elo. rewrite Hfit. cbn [mbind result_bind]. fold scores.
  destruct (list_find _ models) as [[i [name col]]|] eqn:Efind.
  - pose proof (Hanchor _ _ eq_refl) as Hcol. simpl in Hcol.
    apply lookup_lt_is_Some in Hcol as [cc Hcc].
    pose proof Efind as Hf. apply list_find_Some in Hf as (Hi & Hname & _).
    simpl in Hname. subst name.
    unfold BT.rating_at, scores. cbn [snd]. rewrite list_lookup_fmap, Hcc.
    cbn [fmap option_fmap option_map mbind result_bind]. fold scores.
    rewrite Hchk by (unfold scores; by rewrite !length_fmap).
    exists (1114 - (SCALE * cc + INIT_RATING))%R. eexists.
    split; [done|].
    split; [apply Hzl; unfold scores; by rewrite !length_fmap|].
    split; [apply Hlook|]. split.
    { intros Hnot. exfalso. apply Hnot. apply list_elem_of_fmap.
      exists (BT.default_baseline, col). split; [done|].
      by eapply list_elem_of_lookup_2. }
    intros i' col' cc' [= <- <-] Hcc'. rewrite Hcc in Hcc'.
    injection Hcc' as <-. split; [done|]. intros ->.
    rewrite (Hlook _ _ _ _ _ Hi Hcc). do 2 f_equal. lra.
  - exists 0%R. eexists. cbn [mbind result_bind].
    rewrite Hchk by (unfold scores; by rewrite !length_fmap).
    split; [done|].
    split; [apply Hzl; unfold scores; by rewrite !length_fmap|].
    split.
    { intros j name col cj Hj Hc.
      pose proof (Hlook 0%R j name col cj Hj Hc) as H.
      replace ((λ s, s + 0)%R <$> scores) with scores in H; [done|].
      rewrite <- (list_fmap_id scores) at 1. apply list_fmap_ext.
      intros ? ? _. simpl. lra. }
    split; [done|]. intros i col cc [=].
Qed.

Lemma registry_lookup (names : list string) c name :
  names !! c = Some name →
  zip names (seq 0 (length names)) !! c = Some (name, c).
Proof.
  intros H. apply lookup_zip_with_Some. exists name, c.
  split; [done|]. split; [done|].
  apply lookup_seq_lt. by eapply lookup_lt_Some.
Qed.

Lemma registry_lookup_inv (names : list string) j name col :
  zip names (seq 0 (length names)) !! j = Some (name, col) →
  names !! j = Some name ∧ col = j.
Proof.
  intros H. apply lookup_zip_with_Some in H as (x & y & [= <- <-] & Hx & Hy).
  apply lookup_seq in Hy as [-> _]. done.
Qed.

Lemma registry_find (names : list string) c name :
  NoDup names → names !! c = Some name →
  list_find (λ kv : string * nat, kv.1 = name)
    (zip names (seq 0 (length names))) = Some (c, (name, c)).
Proof.
  intros Hnd Hc. apply list_find_Some.
  split; [by apply registry_lookup|]. split; [done|].
  intros j [n col] Hj Hlt Hn. simpl in Hn. subst n.
  apply registry_lookup_inv in Hj as [Hj _].
  pose proof (NoDup_lookup _ _ _ _ Hnd Hj Hc). lia.
Qed.

(** X18: the final fit on the whole design matrix.  With the registry of
    [construct_style_matrices] and at least one coefficient per model,
    [fit_mle_elo] returns: it rates exactly the models of the registry
    (listed here as they are before the final sort by rating), the rating
    of model [j] is [SCALE * coef[j] + INIT_RATING] plus one shift for
    all, the remaining coefficients are the style coefficients, the shift
    is zero without the baseline model, and with it the baseline is rated
    exactly 1114. *)
Theorem fit_mle_elo_registry X Y (names : list string) SCALE INIT_RATING
    coef :
  logistic_fit X Y = Ok coef →
  length names ≤ length coef →
  NoDup names →
  ∃ shift ratings,
    fit_mle_elo logistic_fit X Y (zip names (seq 0 (length names))) SCALE INIT_RATING
    = Ok (ratings, drop (length names) coef)
    ∧ ratings.*1 = names
    ∧ (∀ j name cj, names !! j = Some name → coef !! j = Some cj →
         ratings !! j = Some (name, SCALE * cj + INIT_RATING + shift)%R)
    ∧ (BT.default_baseline ∉ names → shift = 0%R)
    ∧ (∀ c, names !! c = Some BT.default_baseline →
            ratings !! c = Some (BT.default_baseline, 1114%R)).
Proof.
  intros Hfit Hlen Hnd.
  set (models := zip names (seq 0 (length names))).
  assert (Hlm : length models = length names).
  { unfold models. rewrite length_zip_with, length_seq. lia. }
  assert (Hfst : models.*1 = names).
  { unfold models. apply fst_zip. rewrite length_seq. lia. }
  destruct (fit_mle_elo_positions X Y models SCALE INIT_RATING coef Hfit)
    as (shift & ratings & Hres & Hlr & Hpos & Hno & Hanchor).
  { lia. }
  { intros i [n col] Hf. apply list_find_Some in Hf as (Hi & _ & _).
    apply registry_lookup_inv in Hi as [Hi ->]. simpl.
    apply lookup_lt_Some in Hi. lia. }
  exists shift, ratings. rewrite Hlm in Hres. split; [done|].
  assert (Hrat : ∀ j name cj, names !! j = Some name → coef !! j = Some cj →
            ratings !! j = Some (name, SCALE * cj + INIT_RATING + shift)%R).
  { intros j name cj Hj Hc. eapply Hpos; [|done].
    by apply registry_lookup. }
  split.
  { apply list_eq. intros j. rewrite list_lookup_fmap.
    destruct (names !! j) as [name|] eqn:Hj.
    - destruct (lookup_lt_is_Some_2 coef j) as [cj Hc].
      { apply lookup_lt_Some in Hj. lia. }
      by rewrite (Hrat _ _ _ Hj Hc).
    - apply lookup_ge_None in Hj.
      rewrite (lookup_ge_None_2 ratings j) by lia. done. }
  split; [done|]. split; [by rewrite <- Hfst|].
  intros c Hc.
  destruct (lookup_lt_is_Some_2 coef c) as [cc Hcc].
  { apply lookup_lt_Some in Hc. lia. }
  destruct (Hanchor c c cc (registry_find names c _ Hnd Hc) Hcc) as [_ H].
  by apply H.
Qed.

Lemma present_from_lookup X1 (l : list (string * nat)) : ∀ s c m,
  l !! c = Some m → absent X1 (s + c) = false →
  ((zip l (absent X1 <$> seq s (length l))) ≫=
     λ ms, if (ms.2 : bool) then [] else [ms.1])
  !! length (filter (λ c', absent X1 c' = false) (seq s c)) = Some m.
Proof.
  induction l as [|x l IH]; intros s c m Hc Hp; [done|].
  cbn [length seq fmap list_fmap zip zip_with mbind list_bind].
  cbn [snd fst].
  destruct c as [|c].
  - rewrite Nat.add_0_r in Hp. rewrite Hp. injection Hc as ->. done.
  - cbn [seq]. rewrite filter_cons. cbn [lookup list_lookup] in Hc.
    replace (s + S c) with (S s + c) in Hp by lia.
    destruct (absent X1 s) eqn:Es.
    + rewrite decide_False by done. by apply IH.
    + rewrite decide_True by done. cbn [app length]. by apply IH.
Qed.

Lemma present_from_sub X1 (l : list (string * nat)) : ∀ s,
  let r := (zip l (absent X1 <$> seq s (length l))) ≫=
             λ ms, if (ms.2 : bool) then [] else [ms.1] in
  length r ≤ length l ∧ ∀ m, m ∈ r → m ∈ l.
Proof.
  induction l as [|x l IH]; intros s; [split; [done|set_solver]|].
  cbn [length seq fmap list_fmap zip zip_with mbind list_bind].
  cbn [snd fst]. destruct (IH (S s)) as [Hlen Hin].
  destruct (absent X1 s); cbn [app length]; (split; [lia|]).
  - intros m Hm. apply elem_of_cons. right. by apply Hin.
  - intros m [->|Hm]%elem_of_cons; [by left|].
    apply elem_of_cons. right. by apply Hin.
Qed.

Lemma length_filter_all {A} (P : A → Prop) `{∀ x, Decision (P x)}
    (l : list A) :
  length (filter P l) ≤ length l
  ∧ (length (filter P l) = length l ↔ Forall P l).
Proof.
  induction l as [|x l [IH1 IH2]]; [split; [done|by split]|].
  rewrite filter_cons. destruct (decide (P x)) as [Hx|Hx]; simpl.
  - split; [lia|]. rewrite Forall_cons. split.
    + intros Heq. split; [done|]. apply IH2. lia.
    + intros [_ Hl]. f_equal. by apply IH2.
  - split; [lia|]. rewrite Forall_cons. split; [lia|]. by intros [? _].
Qed.

Lemma present_find_baseline X1 (names : list string) cb :
  NoDup names →
  (BT.default_baseline, cb)
    ∈ present_models X1 (zip names (seq 0 (length names))) →
  ∃ i, list_find (λ kv : string * nat, kv.1 = BT.default_baseline)
         (present_models X1 (zip names (seq 0 (length names))))
       = Some (i, (BT.default_baseline, cb)).
Proof.
  intros Hnd Hin.
  destruct (list_find_elem_of (λ kv : string * nat, kv.1 = BT.default_baseline)
              _ _ Hin eq_refl) as [[i [n col]] Hfind].
  exists i. rewrite Hfind. do 3 f_equal.
  - apply list_find_Some in Hfind as (_ & Hn & _). done.
  - pose proof Hfind as Hf. apply list_find_Some in Hf as (Hi & Hn & _).
    simpl in Hn. subst n.
    destruct (present_from_sub X1 (zip names (seq 0 (length names))) 0)
      as [_ Hsub].
    fold (present_models X1 (zip names (seq 0 (length names)))) in Hsub.
    apply list_elem_of_lookup_2, Hsub, list_elem_of_lookup in Hi as [j Hj].
    apply Hsub, list_elem_of_lookup in Hin as [j' Hj'].
    apply registry_lookup_inv in Hj as [Hj ->].
    apply registry_lookup_inv in Hj' as [Hj' ->].
    exact (NoDup_lookup _ _ _ _ Hnd Hj Hj').
Qed.

(** X20: which coefficient a bootstrap round reports for a model.  The
    round fits all columns of the resample but names only the models that
    occur in it, so a model of column [c] stands at position [q], the
    number of occurring models before it, and its rating is
    [SCALE * coef[q] + INIT_RATING], moved by [1114] minus the score of
    the baseline's own column when the baseline occurs.  Coefficient [q]
    is that of the model's own column only when every model before it
    occurs in the resample; the coefficients from the number of occurring
    models on are all returned as style coefficients. *)
Theorem style_round_rating_column X1 Y1 (names : list string) SCALE
    INIT_RATING coef c name :
  logistic_fit X1 Y1 = Ok coef →
  length names ≤ length coef →
  NoDup names →
  Forall (λ row : list fl, length names ≤ length row) X1 →
  names !! c = Some name →
  absent X1 c = false →
  ∃ ratings cq,
    let present := present_models X1 (zip names (seq 0 (length names))) in
    let q := length (filter (λ c', absent X1 c' = false) (seq 0 c)) in
    fit_mle_elo logistic_fit X1 Y1 present SCALE INIT_RATING
    = Ok (ratings, drop (length present) coef)
    ∧ present !! q = Some (name, c)
    ∧ coef !! q = Some cq
    ∧ q ≤ c
    ∧ (q = c ↔ ∀ c', c' < c → absent X1 c' = false)
    ∧ (BT.default_baseline ∉ present.*1 →
       ratings !! q = Some (name, SCALE * cq + INIT_RATING)%R)
    ∧ (∀ cb cc, (BT.default_baseline, cb) ∈ present →
         coef !! cb = Some cc →
         ratings !! q
         = Some (name, SCALE * cq + INIT_RATING
                       + (1114 - (SCALE * cc + INIT_RATING)))%R).
Proof.
  intros Hfit Hlen Hnd _ Hc Hp.
  set (models := zip names (seq 0 (length names))).
  set (q := length (filter (λ c', absent X1 c' = false) (seq 0 c))).
  assert (Hlm : length models = length names).
  { unfold models. rewrite length_zip_with, length_seq. lia. }
  destruct (present_from_sub X1 models 0) as [Hpl Hpin].
  fold (present_models X1 models) in Hpl, Hpin.
  pose proof (present_from_lookup X1 models 0 c (name, c)
                (registry_lookup names c name Hc) Hp) as Hq.
  fold (present_models X1 models) in Hq. fold q in Hq.
  destruct (length_filter_all (λ c', absent X1 c' = false) (seq 0 c))
    as [Hle Hall].
  rewrite length_seq in Hle, Hall. fold q in Hle, Hall.
  pose proof (lookup_lt_Some _ _ _ Hc) as Hcn.
  destruct (lookup_lt_is_Some_2 coef q) as [cq Hcq]; [lia|].
  destruct (fit_mle_elo_positions X1 Y1 (present_models X1 models)
              SCALE INIT_RATING coef Hfit)
    as (shift & ratings & Hres & _ & Hpos & Hno & Hanchor).
  { lia. }
  { intros i kv Hf. apply list_find_Some in Hf as (Hi & _ & _).
    apply list_elem_of_lookup_2, Hpin, list_elem_of_lookup in Hi as [j Hj].
    destruct kv as [n col]. apply registry_lookup_inv in Hj as [Hj ->].
    simpl. apply lookup_lt_Some in Hj. lia. }
  exists ratings, cq. cbn zeta. fold models. fold q.
  split; [done|]. split; [done|]. split; [done|]. split; [done|].
  split.
  { rewrite Hall, Forall_forall. split.
    - intros H c' Hc'. apply H, elem_of_seq. lia.
    - intros H c' Hc'. apply H. apply elem_of_seq in Hc'. lia. }
  split.
  - intros Hnot. rewrite (Hpos q name c cq Hq Hcq), (Hno Hnot).
    do 2 f_equal. lra.
  - intros cb cc Hin Hcc.
    destruct (present_find_baseline X1 names cb Hnd Hin) as [i Hfind].
    fold models in Hfind.
    destruct (Hanchor i cb cc Hfind Hcc) as [-> _].
    exact (Hpos q name c cq Hq Hcq).
Qed.

Lemma length_resample_rows battles k indices :
  length (resample_rows battles k indices) = 2 * length indices.
Proof.
  unfold resample_rows. rewrite !length_app, length_fmap.
  pose proof (length_filter_split
    (λ i, default false (((λ b, is_tie (winner b)) <$> battles) !! i))
    indices). lia.
Qed.

Lemma resample_rows_bound battles k indices :
  Forall (λ i, i < k) indices →
  Forall (λ i, i < 2 * k) (resample_rows battles k indices).
Proof.
  intros H. unfold resample_rows. rewrite !Forall_app, Forall_fmap.
  assert (Hf : ∀ P `{∀ x : nat, Decision (P x)},
            Forall (λ i, i < 2 * k) (filter P indices)).
  { intros P ?. apply Forall_forall. intros i Hi.
    apply list_elem_of_filter in Hi as [_ Hi].
    rewrite Forall_forall in H. specialize (H i Hi). lia. }
  split; [apply Hf|]. split; [apply Hf|]. split; [apply Hf|].
  apply Forall_forall. intros i Hi. unfold compose.
  apply list_elem_of_filter in Hi as [_ Hi].
  rewrite Forall_forall in H. specialize (H i Hi). lia.
Qed.

(** X19: when a bootstrap round reaches the fit.  With two rows and two
    labels per battle, at least one battle and [k] indices drawn below
    [k], the resample has
    exactly as many rows and labels as [X] and [Y], so neither the row
    indexing nor the shape assertion fails.  If [X] has a column for
    every model, the round is the fit of the resampled rows for the models
    that occur in them; if it has fewer columns than models, the mask
    over the models is too short and the round raises [IndexError]. *)
Theorem style_trial_reaches_fit X ncols Y battles models k indices SCALE
    INIT_RATING :
  0 < k →
  length X = 2 * k → length Y = 2 * k → length battles = k →
  length indices = k → Forall (λ i, i < k) indices →
  Forall (λ row : list fl, length row = ncols) X →
  ∃ X1 Y1,
    mapM (row_at X) (resample_rows battles k indices) = Ok X1
    ∧ mapM (row_at Y) (resample_rows battles k indices) = Ok Y1
    ∧ length X1 = length X ∧ length Y1 = length Y
    ∧ Forall (λ row : list fl, length row = ncols) X1
    ∧ (length models ≤ ncols →
       style_trial logistic_fit X ncols Y battles models k indices SCALE
         INIT_RATING
       = fit_mle_elo logistic_fit X1 Y1 (present_models X1 models) SCALE
           INIT_RATING)
    ∧ (ncols < length models →
       style_trial logistic_fit X ncols Y battles models k indices SCALE
         INIT_RATING
       = Raise IndexError).
Proof.
  intros _ HX HY Hb Hi Hlt Hw.
  pose proof (resample_rows_bound battles k indices Hlt) as Hbound.
  destruct (mapM_total (row_at X) (resample_rows battles k indices))
    as [X1 HX1].
  { intros i Hin. rewrite Forall_forall in Hbound.
    specialize (Hbound i Hin). unfold row_at.
    destruct (X !! i) as [r|] eqn:E; [by eexists|].
    apply lookup_ge_None in E. lia. }
  destruct (mapM_total (row_at Y) (resample_rows battles k indices))
    as [Y1 HY1].
  { intros i Hin. rewrite Forall_forall in Hbound.
    specialize (Hbound i Hin). unfold row_at.
    destruct (Y !! i) as [r|] eqn:E; [by eexists|].
    apply lookup_ge_None in E. lia. }
  pose proof (mapM_length _ _ _ HX1) as HlX.
  pose proof (mapM_length _ _ _ HY1) as HlY.
  rewrite length_resample_rows in HlX, HlY.
  assert (Hw1 : Forall (λ row : list fl, length row = ncols) X1).
  { apply Forall_lookup. intros j row Hj.
    destruct (lookup_lt_is_Some_2 (resample_rows battles k indices) j)
      as [i Hij].
    { rewrite <- (mapM_length _ _ _ HX1). by eapply lookup_lt_Some. }
    destruct (mapM_lookup _ _ _ _ _ HX1 Hij) as (row' & Hrow' & Hat).
    rewrite Hj in Hrow'. injection Hrow' as <-.
    unfold row_at in Hat. destruct (X !! i) as [r|] eqn:E; [|done].
    injection Hat as ->.
    exact (proj1 (Forall_lookup _ _) Hw i row E). }
  exists X1, Y1. split; [done|]. split; [done|].
  split; [lia|]. split; [lia|]. split; [done|].
  unfold style_trial, mask_models.
  rewrite (bool_decide_eq_true_2 _ Hb). cbn [negb].
  rewrite HX1, HY1. cbn [mbind result_bind].
  rewrite (bool_decide_eq_true_2 (length X1 = length X)) by lia.
  cbn [negb]. split.
  - intros Hp. by rewrite (bool_decide_eq_true_2 _ Hp).
  - intros Hp. rewrite bool_decide_eq_false_2 by lia. done.
Qed.

End style_fit_facts.

Section style_fit_witnesses.
Import XQ Style.

Lemma fit_mle_elo_registry_witness :
  fit_sample [] [] = Ok [1%R; 2%R; 3%R]
  ∧ length names_sample ≤ length [1%R; 2%R; 3%R]
  ∧ NoDup names_sample
  ∧ ∃ shift ratings,
      fit_mle_elo fit_sample [] []
        (zip names_sample (seq 0 (length names_sample))) 400 1000
      = Ok (ratings, drop (length names_sample) [1%R; 2%R; 3%R])
      ∧ ratings.*1 = names_sample
      ∧ (∀ j name cj, names_sample !! j = Some name →
           [1%R; 2%R; 3%R] !! j = Some cj →
           ratings !! j = Some (name, 400 * cj + 1000 + shift)%R)
      ∧ (BT.default_baseline ∉ names_sample → shift = 0%R)
      ∧ (∀ c, names_sample !! c = Some BT.default_baseline →
              ratings !! c = Some (BT.default_baseline, 1114%R)).
Proof.
  assert (H1 : fit_sample [] [] = Ok [1%R; 2%R; 3%R]) by reflexivity.
  assert (H2 : length names_sample ≤ length [1%R; 2%R; 3%R])
    by (simpl; lia).
  assert (H3 : NoDup names_sample)
    by (apply (bool_decide_eq_true_1 _); reflexivity).
  split; [exact H1|]. split; [exact H2|]. split; [exact H3|].
  exact (fit_mle_elo_registry fit_sample [] [] names_sample 400 1000
           [1%R; 2%R; 3%R] H1 H2 H3).
Defined.

Lemma style_trial_reaches_fit_witness :
  0 < 2
  ∧ length X_sample = 2 * 2
  ∧ length Y_sample = 2 * 2
  ∧ length style_sample = 2
  ∧ length [1; 0] = 2
  ∧ Forall (λ i, i < 2) [1; 0]
  ∧ Forall (λ row : list fl, length row = 3) X_sample
  ∧ ∃ X1 Y1,
      mapM (row_at X_sample) (resample_rows style_sample 2 [1; 0]) = Ok X1
      ∧ mapM (row_at Y_sample) (resample_rows style_sample 2 [1; 0]) = Ok Y1
      ∧ length X1 = length X_sample ∧ length Y1 = length Y_sample
      ∧ Forall (λ row : list fl, length row = 3) X1
      ∧ (length models_sample ≤ 3 →
         style_trial fit_sample X_sample 3 Y_sample style_sample
           models_sample 2 [1; 0] 400 1000
         = fit_mle_elo fit_sample X1 Y1 (present_models X1 models_sample)
             400 1000)
      ∧ (3 < length models_sample →
         style_trial fit_sample X_sample 3 Y_sample style_sample
           models_sample 2 [1; 0] 400 1000
         = Raise IndexError).
Proof.
  assert (H5 : Forall (λ i, i < 2) [1; 0]) by (repeat constructor).
  assert (H6 : Forall (λ row : list fl, length row = 3) X_sample)
    by (repeat constructor).
  assert (H0 : 0 < 2) by lia.
  split; [exact H0|].
  split; [reflexivity|]. split; [reflexivity|]. split; [reflexivity|].
  split; [reflexivity|]. split; [exact H5|]. split; [exact H6|].
  exact (style_trial_reaches_fit fit_sample X_sample 3 Y_sample style_sample
           models_sample 2 [1; 0] 400 1000 H0 eq_refl eq_refl eq_refl
           eq_refl H5 H6).
Defined.

Lemma style_round_rating_column_witness :
  fit_sample X1_sample [] = Ok [1%R; 2%R; 3%R]
  ∧ length ["gpt"; "llama"; "vicuna"] ≤ length [1%R; 2%R; 3%R]
  ∧ NoDup ["gpt"; "llama"; "vicuna"]
  ∧ Forall (λ row : list fl, length ["gpt"; "llama"; "vicuna"] ≤ length row)
      X1_sample
  ∧ ["gpt"; "llama"; "vicuna"] !! 1 = Some "llama"
  ∧ absent X1_sample 1 = false
  ∧ ∃ ratings cq,
      let present :=
        present_models X1_sample
          (zip ["gpt"; "llama"; "vicuna"]
               (seq 0 (length ["gpt"; "llama"; "vicuna"]))) in
      let q := length (filter (λ c', absent X1_sample c' = false) (seq 0 1)) in
      fit_mle_elo fit_sample X1_sample [] present 400 1000
      = Ok (ratings, drop (length present) [1%R; 2%R; 3%R])
      ∧ present !! q = Some ("llama", 1)
      ∧ [1%R; 2%R; 3%R] !! q = Some cq
      ∧ q ≤ 1
      ∧ (q = 1 ↔ ∀ c', c' < 1 → absent X1_sample c' = false)
      ∧ (BT.default_baseline ∉ present.*1 →
         ratings !! q = Some ("llama", 400 * cq + 1000)%R)
      ∧ (∀ cb cc, (BT.default_baseline, cb) ∈ present →
           [1%R; 2%R; 3%R] !! cb = Some cc →
           ratings !! q
           = Some ("llama", 400 * cq + 1000 + (1114 - (400 * cc + 1000)))%R).
Proof.
  assert (H1 : fit_sample X1_sample [] = Ok [1%R; 2%R; 3%R]) by reflexivity.
  assert (H2 : length ["gpt"; "llama"; "vicuna"] ≤ length [1%R; 2%R; 3%R])
    by (simpl; lia).
  assert (H3 : NoDup ["gpt"; "llama"; "vicuna"])
    by (apply (bool_decide_eq_true_1 _); reflexivity).
  assert (Hw : Forall (λ row : list fl,
                         length ["gpt"; "llama"; "vicuna"] ≤ length row)
                 X1_sample) by (repeat constructor).
  assert (H4 : absent X1_sample 1 = false).
  { unfold absent, X1_sample. cbn -[Req_dec_T].
    destruct (Req_dec_T 1 0) as [E|_]; [lra|reflexivity]. }
  split; [exact H1|]. split; [exact H2|]. split; [exact H3|].
  split; [exact Hw|]. split; [reflexivity|]. split; [exact H4|].
  exact (style_round_rating_column fit_sample X1_sample []
           ["gpt"; "llama"; "vicuna"] 400 1000 [1%R; 2%R; 3%R] 1 "llama"
           H1 H2 H3 Hw eq_refl H4).
Defined.

End style_fit_witnesses.

(** ** The daily vote limit *)

Section votes_facts.
Import Votes.
Context {A : Type}.
Variable date : A → string.
Variable judge : A → string.

Lemma head_loop_sub n : ∀ (l : list A) seen x,
  x ∈ head_loop judge n seen l → x ∈ l.
Proof.
  induction l as [|y l IH]; intros seen x; [done|].
  cbn [head_loop]. rewrite elem_of_app, elem_of_cons.
  intros [Hx|Hx]; [|right; by eapply IH].
  destruct (_ <? n); [|by apply elem_of_nil in Hx].
  apply list_elem_of_singleton in Hx. by left.
Qed.

Lemma head_loop_judge n j : ∀ (l : list A) seen,
  filter (λ b, judge b = j) (head_loop judge n seen l)
  = take (n - count_of j seen) (filter (λ b, judge b = j) l).
Proof.
  induction l as [|x l IH]; intros seen;
    [cbn [head_loop]; by rewrite filter_nil, take_nil|].
  cbn [head_loop]. rewrite filter_app, IH, (filter_cons _ x l).
  unfold count_of at 2. rewrite filter_cons.
  destruct (decide (judge x = j)) as [Hj|Hj].
  - rewrite Hj. cbn [length]. fold (count_of j seen).
    destruct (count_of j seen <? n) eqn:E.
    + apply Nat.ltb_lt in E.
      rewrite filter_cons, decide_True, filter_nil by done.
      replace (n - count_of j seen) with (S (n - S (count_of j seen)))
        by lia. done.
    + apply Nat.ltb_ge in E. rewrite filter_nil.
      replace (n - count_of j seen) with 0 by lia.
      replace (n - S (count_of j seen)) with 0 by lia. done.
  - fold (count_of j seen).
    destruct (_ <? n).
    + by rewrite filter_cons, decide_False, filter_nil by done.
    + by rewrite filter_nil.
Qed.

Lemma bind_single {B} (f : string → list B) (d : string) (l : list string) :
  NoDup l → (∀ d', d' ∈ l → d' ≠ d → f d' = []) →
  l ≫= f = if bool_decide (d ∈ l) then f d else [].
Proof.
  intros Hnd Hf. induction Hnd as [|x l Hx Hnd IH]; [done|].
  cbn [mbind list_bind]. rewrite IH by (intros; apply Hf; set_solver).
  destruct (decide (x = d)) as [->|Hne].
  - rewrite (bool_decide_eq_false_2 _ Hx).
    rewrite bool_decide_eq_true_2 by set_solver. by rewrite app_nil_r.
  - rewrite (Hf x) by set_solver. simpl.
    rewrite (bool_decide_ext (d ∈ l) (d ∈ x :: l)); [done|]. set_solver.
Qed.

Lemma filter_bind {B C} (P : C → Prop) `{∀ x, Decision (P x)}
    (f : B → list C) (l : list B) :
  filter P (l ≫= f) = l ≫= λ x, filter P (f x).
Proof.
  induction l as [|x l IH]; [done|].
  cbn [mbind list_bind]. by rewrite filter_app, IH.
Qed.

Lemma filter_ext_in {B} (P Q : B → Prop) `{∀ x, Decision (P x)}
    `{∀ x, Decision (Q x)} (l : list B) :
  (∀ x, x ∈ l → P x ↔ Q x) → filter P l = filter Q l.
Proof.
  induction l as [|x l IH]; intros Hl; [done|].
  rewrite !filter_cons, IH by (intros; apply Hl; set_solver).
  apply decide_ext, Hl. set_solver.
Qed.

Lemma filter_nil_iff {B} (P : B → Prop) `{∀ x, Decision (P x)} (l : list B) :
  (∀ x, x ∈ l → ¬ P x) → filter P l = [].
Proof.
  induction l as [|x l IH]; intros Hl; [done|].
  rewrite filter_cons, decide_False by (apply Hl; set_solver).
  apply IH. intros y Hy. apply Hl. set_solver.
Qed.

(** X21: the daily vote limit keeps the first votes of each judge on each
    day.  For every day and judge, the votes of that judge on that day in
    the result are the first [daily_vote_per_user] of them in [battles],
    in their order; so their number is the smaller of the limit and the
    number cast, and every row of the result is a row of [battles]. *)
Theorem limit_user_votes_keeps_first (battles : list A) n d j :
  filter (λ b, date b = d ∧ judge b = j) (limit_user_votes date judge battles n)
  = take n (filter (λ b, date b = d ∧ judge b = j) battles)
  ∧ length (filter (λ b, date b = d ∧ judge b = j)
              (limit_user_votes date judge battles n))
    = n `min` length (filter (λ b, date b = d ∧ judge b = j) battles)
  ∧ ∀ b, b ∈ limit_user_votes date judge battles n → b ∈ battles.
Proof.
  assert (Hsub : ∀ b, b ∈ limit_user_votes date judge battles n → b ∈ battles).
  { intros b Hb. unfold limit_user_votes in Hb.
    apply list_elem_of_bind in Hb as (d' & Hb & _).
    apply head_loop_sub, list_elem_of_filter in Hb as [_ Hb]. done. }
  assert (Hmain :
    filter (λ b, date b = d ∧ judge b = j) (limit_user_votes date judge battles n)
    = take n (filter (λ b, date b = d ∧ judge b = j) battles)).
  { unfold limit_user_votes.
    rewrite filter_bind.
    rewrite (bind_single _ d).
    - assert (Hday : ∀ l : list A, (∀ b, b ∈ l → date b = d) →
                filter (λ b, date b = d ∧ judge b = j) l
                = filter (λ b, judge b = j) l).
      { intros l Hl. apply filter_ext_in.
        intros b Hb. specialize (Hl b Hb). tauto. }
      assert (Hboth : filter (λ b, judge b = j)
                        (filter (λ b, date b = d) battles)
                      = filter (λ b, date b = d ∧ judge b = j) battles).
      { rewrite list_filter_filter. apply list_filter_iff. intros b. tauto. }
      case_bool_decide as Hd.
      + rewrite Hday.
        * unfold groupby_head. rewrite head_loop_judge, Hboth.
          by rewrite Nat.sub_0_r.
        * intros b Hb.
          apply head_loop_sub, list_elem_of_filter in Hb as [Hb _]. done.
      + rewrite filter_nil_iff; [by rewrite take_nil|].
        intros b Hb [Hdb _]. apply Hd.
        apply elem_of_pd_unique, list_elem_of_fmap. by exists b.
    - apply unique_from_NoDup.
    - intros d' _ Hne. apply filter_nil_iff.
      intros b Hb [Hdb _].
      apply head_loop_sub, list_elem_of_filter in Hb as [Hb _]. congruence. }
  split; [done|]. split; [|done].
  rewrite Hmain, length_take. lia.
Qed.

Lemma count_of_cons k j (l : list string) :
  count_of k (j :: l) = (if decide (j = k) then 1 else 0) + count_of k l.
Proof.
  unfold count_of. rewrite filter_cons. by destruct (decide (j = k)).
Qed.

Lemma head_loop_all n : ∀ (l : list A) seen,
  (∀ x, x ∈ l →
        count_of (judge x) seen + count_of (judge x) (judge <$> l) ≤ n) →
  head_loop judge n seen l = l.
Proof.
  induction l as [|x l IH]; intros seen Hl; [done|].
  cbn [head_loop].
  pose proof (Hl x (list_elem_of_here x l)) as Hx.
  rewrite fmap_cons, count_of_cons, decide_True in Hx by done.
  assert (E : (count_of (judge x) seen <? n) = true)
    by (apply Nat.ltb_lt; lia).
  rewrite E. cbn [app]. f_equal. apply IH. intros y Hy.
  specialize (Hl y (list_elem_of_further _ _ _ Hy)).
  rewrite fmap_cons, !count_of_cons in *. lia.
Qed.

Lemma regroup_cons (x : A) (l : list A) : ∀ dates : list string,
  NoDup dates →
  (dates ≫= λ d, filter (λ b, date b = d) (x :: l))
  ≡ₚ (if bool_decide (date x ∈ dates) then [x] else [])
     ++ (dates ≫= λ d, filter (λ b, date b = d) l).
Proof.
  intros dates Hnd. induction Hnd as [|d dates Hd Hnd IH]; [done|].
  cbn [mbind list_bind]. rewrite IH, filter_cons.
  destruct (decide (date x = d)) as [<-|Hne].
  - rewrite (bool_decide_eq_false_2 _ Hd).
    rewrite bool_decide_eq_true_2 by set_solver. done.
  - rewrite (bool_decide_ext (date x ∈ d :: dates) (date x ∈ dates))
      by set_solver.
    destruct (bool_decide (date x ∈ dates)); [|done].
    cbn [app]. by rewrite Permutation_middle.
Qed.

Lemma regroup_perm (dates : list string) (l : list A) :
  NoDup dates → (∀ b, b ∈ l → date b ∈ dates) →
  (dates ≫= λ d, filter (λ b, date b = d) l) ≡ₚ l.
Proof.
  intros Hnd. induction l as [|x l IH]; intros Hl.
  - clear. induction dates as [|d dates IH]; [done|].
    cbn [mbind list_bind]. by rewrite IH, filter_nil.
  - rewrite regroup_cons by done.
    rewrite bool_decide_eq_true_2 by (apply Hl; set_solver).
    cbn [app]. apply Permutation_skip, IH. intros b Hb. apply Hl. set_solver.
Qed.

(** X22: a limit that nobody reaches removes nothing.  When no judge has
    more than [daily_vote_per_user] votes on any day, the result is the
    rows of [battles] regrouped by day, the days in the order of their
    first vote: a permutation of [battles]. *)
Theorem limit_user_votes_within_limit (battles : list A) n :
  (∀ d j, length (filter (λ b, date b = d ∧ judge b = j) battles) ≤ n) →
  limit_user_votes date judge battles n
  = (Encoder.pd_unique (date <$> battles) ≫=
       λ d, filter (λ b, date b = d) battles)
  ∧ limit_user_votes date judge battles n ≡ₚ battles.
Proof.
  intros Hn.
  assert (E : limit_user_votes date judge battles n
              = (Encoder.pd_unique (date <$> battles) ≫=
                   λ d, filter (λ b, date b = d) battles)).
  { unfold limit_user_votes. apply list_bind_ext; [|done]. intros d.
    unfold groupby_head. apply head_loop_all. intros x Hx.
    apply list_elem_of_filter in Hx as [Hdx Hx].
    assert (Hc : ∀ l : list A,
              count_of (judge x) (judge <$> l)
              = length (filter (λ b, judge b = judge x) l)).
    { intros l. unfold count_of. induction l as [|y l IH]; [done|].
      rewrite fmap_cons, !filter_cons.
      destruct (decide (judge y = judge x)); cbn [length]; by rewrite IH. }
    rewrite Hc, list_filter_filter.
    rewrite (list_filter_iff _ (λ b, date b = d ∧ judge b = judge x))
      by (intros b; tauto).
    exact (Hn d (judge x)). }
  split; [done|]. rewrite E. apply regroup_perm.
  - apply unique_from_NoDup.
  - intros b Hb. apply elem_of_pd_unique, list_elem_of_fmap. by exists b.
Qed.

End votes_facts.

Lemma limit_user_votes_within_limit_witness :
  (∀ d j, length (filter (λ b : string * string * nat,
                            b.1.1 = d ∧ b.1.2 = j) votes_sample) ≤ 4)
  ∧ Votes.limit_user_votes (λ b, b.1.1) (λ b, b.1.2) votes_sample 4
    = (Encoder.pd_unique ((λ b, b.1.1) <$> votes_sample) ≫=
         λ d, filter (λ b, b.1.1 = d) votes_sample)
  ∧ Votes.limit_user_votes (λ b, b.1.1) (λ b, b.1.2) votes_sample 4
    ≡ₚ votes_sample.
Proof.
  assert (H : ∀ d j, length (filter (λ b : string * string * nat,
                                       b.1.1 = d ∧ b.1.2 = j) votes_sample)
                     ≤ 4).
  { intros d j. exact (length_filter _ votes_sample). }
  split; [exact H|].
  exact (limit_user_votes_within_limit (λ b, b.1.1) (λ b, b.1.2)
           votes_sample 4 H).
Defined.

(** ** Bounds on the ranks *)

Section rank_more.
Import Rank.
Context (q025 q975 : gmap string Q).
Abbreviation exceeds' := (Rank.exceeds q025 q975).
Abbreviation rank_of' := (Rank.rank_of q025 q975).
Abbreviation well_bracketed' := (Rank.well_bracketed q025 q975).

Lemma count_if_le {A} (p : A → bool) (l : list A) :
  count_if p l ≤ length l.
Proof. induction l as [|x l IH]; simpl; [done|]. destruct (p x); lia. Qed.

Lemma count_if_lt {A} (p : A → bool) (l : list A) x :
  x ∈ l → p x = false → count_if p l < length l.
Proof.
  induction l as [|y l IH]; intros Hx Hp; [by apply elem_of_nil in Hx|].
  apply elem_of_cons in Hx as [<-|Hx]; simpl.
  - rewrite Hp. pose proof (count_if_le p l). lia.
  - specialize (IH Hx Hp). destruct (p y); lia.
Qed.

Lemma count_if_none {A} (p : A → bool) (l : list A) :
  (∀ x, x ∈ l → p x = false) → count_if p l = 0.
Proof.
  induction l as [|y l IH]; intros H; [done|]. simpl.
  rewrite (H y) by set_solver. apply IH. intros x Hx. apply H. set_solver.
Qed.

(** Some competitor's upper bound is below no lower bound. *)
Lemma top_interval (l : list string) :
  l ≠ [] → (∀ m, m ∈ l → well_bracketed' m) →
  ∃ m hi, m ∈ l ∧ q975 !! m = Some hi
          ∧ ∀ b lo, b ∈ l → q025 !! b = Some lo → (lo <= hi)%Q.
Proof.
  induction l as [|x l IH]; intros Hne Hwb; [done|].
  destruct (Hwb x) as (lo_x & hi_x & Hlo & Hhi & Hle); [set_solver|].
  destruct l as [|y l].
  - exists x, hi_x. split; [set_solver|]. split; [done|].
    intros b lo Hb Hb'. apply list_elem_of_singleton in Hb as ->.
    congruence.
  - destruct IH as (m & hi & Hm & Hmhi & Hmax); [done| |].
    { intros b Hb. apply Hwb. set_solver. }
    destruct (Qlt_le_dec hi_x hi) as [Hlt|Hge].
    + exists m, hi. split; [set_solver|]. split; [done|].
      intros b lo Hb Hb'. apply elem_of_cons in Hb as [->|Hb].
      * assert (lo = lo_x) as -> by congruence.
        eapply Qle_trans; [exact Hle|]. by apply Qlt_le_weak.
      * by eapply Hmax.
    + exists x, hi_x. split; [set_solver|]. split; [done|].
      intros b lo Hb Hb'. apply elem_of_cons in Hb as [->|Hb].
      * congruence.
      * eapply Qle_trans; [|exact Hge]. by eapply Hmax.
Qed.

(** X23: the ranks stay within the board and start at 1.  When every
    competitor has q025 <= q975, every rank lies between 1 and the number
    of competitors, and a competitor whose upper bound no lower bound
    exceeds has rank 1; there is always one. *)
Theorem ranking_bounds (model_order : list string) :
  model_order ≠ [] →
  (∀ m, m ∈ model_order → well_bracketed' m) →
  ∃ ranking,
    compute_ranking q025 q975 model_order = Ok ranking
    ∧ (∀ m, m ∈ model_order →
            ∃ r, ranking !! m = Some r ∧ 1 ≤ r ≤ length model_order)
    ∧ (∃ m, m ∈ model_order ∧ ranking !! m = Some 1).
Proof.
  intros Hne Hwb.
  destruct (rank_outer_spec q025 q975 model_order model_order [] ∅ eq_refl Hwb)
    as (ranking & E & Hin & _).
  exists ranking. split; [done|]. split.
  - intros m Hm. exists (rank_of' model_order m). split; [by apply Hin|].
    unfold Rank.rank_of.
    pose proof (count_if_lt (exceeds' m) model_order m Hm
                  (well_bracketed_not_self q025 q975 m (Hwb m Hm))). lia.
  - destruct (top_interval model_order Hne Hwb) as (m & hi & Hm & Hhi & Hmax).
    exists m. split; [done|]. rewrite (Hin m Hm). unfold Rank.rank_of.
    rewrite count_if_none; [done|]. intros b Hb. unfold Rank.exceeds.
    rewrite Hhi. destruct (q025 !! b) as [lo|] eqn:Hlo; [|done].
    destruct (Qlt_le_dec hi lo) as [Hlt|]; [|done].
    exfalso. apply (Qlt_irrefl hi).
    eapply Qlt_le_trans; [exact Hlt|]. by eapply Hmax.
Qed.

End rank_more.

Lemma ranking_bounds_witness :
  rank_order ≠ []
  ∧ (∀ m, m ∈ rank_order → Rank.well_bracketed rank_q025 rank_q975 m)
  ∧ ∃ ranking,
      Rank.compute_ranking rank_q025 rank_q975 rank_order = Ok ranking
      ∧ (∀ m, m ∈ rank_order →
              ∃ r, ranking !! m = Some r ∧ 1 ≤ r ≤ length rank_order)
      ∧ (∃ m, m ∈ rank_order ∧ ranking !! m = Some 1).
Proof.
  assert (H0 : rank_order ≠ []) by discriminate.
  assert (H : ∀ m, m ∈ rank_order → Rank.well_bracketed rank_q025 rank_q975 m).
  { intros m Hm. unfold rank_order in Hm.
    repeat (apply elem_of_cons in Hm as [->|Hm]);
      [exists 1200%Q, 1250%Q | exists 1000%Q, 1040%Q | exists 990%Q, 1030%Q
      | by apply elem_of_nil in Hm];
      (split; [reflexivity|]; split; [reflexivity|];
       unfold Qle; simpl; lia). }
  split; [exact H0|]. split; [exact H|].
  exact (ranking_bounds rank_q025 rank_q975 rank_order H0 H).
Defined.

(** ** The detector on the statistics of the same battles *)

Section outlier_pipeline.
Import XQ Outlier.


End outlier_pipeline.

